(** * dwm: the window-management core of [dwm.c], embedded in Rocq

    The development follows the C source function by function.  The data
    the window manager owns (monitors, clients, the two per-monitor
    chains, tag-sets, geometry) is modelled; requests sent to the X
    server are write-only for that data and are left out.  Values read
    back from the server (class hints, the pointer position, the
    Xinerama screen list) are arguments of the functions that read
    them. *)

From Stdlib Require Import ZArith Lia Bool List String.
From Stdlib Require Import Floats.SpecFloat.
From stdpp Require Import base list gmap.

Local Open Scope Z_scope.

(** ** C integers *)

Module CInt.

(** [int] is 32 bits wide.  Signed overflow is undefined in C; the
    model wraps, as the usual two's-complement targets do. *)
Definition int (z : Z) : Z := (z + 2 ^ 31) mod 2 ^ 32 - 2 ^ 31.

(** [unsigned int]: arithmetic modulo [2^32]; it is also the
    conversion of an [int] to [unsigned int]. *)
Definition uint (z : Z) : Z := z mod 2 ^ 32.

Definition INT_MIN : Z := - 2 ^ 31.
Definition INT_MAX : Z := 2 ^ 31 - 1.

Definition fits_int (z : Z) : Prop := INT_MIN <= z <= INT_MAX.

(** Modelled from the spec: [util.h] is not part of the sources; [MAX]
    and [MIN] are the two-way maximum and minimum the spec's "clamp"
    relies on, i.e. [((A) > (B) ? (A) : (B))] and
    [((A) < (B) ? (A) : (B))]. *)
Definition MAX (a b : Z) : Z := if b <? a then a else b.
Definition MIN (a b : Z) : Z := if a <? b then a else b.

End CInt.
Import CInt.

(** ** C floating point

    [float] is IEEE binary32 and [double] binary64, both taken from the
    parameterised specification of the Standard Library. *)

Module CFloat.

Definition float := spec_float.

Definition fprec : Z := 24.
Definition femax : Z := 128.
Definition dprec : Z := 53.
Definition demax : Z := 1024.

(** Conversions of integers. *)
Definition float_of_int (z : Z) : float := binary_normalize fprec femax z 0 false.
Definition double_of_int (z : Z) : float := binary_normalize dprec demax z 0 false.

(** Promotion [float] to [double] (exact) and the rounding conversion
    back. *)
Definition double_of_float (x : float) : float :=
  match x with
  | S754_finite s m e => binary_round dprec demax s m e
  | _ => x
  end.

Definition float_of_double (x : float) : float :=
  match x with
  | S754_finite s m e => binary_round fprec femax s m e
  | _ => x
  end.

Definition fadd : float -> float -> float := SFadd fprec femax.
Definition fmul : float -> float -> float := SFmul fprec femax.
Definition fdiv : float -> float -> float := SFdiv fprec femax.
Definition dadd : float -> float -> float := SFadd dprec demax.
Definition dsub : float -> float -> float := SFsub dprec demax.

(** Comparisons; both operands are in the same format. *)
Definition flt (a b : float) : bool := SFltb a b.
Definition fle (a b : float) : bool := SFleb a b.

(** Decimal constants of the source, as correctly rounded doubles. *)
Definition d_1_0 : float := Eval vm_compute in double_of_int 1.
Definition d_0_5 : float :=
  Eval vm_compute in SFdiv dprec demax (double_of_int 1) (double_of_int 2).
Definition d_0_05 : float :=
  Eval vm_compute in SFdiv dprec demax (double_of_int 5) (double_of_int 100).
Definition d_0_95 : float :=
  Eval vm_compute in SFdiv dprec demax (double_of_int 95) (double_of_int 100).

(** A decimal fraction [n/d] as the nearest [float]. *)
Definition float_of_ratio (n d : Z) : float :=
  float_of_double (SFdiv dprec demax (double_of_int n) (double_of_int d)).

(** Conversion to an integer type truncates toward zero.  The result
    is undefined in C when it does not fit (or for NaN, infinities);
    the model then yields [INT_MIN], the "integer indefinite" value of
    the x86 conversion instructions. *)
Definition trunc (x : float) : option Z :=
  match x with
  | S754_zero _ => Some 0
  | S754_finite s m e =>
      let mag := if 0 <=? e then Z.pos m * 2 ^ e else Z.pos m / 2 ^ (- e) in
      Some (if s then - mag else mag)
  | _ => None
  end.

Definition int_of_float (x : float) : Z :=
  match trunc x with
  | Some z => if (INT_MIN <=? z) && (z <=? INT_MAX) then z else INT_MIN
  | None => INT_MIN
  end.

Definition uint_of_float (x : float) : Z :=
  match trunc x with
  | Some z => if (0 <=? z) && (z <? 2 ^ 32) then z else uint INT_MIN
  | None => uint INT_MIN
  end.

Definition is_nan (x : float) : bool :=
  match x with S754_nan => true | _ => false end.

End CFloat.
Import CFloat.

(** ** Data model *)

(** Clients and monitors live on the heap and are referred to by
    address; the model keeps them in two stores keyed by handle. *)
Definition Cid := nat.
Definition Mid := nat.

(** The two arrange functions a [Layout] can point to; [None] is the
    null pointer of the floating layout. *)
Inductive ArrangeFn := Tile | Monocle.

Record Layout : Type := {
  lt_symbol : string;
  lt_arrange : option ArrangeFn
}.

Record Rule : Type := {
  r_class : option string;
  r_instance : option string;
  r_title : option string;
  r_tags : Z;
  r_isfloating : bool;
  r_monitor : Z
}.

(** [config.h] is not part of the sources: what the code reads from it
    is a parameter.  [ntags] is [LENGTH(tags)]. *)
Record Config : Type := {
  ntags : Z;
  cfg_layouts : list Layout;
  rules : list Rule;
  resizehints : bool;
  cfg_mfact : float;
  DEFAULT_MASTERS_COUNT : Z;
  cfg_showbar : bool;
  cfg_topbar : bool;
  cfg_gappx : Z;
  borderpx : Z
}.

(** [struct Client]; the [next] and [stack_next] links are the lists
    [clients] and [stack] of the owning monitor.  The [int] flags are
    booleans. *)
Record Client : Type := {
  name : string;
  mina : float;
  maxa : float;
  c_x : Z;
  c_y : Z;
  c_w : Z;
  c_h : Z;
  oldx : Z;
  oldy : Z;
  oldw : Z;
  oldh : Z;
  basew : Z;
  baseh : Z;
  incw : Z;
  inch : Z;
  maxw : Z;
  maxh : Z;
  minw : Z;
  minh : Z;
  border_width : Z;
  old_border_width : Z;
  tags : Z;
  isfixed : bool;
  isfloating : bool;
  isurgent : bool;
  neverfocus : bool;
  oldstate : bool;
  isfullscreen : bool;
  monitor : Mid;
  window : Z
}.

(** [struct Monitor]; [next] is the list [monitors] of the global
    state. *)
Record Monitor : Type := {
  layout_symbol : string;
  mfact : float;
  masters_count : Z;
  num : Z;
  m_by : Z;
  mx : Z;
  my : Z;
  mw : Z;
  mh : Z;
  wx : Z;
  wy : Z;
  ww : Z;
  wh : Z;
  gappx : Z;
  selected_tags_set : Z;
  tagset : list Z;
  showbar : bool;
  topbar : bool;
  clients : list Cid;
  selected_client : option Cid;
  stack : list Cid;
  bar_window : Z;
  current_layout_index : Z;
  layouts : list Layout
}.

(** The global variables the core reads and writes. *)
Record WM : Type := {
  sw : Z;
  sh : Z;
  bh : Z;
  monitors : list Mid;
  selected_monitor : Mid;
  mon : gmap Mid Monitor;
  cl : gmap Cid Client;
  next_mon : Mid
}.

(** *** Field updates *)

Definition cset_geometry (v_c_x : Z) (v_c_y : Z) (v_c_w : Z) (v_c_h : Z) (c : Client) : Client :=
  {| name := name c; mina := mina c; maxa := maxa c; c_x := v_c_x;
     c_y := v_c_y; c_w := v_c_w; c_h := v_c_h; oldx := oldx c;
     oldy := oldy c; oldw := oldw c; oldh := oldh c; basew := basew c;
     baseh := baseh c; incw := incw c; inch := inch c; maxw := maxw c;
     maxh := maxh c; minw := minw c; minh := minh c;
     border_width := border_width c; old_border_width := old_border_width c;
     tags := tags c; isfixed := isfixed c; isfloating := isfloating c;
     isurgent := isurgent c; neverfocus := neverfocus c;
     oldstate := oldstate c; isfullscreen := isfullscreen c;
     monitor := monitor c; window := window c |}.

Definition cset_old_geometry (v_oldx : Z) (v_oldy : Z) (v_oldw : Z) (v_oldh : Z) (c : Client) : Client :=
  {| name := name c; mina := mina c; maxa := maxa c; c_x := c_x c;
     c_y := c_y c; c_w := c_w c; c_h := c_h c; oldx := v_oldx;
     oldy := v_oldy; oldw := v_oldw; oldh := v_oldh; basew := basew c;
     baseh := baseh c; incw := incw c; inch := inch c; maxw := maxw c;
     maxh := maxh c; minw := minw c; minh := minh c;
     border_width := border_width c; old_border_width := old_border_width c;
     tags := tags c; isfixed := isfixed c; isfloating := isfloating c;
     isurgent := isurgent c; neverfocus := neverfocus c;
     oldstate := oldstate c; isfullscreen := isfullscreen c;
     monitor := monitor c; window := window c |}.

Definition cset_border_width (v_border_width : Z) (c : Client) : Client :=
  {| name := name c; mina := mina c; maxa := maxa c; c_x := c_x c;
     c_y := c_y c; c_w := c_w c; c_h := c_h c; oldx := oldx c;
     oldy := oldy c; oldw := oldw c; oldh := oldh c; basew := basew c;
     baseh := baseh c; incw := incw c; inch := inch c; maxw := maxw c;
     maxh := maxh c; minw := minw c; minh := minh c;
     border_width := v_border_width; old_border_width := old_border_width c;
     tags := tags c; isfixed := isfixed c; isfloating := isfloating c;
     isurgent := isurgent c; neverfocus := neverfocus c;
     oldstate := oldstate c; isfullscreen := isfullscreen c;
     monitor := monitor c; window := window c |}.

Definition cset_old_border_width (v_old_border_width : Z) (c : Client) : Client :=
  {| name := name c; mina := mina c; maxa := maxa c; c_x := c_x c;
     c_y := c_y c; c_w := c_w c; c_h := c_h c; oldx := oldx c;
     oldy := oldy c; oldw := oldw c; oldh := oldh c; basew := basew c;
     baseh := baseh c; incw := incw c; inch := inch c; maxw := maxw c;
     maxh := maxh c; minw := minw c; minh := minh c;
     border_width := border_width c; old_border_width := v_old_border_width;
     tags := tags c; isfixed := isfixed c; isfloating := isfloating c;
     isurgent := isurgent c; neverfocus := neverfocus c;
     oldstate := oldstate c; isfullscreen := isfullscreen c;
     monitor := monitor c; window := window c |}.

Definition cset_tags (v_tags : Z) (c : Client) : Client :=
  {| name := name c; mina := mina c; maxa := maxa c; c_x := c_x c;
     c_y := c_y c; c_w := c_w c; c_h := c_h c; oldx := oldx c;
     oldy := oldy c; oldw := oldw c; oldh := oldh c; basew := basew c;
     baseh := baseh c; incw := incw c; inch := inch c; maxw := maxw c;
     maxh := maxh c; minw := minw c; minh := minh c;
     border_width := border_width c; old_border_width := old_border_width c;
     tags := v_tags; isfixed := isfixed c; isfloating := isfloating c;
     isurgent := isurgent c; neverfocus := neverfocus c;
     oldstate := oldstate c; isfullscreen := isfullscreen c;
     monitor := monitor c; window := window c |}.

Definition cset_isfloating (v_isfloating : bool) (c : Client) : Client :=
  {| name := name c; mina := mina c; maxa := maxa c; c_x := c_x c;
     c_y := c_y c; c_w := c_w c; c_h := c_h c; oldx := oldx c;
     oldy := oldy c; oldw := oldw c; oldh := oldh c; basew := basew c;
     baseh := baseh c; incw := incw c; inch := inch c; maxw := maxw c;
     maxh := maxh c; minw := minw c; minh := minh c;
     border_width := border_width c; old_border_width := old_border_width c;
     tags := tags c; isfixed := isfixed c; isfloating := v_isfloating;
     isurgent := isurgent c; neverfocus := neverfocus c;
     oldstate := oldstate c; isfullscreen := isfullscreen c;
     monitor := monitor c; window := window c |}.

Definition cset_isurgent (v_isurgent : bool) (c : Client) : Client :=
  {| name := name c; mina := mina c; maxa := maxa c; c_x := c_x c;
     c_y := c_y c; c_w := c_w c; c_h := c_h c; oldx := oldx c;
     oldy := oldy c; oldw := oldw c; oldh := oldh c; basew := basew c;
     baseh := baseh c; incw := incw c; inch := inch c; maxw := maxw c;
     maxh := maxh c; minw := minw c; minh := minh c;
     border_width := border_width c; old_border_width := old_border_width c;
     tags := tags c; isfixed := isfixed c; isfloating := isfloating c;
     isurgent := v_isurgent; neverfocus := neverfocus c;
     oldstate := oldstate c; isfullscreen := isfullscreen c;
     monitor := monitor c; window := window c |}.

Definition cset_oldstate (v_oldstate : bool) (c : Client) : Client :=
  {| name := name c; mina := mina c; maxa := maxa c; c_x := c_x c;
     c_y := c_y c; c_w := c_w c; c_h := c_h c; oldx := oldx c;
     oldy := oldy c; oldw := oldw c; oldh := oldh c; basew := basew c;
     baseh := baseh c; incw := incw c; inch := inch c; maxw := maxw c;
     maxh := maxh c; minw := minw c; minh := minh c;
     border_width := border_width c; old_border_width := old_border_width c;
     tags := tags c; isfixed := isfixed c; isfloating := isfloating c;
     isurgent := isurgent c; neverfocus := neverfocus c;
     oldstate := v_oldstate; isfullscreen := isfullscreen c;
     monitor := monitor c; window := window c |}.

Definition cset_isfullscreen (v_isfullscreen : bool) (c : Client) : Client :=
  {| name := name c; mina := mina c; maxa := maxa c; c_x := c_x c;
     c_y := c_y c; c_w := c_w c; c_h := c_h c; oldx := oldx c;
     oldy := oldy c; oldw := oldw c; oldh := oldh c; basew := basew c;
     baseh := baseh c; incw := incw c; inch := inch c; maxw := maxw c;
     maxh := maxh c; minw := minw c; minh := minh c;
     border_width := border_width c; old_border_width := old_border_width c;
     tags := tags c; isfixed := isfixed c; isfloating := isfloating c;
     isurgent := isurgent c; neverfocus := neverfocus c;
     oldstate := oldstate c; isfullscreen := v_isfullscreen;
     monitor := monitor c; window := window c |}.

Definition cset_size_hints (v_basew : Z) (v_baseh : Z) (v_incw : Z) (v_inch : Z) (v_maxw : Z) (v_maxh : Z) (v_minw : Z) (v_minh : Z) (c : Client) : Client :=
  {| name := name c; mina := mina c; maxa := maxa c; c_x := c_x c;
     c_y := c_y c; c_w := c_w c; c_h := c_h c; oldx := oldx c;
     oldy := oldy c; oldw := oldw c; oldh := oldh c; basew := v_basew;
     baseh := v_baseh; incw := v_incw; inch := v_inch; maxw := v_maxw;
     maxh := v_maxh; minw := v_minw; minh := v_minh;
     border_width := border_width c; old_border_width := old_border_width c;
     tags := tags c; isfixed := isfixed c; isfloating := isfloating c;
     isurgent := isurgent c; neverfocus := neverfocus c;
     oldstate := oldstate c; isfullscreen := isfullscreen c;
     monitor := monitor c; window := window c |}.

Definition cset_monitor (v_monitor : Mid) (c : Client) : Client :=
  {| name := name c; mina := mina c; maxa := maxa c; c_x := c_x c;
     c_y := c_y c; c_w := c_w c; c_h := c_h c; oldx := oldx c;
     oldy := oldy c; oldw := oldw c; oldh := oldh c; basew := basew c;
     baseh := baseh c; incw := incw c; inch := inch c; maxw := maxw c;
     maxh := maxh c; minw := minw c; minh := minh c;
     border_width := border_width c; old_border_width := old_border_width c;
     tags := tags c; isfixed := isfixed c; isfloating := isfloating c;
     isurgent := isurgent c; neverfocus := neverfocus c;
     oldstate := oldstate c; isfullscreen := isfullscreen c;
     monitor := v_monitor; window := window c |}.

Definition mset_mfact (v_mfact : float) (m : Monitor) : Monitor :=
  {| layout_symbol := layout_symbol m; mfact := v_mfact;
     masters_count := masters_count m; num := num m; m_by := m_by m;
     mx := mx m; my := my m; mw := mw m; mh := mh m; wx := wx m; wy := wy m;
     ww := ww m; wh := wh m; gappx := gappx m;
     selected_tags_set := selected_tags_set m; tagset := tagset m;
     showbar := showbar m; topbar := topbar m; clients := clients m;
     selected_client := selected_client m; stack := stack m;
     bar_window := bar_window m;
     current_layout_index := current_layout_index m; layouts := layouts m |}.

Definition mset_masters_count (v_masters_count : Z) (m : Monitor) : Monitor :=
  {| layout_symbol := layout_symbol m; mfact := mfact m;
     masters_count := v_masters_count; num := num m; m_by := m_by m;
     mx := mx m; my := my m; mw := mw m; mh := mh m; wx := wx m; wy := wy m;
     ww := ww m; wh := wh m; gappx := gappx m;
     selected_tags_set := selected_tags_set m; tagset := tagset m;
     showbar := showbar m; topbar := topbar m; clients := clients m;
     selected_client := selected_client m; stack := stack m;
     bar_window := bar_window m;
     current_layout_index := current_layout_index m; layouts := layouts m |}.

Definition mset_selected_tags_set (v_selected_tags_set : Z) (m : Monitor) : Monitor :=
  {| layout_symbol := layout_symbol m; mfact := mfact m;
     masters_count := masters_count m; num := num m; m_by := m_by m;
     mx := mx m; my := my m; mw := mw m; mh := mh m; wx := wx m; wy := wy m;
     ww := ww m; wh := wh m; gappx := gappx m;
     selected_tags_set := v_selected_tags_set; tagset := tagset m;
     showbar := showbar m; topbar := topbar m; clients := clients m;
     selected_client := selected_client m; stack := stack m;
     bar_window := bar_window m;
     current_layout_index := current_layout_index m; layouts := layouts m |}.

Definition mset_tagset (v_tagset : list Z) (m : Monitor) : Monitor :=
  {| layout_symbol := layout_symbol m; mfact := mfact m;
     masters_count := masters_count m; num := num m; m_by := m_by m;
     mx := mx m; my := my m; mw := mw m; mh := mh m; wx := wx m; wy := wy m;
     ww := ww m; wh := wh m; gappx := gappx m;
     selected_tags_set := selected_tags_set m; tagset := v_tagset;
     showbar := showbar m; topbar := topbar m; clients := clients m;
     selected_client := selected_client m; stack := stack m;
     bar_window := bar_window m;
     current_layout_index := current_layout_index m; layouts := layouts m |}.

Definition mset_clients (v_clients : list Cid) (m : Monitor) : Monitor :=
  {| layout_symbol := layout_symbol m; mfact := mfact m;
     masters_count := masters_count m; num := num m; m_by := m_by m;
     mx := mx m; my := my m; mw := mw m; mh := mh m; wx := wx m; wy := wy m;
     ww := ww m; wh := wh m; gappx := gappx m;
     selected_tags_set := selected_tags_set m; tagset := tagset m;
     showbar := showbar m; topbar := topbar m; clients := v_clients;
     selected_client := selected_client m; stack := stack m;
     bar_window := bar_window m;
     current_layout_index := current_layout_index m; layouts := layouts m |}.

Definition mset_selected_client (v_selected_client : option Cid) (m : Monitor) : Monitor :=
  {| layout_symbol := layout_symbol m; mfact := mfact m;
     masters_count := masters_count m; num := num m; m_by := m_by m;
     mx := mx m; my := my m; mw := mw m; mh := mh m; wx := wx m; wy := wy m;
     ww := ww m; wh := wh m; gappx := gappx m;
     selected_tags_set := selected_tags_set m; tagset := tagset m;
     showbar := showbar m; topbar := topbar m; clients := clients m;
     selected_client := v_selected_client; stack := stack m;
     bar_window := bar_window m;
     current_layout_index := current_layout_index m; layouts := layouts m |}.

Definition mset_stack (v_stack : list Cid) (m : Monitor) : Monitor :=
  {| layout_symbol := layout_symbol m; mfact := mfact m;
     masters_count := masters_count m; num := num m; m_by := m_by m;
     mx := mx m; my := my m; mw := mw m; mh := mh m; wx := wx m; wy := wy m;
     ww := ww m; wh := wh m; gappx := gappx m;
     selected_tags_set := selected_tags_set m; tagset := tagset m;
     showbar := showbar m; topbar := topbar m; clients := clients m;
     selected_client := selected_client m; stack := v_stack;
     bar_window := bar_window m;
     current_layout_index := current_layout_index m; layouts := layouts m |}.

Definition mset_current_layout_index (v_current_layout_index : Z) (m : Monitor) : Monitor :=
  {| layout_symbol := layout_symbol m; mfact := mfact m;
     masters_count := masters_count m; num := num m; m_by := m_by m;
     mx := mx m; my := my m; mw := mw m; mh := mh m; wx := wx m; wy := wy m;
     ww := ww m; wh := wh m; gappx := gappx m;
     selected_tags_set := selected_tags_set m; tagset := tagset m;
     showbar := showbar m; topbar := topbar m; clients := clients m;
     selected_client := selected_client m; stack := stack m;
     bar_window := bar_window m;
     current_layout_index := v_current_layout_index; layouts := layouts m |}.

Definition mset_layout_symbol (v_layout_symbol : string) (m : Monitor) : Monitor :=
  {| layout_symbol := v_layout_symbol; mfact := mfact m;
     masters_count := masters_count m; num := num m; m_by := m_by m;
     mx := mx m; my := my m; mw := mw m; mh := mh m; wx := wx m; wy := wy m;
     ww := ww m; wh := wh m; gappx := gappx m;
     selected_tags_set := selected_tags_set m; tagset := tagset m;
     showbar := showbar m; topbar := topbar m; clients := clients m;
     selected_client := selected_client m; stack := stack m;
     bar_window := bar_window m;
     current_layout_index := current_layout_index m; layouts := layouts m |}.

Definition mset_layouts (v_layouts : list Layout) (m : Monitor) : Monitor :=
  {| layout_symbol := layout_symbol m; mfact := mfact m;
     masters_count := masters_count m; num := num m; m_by := m_by m;
     mx := mx m; my := my m; mw := mw m; mh := mh m; wx := wx m; wy := wy m;
     ww := ww m; wh := wh m; gappx := gappx m;
     selected_tags_set := selected_tags_set m; tagset := tagset m;
     showbar := showbar m; topbar := topbar m; clients := clients m;
     selected_client := selected_client m; stack := stack m;
     bar_window := bar_window m;
     current_layout_index := current_layout_index m; layouts := v_layouts |}.

Definition mset_num (v_num : Z) (m : Monitor) : Monitor :=
  {| layout_symbol := layout_symbol m; mfact := mfact m;
     masters_count := masters_count m; num := v_num; m_by := m_by m;
     mx := mx m; my := my m; mw := mw m; mh := mh m; wx := wx m; wy := wy m;
     ww := ww m; wh := wh m; gappx := gappx m;
     selected_tags_set := selected_tags_set m; tagset := tagset m;
     showbar := showbar m; topbar := topbar m; clients := clients m;
     selected_client := selected_client m; stack := stack m;
     bar_window := bar_window m;
     current_layout_index := current_layout_index m; layouts := layouts m |}.

Definition mset_screen_area (v_mx : Z) (v_my : Z) (v_mw : Z) (v_mh : Z) (m : Monitor) : Monitor :=
  {| layout_symbol := layout_symbol m; mfact := mfact m;
     masters_count := masters_count m; num := num m; m_by := m_by m;
     mx := v_mx; my := v_my; mw := v_mw; mh := v_mh; wx := wx m; wy := wy m;
     ww := ww m; wh := wh m; gappx := gappx m;
     selected_tags_set := selected_tags_set m; tagset := tagset m;
     showbar := showbar m; topbar := topbar m; clients := clients m;
     selected_client := selected_client m; stack := stack m;
     bar_window := bar_window m;
     current_layout_index := current_layout_index m; layouts := layouts m |}.

Definition mset_window_area (v_wx : Z) (v_wy : Z) (v_ww : Z) (v_wh : Z) (m : Monitor) : Monitor :=
  {| layout_symbol := layout_symbol m; mfact := mfact m;
     masters_count := masters_count m; num := num m; m_by := m_by m;
     mx := mx m; my := my m; mw := mw m; mh := mh m; wx := v_wx; wy := v_wy;
     ww := v_ww; wh := v_wh; gappx := gappx m;
     selected_tags_set := selected_tags_set m; tagset := tagset m;
     showbar := showbar m; topbar := topbar m; clients := clients m;
     selected_client := selected_client m; stack := stack m;
     bar_window := bar_window m;
     current_layout_index := current_layout_index m; layouts := layouts m |}.

Definition mset_m_by (v_m_by : Z) (m : Monitor) : Monitor :=
  {| layout_symbol := layout_symbol m; mfact := mfact m;
     masters_count := masters_count m; num := num m; m_by := v_m_by;
     mx := mx m; my := my m; mw := mw m; mh := mh m; wx := wx m; wy := wy m;
     ww := ww m; wh := wh m; gappx := gappx m;
     selected_tags_set := selected_tags_set m; tagset := tagset m;
     showbar := showbar m; topbar := topbar m; clients := clients m;
     selected_client := selected_client m; stack := stack m;
     bar_window := bar_window m;
     current_layout_index := current_layout_index m; layouts := layouts m |}.

(** A zero-filled [Client] and [Monitor], as [ecalloc] returns them. *)
Definition zero_client : Client :=
  {| name := ""; mina := S754_zero false; maxa := S754_zero false;
     c_x := 0; c_y := 0; c_w := 0; c_h := 0;
     oldx := 0; oldy := 0; oldw := 0; oldh := 0;
     basew := 0; baseh := 0; incw := 0; inch := 0;
     maxw := 0; maxh := 0; minw := 0; minh := 0;
     border_width := 0; old_border_width := 0; tags := 0;
     isfixed := false; isfloating := false; isurgent := false;
     neverfocus := false; oldstate := false; isfullscreen := false;
     monitor := 0%nat; window := 0 |}.

Definition zero_monitor : Monitor :=
  {| layout_symbol := ""; mfact := S754_zero false; masters_count := 0;
     num := 0; m_by := 0; mx := 0; my := 0; mw := 0; mh := 0;
     wx := 0; wy := 0; ww := 0; wh := 0; gappx := 0;
     selected_tags_set := 0; tagset := [0; 0];
     showbar := false; topbar := false;
     clients := []; selected_client := None; stack := [];
     bar_window := 0; current_layout_index := 0; layouts := [] |}.

#[global] Instance Client_inhabited : Inhabited Client := populate zero_client.
#[global] Instance Monitor_inhabited : Inhabited Monitor := populate zero_monitor.
#[global] Instance Layout_inhabited : Inhabited Layout :=
  populate {| lt_symbol := ""; lt_arrange := None |}.

Definition the_mon (st : WM) (m : Mid) : Monitor := mon st !!! m.
Definition the_client (st : WM) (c : Cid) : Client := cl st !!! c.

Definition set_mon_store (ms : gmap Mid Monitor) (st : WM) : WM :=
  {| sw := sw st; sh := sh st; bh := bh st; monitors := monitors st;
     selected_monitor := selected_monitor st; mon := ms; cl := cl st;
     next_mon := next_mon st |}.

Definition set_client_store (cs : gmap Cid Client) (st : WM) : WM :=
  {| sw := sw st; sh := sh st; bh := bh st; monitors := monitors st;
     selected_monitor := selected_monitor st; mon := mon st; cl := cs;
     next_mon := next_mon st |}.

Definition set_selected_monitor (m : Mid) (st : WM) : WM :=
  {| sw := sw st; sh := sh st; bh := bh st; monitors := monitors st;
     selected_monitor := m; mon := mon st; cl := cl st;
     next_mon := next_mon st |}.

Definition set_monitors (l : list Mid) (st : WM) : WM :=
  {| sw := sw st; sh := sh st; bh := bh st; monitors := l;
     selected_monitor := selected_monitor st; mon := mon st; cl := cl st;
     next_mon := next_mon st |}.

Definition set_screen_size (w h : Z) (st : WM) : WM :=
  {| sw := w; sh := h; bh := bh st; monitors := monitors st;
     selected_monitor := selected_monitor st; mon := mon st; cl := cl st;
     next_mon := next_mon st |}.

(** [p->field = ...] on a monitor, resp. a client.  A store through a
    handle that is not allocated (a dangling pointer) is dropped; a
    load through it reads the zero-filled record. *)
Definition upd_mon (m : Mid) (f : Monitor -> Monitor) (st : WM) : WM :=
  set_mon_store (alter f m (mon st)) st.

Definition upd_client (c : Cid) (f : Client -> Client) (st : WM) : WM :=
  set_client_store (alter f c (cl st)) st.

(** *** More field updates *)

Definition cset_name (v_name : string) (c : Client) : Client :=
  {| name := v_name; mina := mina c; maxa := maxa c; c_x := c_x c;
     c_y := c_y c; c_w := c_w c; c_h := c_h c; oldx := oldx c;
     oldy := oldy c; oldw := oldw c; oldh := oldh c; basew := basew c;
     baseh := baseh c; incw := incw c; inch := inch c; maxw := maxw c;
     maxh := maxh c; minw := minw c; minh := minh c;
     border_width := border_width c; old_border_width := old_border_width c;
     tags := tags c; isfixed := isfixed c; isfloating := isfloating c;
     isurgent := isurgent c; neverfocus := neverfocus c;
     oldstate := oldstate c; isfullscreen := isfullscreen c;
     monitor := monitor c; window := window c |}.

Definition cset_aspect (v_mina : float) (v_maxa : float) (c : Client) : Client :=
  {| name := name c; mina := v_mina; maxa := v_maxa; c_x := c_x c;
     c_y := c_y c; c_w := c_w c; c_h := c_h c; oldx := oldx c;
     oldy := oldy c; oldw := oldw c; oldh := oldh c; basew := basew c;
     baseh := baseh c; incw := incw c; inch := inch c; maxw := maxw c;
     maxh := maxh c; minw := minw c; minh := minh c;
     border_width := border_width c; old_border_width := old_border_width c;
     tags := tags c; isfixed := isfixed c; isfloating := isfloating c;
     isurgent := isurgent c; neverfocus := neverfocus c;
     oldstate := oldstate c; isfullscreen := isfullscreen c;
     monitor := monitor c; window := window c |}.

Definition cset_isfixed (v_isfixed : bool) (c : Client) : Client :=
  {| name := name c; mina := mina c; maxa := maxa c; c_x := c_x c;
     c_y := c_y c; c_w := c_w c; c_h := c_h c; oldx := oldx c;
     oldy := oldy c; oldw := oldw c; oldh := oldh c; basew := basew c;
     baseh := baseh c; incw := incw c; inch := inch c; maxw := maxw c;
     maxh := maxh c; minw := minw c; minh := minh c;
     border_width := border_width c; old_border_width := old_border_width c;
     tags := tags c; isfixed := v_isfixed; isfloating := isfloating c;
     isurgent := isurgent c; neverfocus := neverfocus c;
     oldstate := oldstate c; isfullscreen := isfullscreen c;
     monitor := monitor c; window := window c |}.

Definition cset_neverfocus (v_neverfocus : bool) (c : Client) : Client :=
  {| name := name c; mina := mina c; maxa := maxa c; c_x := c_x c;
     c_y := c_y c; c_w := c_w c; c_h := c_h c; oldx := oldx c;
     oldy := oldy c; oldw := oldw c; oldh := oldh c; basew := basew c;
     baseh := baseh c; incw := incw c; inch := inch c; maxw := maxw c;
     maxh := maxh c; minw := minw c; minh := minh c;
     border_width := border_width c; old_border_width := old_border_width c;
     tags := tags c; isfixed := isfixed c; isfloating := isfloating c;
     isurgent := isurgent c; neverfocus := v_neverfocus;
     oldstate := oldstate c; isfullscreen := isfullscreen c;
     monitor := monitor c; window := window c |}.

Definition cset_window (v_window : Z) (c : Client) : Client :=
  {| name := name c; mina := mina c; maxa := maxa c; c_x := c_x c;
     c_y := c_y c; c_w := c_w c; c_h := c_h c; oldx := oldx c;
     oldy := oldy c; oldw := oldw c; oldh := oldh c; basew := basew c;
     baseh := baseh c; incw := incw c; inch := inch c; maxw := maxw c;
     maxh := maxh c; minw := minw c; minh := minh c;
     border_width := border_width c; old_border_width := old_border_width c;
     tags := tags c; isfixed := isfixed c; isfloating := isfloating c;
     isurgent := isurgent c; neverfocus := neverfocus c;
     oldstate := oldstate c; isfullscreen := isfullscreen c;
     monitor := monitor c; window := v_window |}.

Definition mset_gappx (v_gappx : Z) (m : Monitor) : Monitor :=
  {| layout_symbol := layout_symbol m; mfact := mfact m;
     masters_count := masters_count m; num := num m; m_by := m_by m;
     mx := mx m; my := my m; mw := mw m; mh := mh m; wx := wx m; wy := wy m;
     ww := ww m; wh := wh m; gappx := v_gappx;
     selected_tags_set := selected_tags_set m; tagset := tagset m;
     showbar := showbar m; topbar := topbar m; clients := clients m;
     selected_client := selected_client m; stack := stack m;
     bar_window := bar_window m;
     current_layout_index := current_layout_index m; layouts := layouts m |}.

Definition mset_showbar (v_showbar : bool) (m : Monitor) : Monitor :=
  {| layout_symbol := layout_symbol m; mfact := mfact m;
     masters_count := masters_count m; num := num m; m_by := m_by m;
     mx := mx m; my := my m; mw := mw m; mh := mh m; wx := wx m; wy := wy m;
     ww := ww m; wh := wh m; gappx := gappx m;
     selected_tags_set := selected_tags_set m; tagset := tagset m;
     showbar := v_showbar; topbar := topbar m; clients := clients m;
     selected_client := selected_client m; stack := stack m;
     bar_window := bar_window m;
     current_layout_index := current_layout_index m; layouts := layouts m |}.
(** ** The functions of [dwm.c] *)

Section Dwm.

Variable cfg : Config.

(** [TAGMASK] is [(1 << LENGTH(tags)) - 1]; the compile-time check
    [struct NumTags] bounds [LENGTH(tags)] by 31. *)
Definition TAGMASK : Z := Z.shiftl 1 (ntags cfg) - 1.

(** [(1 << index) & TAGMASK].  The shift is defined by C for
    [index < 32] only (the model yields 0 beyond). *)
Definition tag_bit (index : Z) : Z := Z.land (Z.shiftl 1 index) TAGMASK.

(** *** Tags and layouts of a monitor *)

(** [selected_tags_set] is 0 or 1 in every run of the program; a
    read past the two slots gives 0 in the model. *)
Definition current_tags (st : WM) (m : Mid) : Z :=
  default 0 (tagset (the_mon st m)
               !! Z.to_nat (selected_tags_set (the_mon st m))).

Definition set_tags (m : Mid) (tag : Z) (st : WM) : WM :=
  upd_mon m (fun M =>
    mset_tagset (<[Z.to_nat (selected_tags_set M) := tag]> (tagset M)) M) st.

Definition swap_selected_tags (m : Mid) (st : WM) : WM :=
  upd_mon m (fun M =>
    mset_selected_tags_set (Z.lxor (selected_tags_set M) 1) M) st.

(** [monitor->layouts[monitor->current_layout_index]]; an index past
    the array is an out-of-bounds read in C, the model reads the null
    layout there. *)
Definition current_layout (st : WM) (m : Mid) : Layout :=
  layouts (the_mon st m) !!! Z.to_nat (current_layout_index (the_mon st m)).

Definition set_layout_index (m : Mid) (index : Z) (st : WM) : WM :=
  upd_mon m (mset_current_layout_index index) st.

(** [strncpy] into the 8-byte buffer. *)
Definition copy_layout_symbol (m : Mid) (st : WM) : WM :=
  upd_mon m
    (mset_layout_symbol (String.substring 0 8 (lt_symbol (current_layout st m))))
    st.

Definition has_arrange (st : WM) (m : Mid) : bool :=
  match lt_arrange (current_layout st m) with Some _ => true | None => false end.

(** [ISVISIBLE(C)], [WIDTH(X)], [HEIGHT(X)]. *)
Definition ISVISIBLE (st : WM) (c : Cid) : bool :=
  negb (Z.land (tags (the_client st c))
               (current_tags st (monitor (the_client st c))) =? 0).

Definition WIDTH (C : Client) : Z := int (c_w C + int (2 * border_width C)).
Definition HEIGHT (C : Client) : Z := int (c_h C + int (2 * border_width C)).

(** *** The client chains *)

(** [nexttiled] skips floating and hidden clients; a position in a
    chain is the remaining suffix of the list. *)
Definition is_tiled (st : WM) (c : Cid) : bool :=
  negb (isfloating (the_client st c)) && ISVISIBLE st c.

Fixpoint nexttiled (st : WM) (l : list Cid) : list Cid :=
  match l with
  | [] => []
  | c :: r => if is_tiled st c then l else nexttiled st r
  end.

(** The loop of [count_tiled_clients], with the [nexttiled] skips
    folded into the walk. *)
Fixpoint count_tiled (st : WM) (l : list Cid) : Z :=
  match l with
  | [] => 0
  | c :: r => if is_tiled st c then uint (count_tiled st r + 1)
              else count_tiled st r
  end.

Definition count_tiled_clients (st : WM) (m : Mid) : Z :=
  count_tiled st (clients (the_mon st m)).

Fixpoint find_first_visible_client_in_stack (st : WM) (l : list Cid)
  : option Cid :=
  match l with
  | [] => None
  | c :: r => if ISVISIBLE st c then Some c
              else find_first_visible_client_in_stack st r
  end.

(** Unlinking walks to the first node equal to [c] and drops it.  On
    a chain that does not hold [c] the list is left as it is (the C
    code would store [c]'s stale successor into the last link; the
    callers only detach clients that are on the chain). *)
Fixpoint unlink (c : Cid) (l : list Cid) : list Cid :=
  match l with
  | [] => []
  | d :: r => if decide (d = c) then r else d :: unlink c r
  end.

Definition attach (c : Cid) (st : WM) : WM :=
  upd_mon (monitor (the_client st c))
          (fun M => mset_clients (c :: clients M) M) st.

Definition attachstack (c : Cid) (st : WM) : WM :=
  upd_mon (monitor (the_client st c))
          (fun M => mset_stack (c :: stack M) M) st.

Definition detach_client (c : Cid) (st : WM) : WM :=
  upd_mon (monitor (the_client st c))
          (fun M => mset_clients (unlink c (clients M)) M) st.

Definition detachstack (c : Cid) (st : WM) : WM :=
  let m := monitor (the_client st c) in
  let st1 := upd_mon m (fun M => mset_stack (unlink c (stack M)) M) st in
  if decide (selected_client (the_mon st1 m) = Some c)
  then upd_mon m
         (mset_selected_client
            (find_first_visible_client_in_stack st1 (stack (the_mon st1 m))))
         st1
  else st1.

(** *** Geometry *)

Definition resizeclient (c : Cid) (x y w h : Z) (st : WM) : WM :=
  upd_client c (fun C =>
    cset_geometry x y w h (cset_old_geometry (c_x C) (c_y C) (c_w C) (c_h C) C))
    st.

(** The position part of [applysizehints]. *)
Definition clamp_position (st : WM) (c : Cid) (x y w h : Z) (interact : bool)
  : Z * Z :=
  let C := the_client st c in
  let M := the_mon st (monitor C) in
  let bw2 := int (2 * border_width C) in
  if interact then
    let x := if sw st <? x then int (sw st - WIDTH C) else x in
    let y := if sh st <? y then int (sh st - HEIGHT C) else y in
    let x := if int (int (x + w) + bw2) <? 0 then 0 else x in
    let y := if int (int (y + h) + bw2) <? 0 then 0 else y in
    (x, y)
  else
    let x := if int (wx M + ww M) <=? x
             then int (int (wx M + ww M) - WIDTH C) else x in
    let y := if int (wy M + wh M) <=? y
             then int (int (wy M + wh M) - HEIGHT C) else y in
    let x := if int (int (x + w) + bw2) <=? wx M then wx M else x in
    let y := if int (int (y + h) + bw2) <=? wy M then wy M else y in
    (x, y).

(** The aspect-ratio step: [c->maxa < (float)*w / *h] and so on. *)
Definition adjust_aspect (C : Client) (w h : Z) : Z * Z :=
  if flt (float_of_int 0) (mina C) && flt (float_of_int 0) (maxa C) then
    if flt (maxa C) (fdiv (float_of_int w) (float_of_int h)) then
      (int_of_float
         (dadd (double_of_float (fmul (float_of_int h) (maxa C))) d_0_5), h)
    else if flt (mina C) (fdiv (float_of_int h) (float_of_int w)) then
      (w, int_of_float
            (dadd (double_of_float (fmul (float_of_int w) (mina C))) d_0_5))
    else (w, h)
  else (w, h).

(** The block guarded by
    [resizehints || c->isfloating || !current_layout(c->monitor)->arrange]. *)
Definition hints_apply (st : WM) (c : Cid) : bool :=
  resizehints cfg || isfloating (the_client st c)
  || negb (has_arrange st (monitor (the_client st c))).

Definition apply_hints (C : Client) (w h : Z) : Z * Z :=
  let baseismin := (basew C =? minw C) && (baseh C =? minh C) in
  let '(w, h) := if baseismin then (w, h)
                 else (int (w - basew C), int (h - baseh C)) in
  let '(w, h) := adjust_aspect C w h in
  let '(w, h) := if baseismin then (int (w - basew C), int (h - baseh C))
                 else (w, h) in
  let w := if incw C =? 0 then w else int (w - Z.rem w (incw C)) in
  let h := if inch C =? 0 then h else int (h - Z.rem h (inch C)) in
  let w := MAX (int (w + basew C)) (minw C) in
  let h := MAX (int (h + baseh C)) (minh C) in
  let w := if maxw C =? 0 then w else MIN w (maxw C) in
  let h := if maxh C =? 0 then h else MIN h (maxh C) in
  (w, h).

(** [applysizehints]: the adjusted rectangle and the returned flag. *)
Definition applysizehints (st : WM) (c : Cid) (x y w h : Z) (interact : bool)
  : (Z * Z * Z * Z) * bool :=
  let C := the_client st c in
  let w := MAX 1 w in
  let h := MAX 1 h in
  let '(x, y) := clamp_position st c x y w h interact in
  let h := if h <? bh st then bh st else h in
  let w := if w <? bh st then bh st else w in
  let '(w, h) := if hints_apply st c then apply_hints C w h else (w, h) in
  ((x, y, w, h),
   negb (x =? c_x C) || negb (y =? c_y C)
   || negb (w =? c_w C) || negb (h =? c_h C)).

Definition resize (c : Cid) (x y w h : Z) (interact : bool) (st : WM) : WM :=
  let '((x, y, w, h), changed) := applysizehints st c x y w h interact in
  if changed then resizeclient c x y w h st else st.

(** *** Showing, hiding and laying out *)

(** [showhide] recurses down the focus stack.  Moving a window on or
    off the screen is a request to the server; what remains is the
    [resize] of visible clients that are floating or on a monitor
    without an arrange function. *)
Fixpoint showhide (l : list Cid) (st : WM) : WM :=
  match l with
  | [] => st
  | c :: r =>
      let C := the_client st c in
      if ISVISIBLE st c then
        showhide r
          (if (negb (has_arrange st (monitor C)) || isfloating C)
              && negb (isfullscreen C)
           then resize c (c_x C) (c_y C) (c_w C) (c_h C) false st
           else st)
      else showhide r st
  end.

(** The loop of [tile] over [nexttiled]; [client_index], [my] and
    [ty] are the [unsigned int] locals. *)
Fixpoint tile_loop (m : Mid) (n mw_ : Z) (l : list Cid)
         (client_index my_ ty : Z) (st : WM) : WM :=
  match l with
  | [] => st
  | c :: r =>
      if is_tiled st c then
        let M := the_mon st m in
        let bw2 := int (2 * border_width (the_client st c)) in
        if client_index <? masters_count M then
          let h := uint (uint (wh M - my_)
                           / uint (MIN n (masters_count M) - client_index)
                         - gappx M) in
          let st1 := resize c (int (wx M + gappx M)) (int (wy M + my_))
                            (int (mw_ - bw2 - gappx M)) (int (h - bw2))
                            false st in
          tile_loop m n mw_ r (uint (client_index + 1))
                    (uint (my_ + int (HEIGHT (the_client st1 c) + gappx M)))
                    ty st1
        else
          let h := uint (uint (wh M - ty) / uint (n - client_index)
                         - gappx M) in
          let st1 := resize c (int (wx M + mw_ + gappx M)) (int (wy M + ty))
                            (int (ww M - mw_ - bw2 - 2 * gappx M))
                            (int (h - bw2)) false st in
          tile_loop m n mw_ r (uint (client_index + 1)) my_
                    (uint (ty + int (HEIGHT (the_client st1 c) + gappx M)))
                    st1
      else tile_loop m n mw_ r client_index my_ ty st
  end.

Definition tile (m : Mid) (st : WM) : WM :=
  let M := the_mon st m in
  let n := count_tiled_clients st m in
  if n =? 0 then st
  else
    let mw_ :=
      if masters_count M <? n then
        if masters_count M =? 0 then 0
        else uint_of_float (fmul (float_of_int (ww M)) (mfact M))
      else uint (ww M - gappx M) in
    tile_loop m n mw_ (clients M) 0 (uint (gappx M)) (uint (gappx M)) st.

Fixpoint monocle_loop (m : Mid) (l : list Cid) (st : WM) : WM :=
  match l with
  | [] => st
  | c :: r =>
      if is_tiled st c then
        let M := the_mon st m in
        let bw2 := int (2 * border_width (the_client st c)) in
        monocle_loop m r
          (resize c (wx M) (wy M) (int (ww M - bw2)) (int (wh M - bw2))
                  false st)
      else monocle_loop m r st
  end.

Definition monocle (m : Mid) (st : WM) : WM :=
  monocle_loop m (clients (the_mon st m)) st.

Definition arrangemon (m : Mid) (st : WM) : WM :=
  let st := copy_layout_symbol m st in
  match lt_arrange (current_layout st m) with
  | Some Tile => tile m st
  | Some Monocle => monocle m st
  | None => st
  end.

(** [arrange(monitor)]; [None] is the null argument.  [restack] only
    talks to the server. *)
Definition arrange (m : option Mid) (st : WM) : WM :=
  match m with
  | Some m => arrangemon m (showhide (stack (the_mon st m)) st)
  | None =>
      fold_left
        (fun st m => arrangemon m (showhide (stack (the_mon st m)) st))
        (monitors st) st
  end.

(** *** Focus *)

Definition seturgent (c : Cid) (urg : bool) (st : WM) : WM :=
  upd_client c (cset_isurgent urg) st.

(** [focus(c)]; [unfocus], [grabbuttons] and [setfocus] only talk to
    the server. *)
Definition focus (c : option Cid) (st : WM) : WM :=
  let first :=
    find_first_visible_client_in_stack st
      (stack (the_mon st (selected_monitor st))) in
  let c := match c with
           | Some c' => if ISVISIBLE st c' then Some c' else first
           | None => first
           end in
  let st :=
    match c with
    | Some c' =>
        let st :=
          if decide (monitor (the_client st c') = selected_monitor st)
          then st
          else set_selected_monitor (monitor (the_client st c')) st in
        let st := if isurgent (the_client st c')
                  then seturgent c' false st else st in
        attachstack c' (detachstack c' st)
    | None => st
    end in
  upd_mon (selected_monitor st) (mset_selected_client c) st.

(** *** The monitor chain *)

(** [m->next] for a monitor on the chain [l]. *)
Fixpoint next_of (l : list Mid) (m : Mid) : option Mid :=
  match l with
  | [] => None
  | d :: r => if decide (d = m) then head r else next_of r m
  end.

(** [find_previous_monitor]: the first monitor whose [next] is
    [current_monitor]; with the null argument, the last monitor. *)
Fixpoint find_previous_monitor_in (l : list Mid) (current_monitor : option Mid)
  : option Mid :=
  match l with
  | [] => None
  | m :: r => if decide (head r = current_monitor) then Some m
              else find_previous_monitor_in r current_monitor
  end.

Definition find_previous_monitor (st : WM) (current_monitor : option Mid)
  : option Mid :=
  find_previous_monitor_in (monitors st) current_monitor.

Definition dirtomon (st : WM) (dir : Z) : option Mid :=
  if 0 <? dir then
    match next_of (monitors st) (selected_monitor st) with
    | Some m => Some m
    | None => head (monitors st)
    end
  else if decide (head (monitors st) = Some (selected_monitor st)) then
    find_previous_monitor st None
  else find_previous_monitor st (Some (selected_monitor st)).

(** [!monitors->next]: there is no second monitor. *)
Definition single_monitor (st : WM) : bool :=
  match monitors st with
  | _ :: _ :: _ => false
  | _ => true
  end.

(** A null monitor returned by [dirtomon] would be dereferenced by the
    callers; the model leaves the state alone in that case. *)
Definition focusmon (dir : Z) (st : WM) : WM :=
  if single_monitor st then st
  else
    match dirtomon st dir with
    | Some m =>
        if decide (m = selected_monitor st) then st
        else focus None (set_selected_monitor m st)
    | None => st
    end.

Definition sendmon (c : Cid) (m : Mid) (st : WM) : WM :=
  if decide (monitor (the_client st c) = m) then st
  else
    let st := detachstack c (detach_client c st) in
    let st := upd_client c (cset_monitor m) st in
    let st := upd_client c (cset_tags (current_tags st m)) st in
    let st := attachstack c (attach c st) in
    arrange None (focus None st).

Definition tagmon (dir : Z) (st : WM) : WM :=
  match selected_client (the_mon st (selected_monitor st)) with
  | None => st
  | Some c =>
      if single_monitor st then st
      else match dirtomon st dir with
           | Some m => sendmon c m st
           | None => st
           end
  end.

(** *** Commands on tags *)

Definition view (index : Z) (st : WM) : WM :=
  let sel := selected_monitor st in
  let requested_tag := tag_bit index in
  if requested_tag =? current_tags st sel then st
  else
    let st := swap_selected_tags sel st in
    let st := if requested_tag =? 0 then st
              else set_tags sel requested_tag st in
    let st := set_layout_index sel index st in
    let st := focus None st in
    arrange (Some (selected_monitor st)) st.

Definition toggleview (index : Z) (st : WM) : WM :=
  let sel := selected_monitor st in
  let updated_tags := Z.lxor (current_tags st sel) (tag_bit index) in
  if updated_tags =? 0 then st
  else
    let st := focus None (set_tags sel updated_tags st) in
    arrange (Some (selected_monitor st)) st.

Definition tag (index : Z) (st : WM) : WM :=
  let sel := selected_monitor st in
  let tags_to_move_to := tag_bit index in
  match selected_client (the_mon st sel) with
  | Some c =>
      if tags_to_move_to =? 0 then st
      else
        let st := focus None (upd_client c (cset_tags tags_to_move_to) st) in
        arrange (Some (selected_monitor st)) st
  | None => st
  end.

Definition toggletag (index : Z) (st : WM) : WM :=
  let sel := selected_monitor st in
  match selected_client (the_mon st sel) with
  | None => st
  | Some c =>
      let updated_tags := Z.lxor (tags (the_client st c)) (tag_bit index) in
      if updated_tags =? 0 then st
      else
        let st := focus None (upd_client c (cset_tags updated_tags) st) in
        arrange (Some (selected_monitor st)) st
  end.

(** *** Commands on the master area *)

(** [setmfact]; the argument pointer is not null.  The conditional
    expression has type [double], its value initialises a [float]. *)
Definition setmfact_candidate (arg_f : float) (M : Monitor) : float :=
  float_of_double
    (if SFltb (double_of_float arg_f) d_1_0
     then double_of_float (fadd arg_f (mfact M))
     else dsub (double_of_float arg_f) d_1_0).

Definition setmfact (arg_f : float) (st : WM) : WM :=
  let sel := selected_monitor st in
  if negb (has_arrange st sel) then st
  else
    let f := setmfact_candidate arg_f (the_mon st sel) in
    if SFltb (double_of_float f) d_0_05 || SFltb d_0_95 (double_of_float f)
    then st
    else arrange (Some sel) (upd_mon sel (mset_mfact f) st).

(** [masters_count + arg->i] is computed in [unsigned int], and so is
    the comparison with 1. *)
Definition change_masters_count (arg_i : Z) (st : WM) : WM :=
  let sel := selected_monitor st in
  arrange (Some sel)
    (upd_mon sel
       (fun M => mset_masters_count (MAX (uint (masters_count M + arg_i)) 1) M)
       st).

(** *** Fullscreen *)

Definition setfullscreen (c : Cid) (fullscreen : bool) (st : WM) : WM :=
  let C := the_client st c in
  if fullscreen && negb (isfullscreen C) then
    let st :=
      upd_client c (fun C =>
        cset_isfloating true
          (cset_border_width 0
             (cset_old_border_width (border_width C)
                (cset_oldstate (isfloating C)
                   (cset_isfullscreen true C))))) st in
    let M := the_mon st (monitor (the_client st c)) in
    resizeclient c (mx M) (my M) (mw M) (mh M) st
  else if negb fullscreen && isfullscreen C then
    let st :=
      upd_client c (fun C =>
        cset_geometry (oldx C) (oldy C) (oldw C) (oldh C)
          (cset_border_width (old_border_width C)
             (cset_isfloating (oldstate C)
                (cset_isfullscreen false C)))) st in
    let C := the_client st c in
    let st := resizeclient c (c_x C) (c_y C) (c_w C) (c_h C) st in
    arrange (Some (monitor (the_client st c))) st
  else st.

(** *** Rules *)

(** [strstr(haystack, needle) != NULL]. *)
Fixpoint strstr (haystack needle : string) : bool :=
  String.prefix needle haystack
  || match haystack with
     | EmptyString => false
     | String _ rest => strstr rest needle
     end.

Definition broken : string := "broken".

Definition rule_matches (r : Rule) (title class instance : string) : bool :=
  (match r_title r with None => true | Some t => strstr title t end)
  && (match r_class r with None => true | Some s => strstr class s end)
  && (match r_instance r with None => true | Some s => strstr instance s end).

(** The walk [while (m && m->num != rule->monitor)]. *)
Fixpoint monitor_with_num (st : WM) (l : list Mid) (n : Z) : option Mid :=
  match l with
  | [] => None
  | m :: r => if num (the_mon st m) =? n then Some m
              else monitor_with_num st r n
  end.

Definition apply_rule (class instance : string) (c : Cid) (st : WM) (r : Rule)
  : WM :=
  if rule_matches r (name (the_client st c)) class instance then
    let st :=
      upd_client c (fun C =>
        cset_tags (Z.lor (tags C) (r_tags r))
                  (cset_isfloating (r_isfloating r) C)) st in
    match monitor_with_num st (monitors st) (r_monitor r) with
    | Some m => upd_client c (cset_monitor m) st
    | None => st
    end
  else st.

(** [applyrules]; [res_class] and [res_name] are what [XGetClassHint]
    filled in (null when absent). *)
Definition applyrules (res_class res_name : option string) (c : Cid) (st : WM)
  : WM :=
  let st := upd_client c (fun C => cset_tags 0 (cset_isfloating false C)) st in
  let class := default broken res_class in
  let instance := default broken res_name in
  let st := fold_left (apply_rule class instance c) (rules cfg) st in
  upd_client c (fun C =>
    cset_tags (if Z.land (tags C) TAGMASK =? 0
               then current_tags st (monitor C)
               else Z.land (tags C) TAGMASK) C) st.

(** *** Monitors and screen geometry *)

Record ScreenInfo : Type := {
  x_org : Z;
  y_org : Z;
  width : Z;
  height : Z
}.

Definition same_geom (a b : ScreenInfo) : bool :=
  (x_org a =? x_org b) && (y_org a =? y_org b)
  && (width a =? width b) && (height a =? height b).

Definition isuniquegeom (unique : list ScreenInfo) (info : ScreenInfo) : bool :=
  negb (existsb (fun u => same_geom u info) unique).

(** The loop that copies the unique geometries, in order. *)
Definition unique_screens (info : list ScreenInfo) : list ScreenInfo :=
  fold_left
    (fun unique i => if isuniquegeom unique i then unique ++ [i] else unique)
    info [].

Definition updatebarpos (m : Mid) (st : WM) : WM :=
  upd_mon m (fun M =>
    let wy0 := my M in
    let wh0 := mh M in
    if showbar M then
      let wh1 := int (wh0 - bh st) in
      mset_m_by (if topbar M then wy0 else int (wy0 + wh1))
        (mset_window_area (wx M) (if topbar M then int (wy0 + bh st) else wy0)
           (ww M) wh1 M)
    else
      mset_m_by (int (- bh st)) (mset_window_area (wx M) wy0 (ww M) wh0 M)) st.

(** [createmon]: a zero-filled monitor with the configured defaults,
    at a fresh address. *)
Definition createmon (st : WM) : Mid * WM :=
  let m := next_mon st in
  let M :=
    {| layout_symbol := ""; mfact := cfg_mfact cfg;
       masters_count := DEFAULT_MASTERS_COUNT cfg;
       num := 0; m_by := 0; mx := 0; my := 0; mw := 0; mh := 0;
       wx := 0; wy := 0; ww := 0; wh := 0; gappx := cfg_gappx cfg;
       selected_tags_set := 0; tagset := [1; 1];
       showbar := cfg_showbar cfg; topbar := cfg_topbar cfg;
       clients := []; selected_client := None; stack := [];
       bar_window := 0; current_layout_index := 0;
       layouts := replicate (Z.to_nat (ntags cfg)) (cfg_layouts cfg !!! 0%nat) |} in
  let st :=
    {| sw := sw st; sh := sh st; bh := bh st; monitors := monitors st;
       selected_monitor := selected_monitor st;
       mon := <[m := M]> (mon st); cl := cl st; next_mon := S m |} in
  (m, copy_layout_symbol m st).

(** [cleanupmon]: unlink from the chain and free. *)
Definition cleanupmon (m : Mid) (st : WM) : WM :=
  set_mon_store (delete m (mon st)) (set_monitors (unlink m (monitors st)) st).

(** The body of the inner loop of the "less monitors" branch: the
    head [c] of the dying monitor's client list is popped ([rest] is
    [c->next]) and pushed onto the first monitor. *)
Definition migrate_client (last_monitor : Mid) (c : Cid) (rest : list Cid)
           (st : WM) : WM :=
  let st := upd_mon last_monitor (mset_clients rest) st in
  let st := detachstack c st in
  let st := upd_client c (cset_monitor (default 0%nat (head (monitors st)))) st in
  attachstack c (attach c st).

(** The loop [while ((c = last_monitor->clients))]; [l] is the dying
    monitor's client list. *)
Fixpoint migrate_clients (last_monitor : Mid) (l : list Cid) (st : WM) : WM :=
  match l with
  | [] => st
  | c :: r => migrate_clients last_monitor r (migrate_client last_monitor c r st)
  end.

(** One round of the outer loop: the tail monitor goes.  The result
    is [None] where the C code does not get through the round: there
    is no monitor to take, or the tail is the first monitor itself
    and still has a client, which the inner loop would hand back to
    it for ever. *)
Definition remove_last_monitor (st : WM) : option (WM * bool) :=
  match last (monitors st) with
  | None => None
  | Some last_monitor =>
      let l := clients (the_mon st last_monitor) in
      match l with
      | _ :: _ =>
          if decide (head (monitors st) = Some last_monitor) then None
          else
            let st1 := migrate_clients last_monitor l st in
            let st2 :=
              if decide (last_monitor = selected_monitor st1)
              then set_selected_monitor
                     (default 0%nat (head (monitors st1))) st1
              else st1 in
            Some (cleanupmon last_monitor st2, true)
      | [] =>
          let st2 :=
            if decide (last_monitor = selected_monitor st)
            then set_selected_monitor
                   (default 0%nat (head (monitors st))) st
            else st in
          Some (cleanupmon last_monitor st2, false)
      end
  end.

Fixpoint remove_monitors (k : nat) (st : WM) : option (WM * bool) :=
  match k with
  | O => Some (st, false)
  | S k' =>
      match remove_last_monitor st with
      | None => None
      | Some (st1, d1) =>
          match remove_monitors k' st1 with
          | None => None
          | Some (st2, d2) => Some (st2, d1 || d2)
          end
      end
  end.

(** The "new monitors" branch. *)
Fixpoint append_monitors (k : nat) (st : WM) : WM :=
  match k with
  | O => st
  | S k' =>
      let '(m, st1) := createmon st in
      append_monitors k' (set_monitors (monitors st1 ++ [m]) st1)
  end.

Definition geom_differs (M : Monitor) (u : ScreenInfo) : bool :=
  negb (x_org u =? mx M) || negb (y_org u =? my M)
  || negb (width u =? mw M) || negb (height u =? mh M).

Fixpoint update_monitor_geoms (monitors_count : Z) (i : Z) (ms : list Mid)
         (unique : list ScreenInfo) (st : WM) : WM * bool :=
  match ms, unique with
  | m :: ms', u :: unique' =>
      let M := the_mon st m in
      if (monitors_count <=? i) || geom_differs M u then
        let st1 :=
          upd_mon m (fun M =>
            mset_num i
              (mset_screen_area (x_org u) (y_org u) (width u) (height u)
                 (mset_window_area (x_org u) (y_org u) (width u) (height u) M)))
            st in
        let '(st2, _) :=
          update_monitor_geoms monitors_count (i + 1) ms' unique'
                               (updatebarpos m st1) in
        (st2, true)
      else update_monitor_geoms monitors_count (i + 1) ms' unique' st
  | _, _ => (st, false)
  end.

(** [INTERSECT] and [recttomon]. *)
Definition INTERSECT (x y w h : Z) (M : Monitor) : Z :=
  int (MAX 0 (int (MIN (int (x + w)) (int (wx M + ww M)) - MAX x (wx M)))
       * MAX 0 (int (MIN (int (y + h)) (int (wy M + wh M)) - MAX y (wy M)))).

Fixpoint recttomon_loop (st : WM) (x y w h : Z) (l : list Mid) (area : Z) (r : Mid)
  : Mid :=
  match l with
  | [] => r
  | m :: l' =>
      let a := INTERSECT x y w h (the_mon st m) in
      if area <? a then recttomon_loop st x y w h l' a m
      else recttomon_loop st x y w h l' area r
  end.

Definition recttomon (st : WM) (x y w h : Z) : Mid :=
  recttomon_loop st x y w h (monitors st) 0 (selected_monitor st).

(** The end of [movemouse] and of [resizemouse], once the pointer is
    released: a client that was dragged onto another monitor is sent
    there, and that monitor is selected. *)
Definition mouse_release (c : Cid) (st : WM) : WM :=
  let C := the_client st c in
  let m := recttomon st (c_x C) (c_y C) (c_w C) (c_h C) in
  if decide (m = selected_monitor st) then st
  else focus None (set_selected_monitor m (sendmon c m st)).

(** [updategeom].  [screens] is the answer of [XineramaQueryScreens]
    ([None] when Xinerama is not active), [ptr] the position
    [getrootptr] reports ([None] when the query fails).  A null
    [monitors] is handle 0 in [selected_monitor]. *)
Definition updategeom (screens : option (list ScreenInfo)) (ptr : option (Z * Z))
           (st : WM) : option (WM * bool) :=
  let finish '(st, dirty) :=
    if dirty : bool then
      let st := set_selected_monitor (default 0%nat (head (monitors st))) st in
      (match ptr with
       | Some (x, y) => set_selected_monitor (recttomon st x y 1 1) st
       | None => st
       end, true)
    else (st, false) in
  match screens with
  | Some info =>
      let unique := unique_screens info in
      let screens_count := Z.of_nat (length unique) in
      let monitors_count := Z.of_nat (length (monitors st)) in
      if monitors_count <=? screens_count then
        let st1 := append_monitors (Z.to_nat (screens_count - monitors_count)) st in
        Some (finish (update_monitor_geoms monitors_count 0 (monitors st1) unique st1))
      else
        finish <$> remove_monitors (Z.to_nat (monitors_count - screens_count)) st
  | None =>
      let st1 := match monitors st with
                 | [] => let '(m, st1) := createmon st in set_monitors [m] st1
                 | _ => st
                 end in
      let m := default 0%nat (head (monitors st1)) in
      let M := the_mon st1 m in
      if negb (mw M =? sw st1) || negb (mh M =? sh st1) then
        let st2 :=
          upd_mon m (fun M =>
            mset_screen_area (mx M) (my M) (sw st1) (sh st1)
              (mset_window_area (wx M) (wy M) (sw st1) (sh st1) M)) st1 in
        Some (finish (updatebarpos m st2, true))
      else Some (finish (st1, false))
  end.

(** *** ConfigureNotify on the root window *)

(** The local [dirty] of [configurenotify], computed after the two
    assignments [sw = ev->width; sh = ev->height]. *)
Definition configurenotify_dirty (ev_width ev_height : Z) (st : WM) : bool :=
  let st := set_screen_size ev_width ev_height st in
  negb (sw st =? ev_width) || negb (sh st =? ev_height).

Fixpoint refit_fullscreen (m : Mid) (l : list Cid) (st : WM) : WM :=
  match l with
  | [] => st
  | c :: r =>
      let M := the_mon st m in
      refit_fullscreen m r
        (if isfullscreen (the_client st c)
         then resizeclient c (mx M) (my M) (mw M) (mh M) st
         else st)
  end.

Definition configurenotify (is_root : bool) (ev_width ev_height : Z)
           (screens : option (list ScreenInfo)) (ptr : option (Z * Z))
           (st : WM) : option WM :=
  if is_root then
    let dirty := configurenotify_dirty ev_width ev_height st in
    let st := set_screen_size ev_width ev_height st in
    match updategeom screens ptr st with
    | None => None
    | Some (st, geom_dirty) =>
        if geom_dirty || dirty then
          let st :=
            fold_left
              (fun st m => refit_fullscreen m (clients (the_mon st m)) st)
              (monitors st) st in
          Some (arrange None (focus None st))
        else Some st
    end
  else Some st.

(** *** Looking windows up *)

(** The inner loop of [window_to_client], over one client list. *)
Fixpoint client_with_window (st : WM) (l : list Cid) (w : Z) : option Cid :=
  match l with
  | [] => None
  | c :: r => if window (the_client st c) =? w then Some c
              else client_with_window st r w
  end.

Fixpoint window_to_client_loop (st : WM) (ms : list Mid) (w : Z) : option Cid :=
  match ms with
  | [] => None
  | m :: r =>
      match client_with_window st (clients (the_mon st m)) w with
      | Some c => Some c
      | None => window_to_client_loop st r w
      end
  end.

Definition window_to_client (st : WM) (w : Z) : option Cid :=
  window_to_client_loop st (monitors st) w.

Fixpoint monitor_with_bar (st : WM) (ms : list Mid) (w : Z) : option Mid :=
  match ms with
  | [] => None
  | m :: r => if w =? bar_window (the_mon st m) then Some m
              else monitor_with_bar st r w
  end.

(** [window_to_monitor]; [root_window] is the global of that name and
    [ptr] the answer of [getrootptr], which is asked for the root
    window only. *)
Definition window_to_monitor (root_window : Z) (ptr : option (Z * Z))
           (st : WM) (w : Z) : Mid :=
  match (if w =? root_window then ptr else None) with
  | Some (x, y) => recttomon st x y 1 1
  | None =>
      match monitor_with_bar st (monitors st) w with
      | Some m => m
      | None =>
          match window_to_client st w with
          | Some c => monitor (the_client st c)
          | None => selected_monitor st
          end
      end
  end.

(** *** More commands *)

(** [setgaps]: the sum is an [int], tested for its sign. *)
Definition setgaps (arg_i : Z) (st : WM) : WM :=
  let sel := selected_monitor st in
  arrange (Some sel)
    (upd_mon sel
       (fun M =>
          mset_gappx
            (if (arg_i =? 0) || (int (gappx M + arg_i) <? 0) then 0
             else int (gappx M + arg_i)) M)
       st).

Definition togglebar (st : WM) : WM :=
  let sel := selected_monitor st in
  let st := upd_mon sel (fun M => mset_showbar (negb (showbar M)) M) st in
  arrange (Some sel) (updatebarpos sel st).

Definition togglefloating (st : WM) : WM :=
  let sel := selected_monitor st in
  match selected_client (the_mon st sel) with
  | None => st
  | Some c =>
      if isfullscreen (the_client st c) then st
      else
        let st :=
          upd_client c
            (fun C => cset_isfloating (negb (isfloating C) || isfixed C) C) st in
        let C := the_client st c in
        let st := if isfloating C
                  then resize c (c_x C) (c_y C) (c_w C) (c_h C) false st
                  else st in
        arrange (Some sel) st
  end.

(** [c->next]: what follows [c] on the client list of its monitor. *)
Fixpoint after (c : Cid) (l : list Cid) : list Cid :=
  match l with
  | [] => []
  | d :: r => if decide (d = c) then r else after c r
  end.

Definition next_clients (st : WM) (c : Cid) : list Cid :=
  after c (clients (the_mon st (monitor (the_client st c)))).

(** [find_first_visible_client(start, end)] and
    [find_last_visible_client(start, end)]; [l] is the chain from
    [start] and [None] the null [end].  With a non-null [end] that
    is not on the chain the C loops walk past the last client (a null
    dereference); the model stops at the end of the list. *)
Fixpoint find_first_visible_client (st : WM) (l : list Cid) (end_ : option Cid)
  : option Cid :=
  match l with
  | [] => None
  | c :: r => if decide (Some c = end_) then end_
              else if ISVISIBLE st c then Some c
              else find_first_visible_client st r end_
  end.

Fixpoint find_last_visible_client (st : WM) (l : list Cid) (end_ : option Cid)
         (last_visible_client : option Cid) : option Cid :=
  match l with
  | [] => last_visible_client
  | c :: r => if decide (Some c = end_) then last_visible_client
              else find_last_visible_client st r end_
                     (if ISVISIBLE st c then Some c else last_visible_client)
  end.

(** [focusstack]; [lockfullscreen] is a constant of [config.h].
    [restack] only talks to the server. *)
Definition focusstack (lockfullscreen : bool) (arg_i : Z) (st : WM) : WM :=
  let sel := selected_monitor st in
  match selected_client (the_mon st sel) with
  | None => st
  | Some sc =>
      if isfullscreen (the_client st sc) && lockfullscreen then st
      else
        let c :=
          if 0 <? arg_i then
            match find_first_visible_client st (next_clients st sc) None with
            | Some c => Some c
            | None =>
                find_first_visible_client st (clients (the_mon st sel)) (Some sc)
            end
          else
            match find_last_visible_client st (clients (the_mon st sel))
                    (Some sc) None with
            | Some c => Some c
            | None => find_last_visible_client st (next_clients st sc) None None
            end in
        match c with
        | Some c => focus (Some c) st
        | None => st
        end
  end.

Definition pop (c : Cid) (st : WM) : WM :=
  let st := focus (Some c) (attach c (detach_client c st)) in
  arrange (Some (monitor (the_client st c))) st.

(** [zoom].  Without a selected client but with a tiled one on the
    list the C code calls [pop(NULL)]; the model leaves the state
    alone there. *)
Definition zoom (st : WM) : WM :=
  let sel := selected_monitor st in
  let sc := selected_client (the_mon st sel) in
  if negb (has_arrange st sel)
     || match sc with
        | Some c => isfloating (the_client st c)
        | None => false
        end
  then st
  else
    let first := nexttiled st (clients (the_mon st sel)) in
    if decide (sc = head first) then
      match sc with
      | None => st
      | Some _ =>
          match nexttiled st (tail first) with
          | c :: _ => pop c st
          | [] => st
          end
      end
    else
      match sc with
      | Some c => pop c st
      | None => st
      end.

(** *** Managing and unmanaging windows *)

(** [updatetitle]; [text] is what the two [gettextprop] calls leave in
    [c->name]. *)
Definition updatetitle (text : string) (c : Cid) (st : WM) : WM :=
  upd_client c
    (cset_name (match text with EmptyString => broken | _ => text end)) st.

(** The fields of [XSizeHints] that [updatesizehints] reads, the
    flags as booleans. *)
Record XSizeHints : Type := {
  PBaseSize : bool;
  PMinSize : bool;
  PResizeInc : bool;
  PMaxSize : bool;
  PAspect : bool;
  base_width : Z;
  base_height : Z;
  min_width : Z;
  min_height : Z;
  width_inc : Z;
  height_inc : Z;
  max_width : Z;
  max_height : Z;
  min_aspect_x : Z;
  min_aspect_y : Z;
  max_aspect_x : Z;
  max_aspect_y : Z
}.

(** [size.flags = PSize]: none of the flags that are tested. *)
Definition size_unset : XSizeHints :=
  {| PBaseSize := false; PMinSize := false; PResizeInc := false;
     PMaxSize := false; PAspect := false;
     base_width := 0; base_height := 0; min_width := 0; min_height := 0;
     width_inc := 0; height_inc := 0; max_width := 0; max_height := 0;
     min_aspect_x := 0; min_aspect_y := 0; max_aspect_x := 0;
     max_aspect_y := 0 |}.

(** [updatesizehints]; [size] is the answer of [XGetWMNormalHints]
    ([None] when it fails). *)
Definition updatesizehints (size : option XSizeHints) (c : Cid) (st : WM) : WM :=
  let s := default size_unset size in
  let '(bw_, bh_) :=
    if PBaseSize s then (base_width s, base_height s)
    else if PMinSize s then (min_width s, min_height s)
    else (0, 0) in
  let '(iw, ih) :=
    if PResizeInc s then (width_inc s, height_inc s) else (0, 0) in
  let '(xw, xh) :=
    if PMaxSize s then (max_width s, max_height s) else (0, 0) in
  let '(nw, nh) :=
    if PMinSize s then (min_width s, min_height s)
    else if PBaseSize s then (base_width s, base_height s)
    else (0, 0) in
  let '(mina_, maxa_) :=
    if PAspect s then
      (fdiv (float_of_int (min_aspect_y s)) (float_of_int (min_aspect_x s)),
       fdiv (float_of_int (max_aspect_x s)) (float_of_int (max_aspect_y s)))
    else (float_of_int 0, float_of_int 0) in
  upd_client c
    (fun C =>
       cset_isfixed
         (negb (xw =? 0) && negb (xh =? 0) && (xw =? nw) && (xh =? nh))
         (cset_aspect mina_ maxa_
            (cset_size_hints bw_ bh_ iw ih xw xh nw nh C)))
    st.

(** What [updatewmhints] reads of [XWMHints]. *)
Record XWMHints : Type := {
  XUrgencyHint : bool;
  InputHint : bool;
  wmh_input : bool
}.

Definition updatewmhints (wmh : option XWMHints) (c : Cid) (st : WM) : WM :=
  match wmh with
  | None => st
  | Some h =>
      let st :=
        if bool_decide
             (selected_client (the_mon st (selected_monitor st)) = Some c)
           && XUrgencyHint h
        then st
        else upd_client c (cset_isurgent (XUrgencyHint h)) st in
      upd_client c
        (cset_neverfocus (if InputHint h then negb (wmh_input h) else false)) st
  end.

(** [updatewindowtype]; the two booleans say whether the
    [_NET_WM_STATE] property is [_NET_WM_STATE_FULLSCREEN] and the
    window type the dialog type. *)
Definition updatewindowtype (state_fullscreen wtype_dialog : bool) (c : Cid)
           (st : WM) : WM :=
  let st := if state_fullscreen then setfullscreen c true st else st in
  if wtype_dialog then upd_client c (cset_isfloating true) st else st.

(** What [manage] gets from the server. *)
Record WindowAttributes : Type := {
  wa_x : Z;
  wa_y : Z;
  wa_width : Z;
  wa_height : Z;
  wa_border_width : Z
}.

Record WindowProperties : Type := {
  wp_title : string;
  (** [XGetTransientForHint]: the window, when the call succeeds; the
      local [trans] stays [None], i.e. 0, when it fails *)
  wp_transient_for : option Z;
  wp_class : option string;
  wp_instance : option string;
  wp_state_fullscreen : bool;
  wp_type_dialog : bool;
  wp_size : option XSizeHints;
  wp_wmhints : option XWMHints
}.

(** [manage], in the order of its statements.  First the new
    [Client] at the address [c] that [ecalloc] returns: window,
    geometry and old border width from the window attributes, and the
    title. *)
Definition manage_alloc (c : Cid) (w : Z) (wa : WindowAttributes)
           (wp : WindowProperties) (st : WM) : WM :=
  updatetitle (wp_title wp) c
    (set_client_store
       (<[c := cset_old_border_width (wa_border_width wa)
                 (cset_old_geometry (wa_x wa) (wa_y wa) (wa_width wa)
                    (wa_height wa)
                    (cset_geometry (wa_x wa) (wa_y wa) (wa_width wa)
                       (wa_height wa) (cset_window w zero_client)))]> (cl st))
       st).

(** The monitor and the tags: those of the client the window is
    transient for, or the selected monitor and what the rules say. *)
Definition manage_home (c : Cid) (wp : WindowProperties) (st : WM) : WM :=
  match match wp_transient_for wp with
        | Some trans => window_to_client st trans
        | None => None
        end with
  | Some t =>
      upd_client c
        (fun C => cset_tags (tags (the_client st t))
                    (cset_monitor (monitor (the_client st t)) C)) st
  | None =>
      applyrules (wp_class wp) (wp_instance wp) c
        (upd_client c (cset_monitor (selected_monitor st)) st)
  end.

(** The rectangle is moved into the monitor [M] (which is
    [c->monitor]), and the border width set. *)
Definition manage_place (c : Cid) (M : Monitor) (st : WM) : WM :=
  upd_client c
    (fun C =>
       let x := if int (mx M + mw M) <? int (c_x C + WIDTH C)
                then int (int (mx M + mw M) - WIDTH C) else c_x C in
       let y := if int (my M + mh M) <? int (c_y C + HEIGHT C)
                then int (int (my M + mh M) - HEIGHT C) else c_y C in
       let x := MAX x (mx M) in
       let centre := int (x + Z.quot (c_w C) 2) in
       let y := MAX y (if (m_by M =? my M) && (wx M <=? centre)
                          && (centre <? int (wx M + ww M))
                       then bh st else my M) in
       cset_border_width (borderpx cfg)
         (cset_geometry x y (c_w C) (c_h C) C))
    st.

(** [updatewindowtype], [updatesizehints], [updatewmhints]. *)
Definition manage_props (c : Cid) (wp : WindowProperties) (st : WM) : WM :=
  updatewmhints (wp_wmhints wp) c
    (updatesizehints (wp_size wp) c
       (updatewindowtype (wp_state_fullscreen wp) (wp_type_dialog wp) c st)).

(** The window is centred on the monitor, and made floating when it
    is transient or of fixed size. *)
Definition manage_settle (c : Cid) (M : Monitor) (wp : WindowProperties)
           (st : WM) : WM :=
  let trans_set := match wp_transient_for wp with
                   | Some trans => negb (trans =? 0)
                   | None => false
                   end in
  upd_client c
    (fun C =>
       if isfloating C then C
       else cset_oldstate (trans_set || isfixed C)
              (cset_isfloating (trans_set || isfixed C) C))
    (upd_client c
       (fun C =>
          cset_geometry
            (int (mx M + Z.quot (int (mw M - WIDTH C)) 2))
            (int (my M + Z.quot (int (mh M - HEIGHT C)) 2))
            (c_w C) (c_h C) C)
       st).

(** It goes on the two chains of its monitor [m], is selected there,
    and the monitor is laid out. *)
Definition manage_show (c : Cid) (m : Mid) (st : WM) : WM :=
  focus None
    (arrange (Some m)
       (upd_mon m (mset_selected_client (Some c))
          (attachstack c (attach c st)))).

Definition manage (c : Cid) (w : Z) (wa : WindowAttributes)
           (wp : WindowProperties) (st : WM) : WM :=
  let st := manage_home c wp (manage_alloc c w wa wp st) in
  let m := monitor (the_client st c) in
  let M := the_mon st m in
  manage_show c m
    (manage_settle c M wp (manage_props c wp (manage_place c M st))).

(** [unmanage]; the flag [destroyed] only decides what the server is
    told. *)
Definition unmanage (c : Cid) (st : WM) : WM :=
  let m := monitor (the_client st c) in
  let st := detachstack c (detach_client c st) in
  let st := set_client_store (delete c (cl st)) st in
  arrange (Some m) (focus None st).

(** *** Event handlers *)

(** [maprequest]; [attrs] is the answer of [XGetWindowAttributes]
    with its [override_redirect] flag, and the new [Client] is
    allocated at an address that is not in use. *)
Definition maprequest (w : Z) (attrs : option (WindowAttributes * bool))
           (wp : WindowProperties) (st : WM) : WM :=
  match attrs with
  | None => st
  | Some (wa, override_redirect) =>
      if override_redirect then st
      else
        match window_to_client st w with
        | Some _ => st
        | None => manage (fresh (dom (cl st))) w wa wp st
        end
  end.

Definition destroynotify (w : Z) (st : WM) : WM :=
  match window_to_client st w with
  | Some c => unmanage c st
  | None => st
  end.

Definition unmapnotify (w : Z) (send_event : bool) (st : WM) : WM :=
  match window_to_client st w with
  | Some c => if send_event then st else unmanage c st
  | None => st
  end.

(** The fields of [XConfigureRequestEvent] read for a managed window;
    the booleans are the bits of [value_mask]. *)
Record ConfigureRequest : Type := {
  CWX : bool;
  CWY : bool;
  CWWidth : bool;
  CWHeight : bool;
  CWBorderWidth : bool;
  cr_x : Z;
  cr_y : Z;
  cr_width : Z;
  cr_height : Z;
  cr_border_width : Z
}.

(** The stores of [configurerequest] into a client that is floating
    (or on a monitor without layout), statement by statement: the
    requested position, relative to the monitor [M]; the requested
    size; and the centring of a floating client that would stick out
    of the monitor. *)
Definition request_position (M : Monitor) (ev : ConfigureRequest) (C : Client)
  : Client :=
  let C := if CWX ev
           then cset_geometry (int (mx M + cr_x ev)) (c_y C) (c_w C) (c_h C)
                  (cset_old_geometry (c_x C) (oldy C) (oldw C) (oldh C) C)
           else C in
  if CWY ev
  then cset_geometry (c_x C) (int (my M + cr_y ev)) (c_w C) (c_h C)
         (cset_old_geometry (oldx C) (c_y C) (oldw C) (oldh C) C)
  else C.

Definition request_size (ev : ConfigureRequest) (C : Client) : Client :=
  let C := if CWWidth ev
           then cset_geometry (c_x C) (c_y C) (cr_width ev) (c_h C)
                  (cset_old_geometry (oldx C) (oldy C) (c_w C) (oldh C) C)
           else C in
  if CWHeight ev
  then cset_geometry (c_x C) (c_y C) (c_w C) (cr_height ev)
         (cset_old_geometry (oldx C) (oldy C) (oldw C) (c_h C) C)
  else C.

Definition request_centre (M : Monitor) (C : Client) : Client :=
  let C := if (int (mx M + mw M) <? int (c_x C + c_w C)) && isfloating C
           then cset_geometry
                  (int (mx M + int (Z.quot (mw M) 2 - Z.quot (WIDTH C) 2)))
                  (c_y C) (c_w C) (c_h C) C
           else C in
  if (int (my M + mh M) <? int (c_y C + c_h C)) && isfloating C
  then cset_geometry (c_x C)
         (int (my M + int (Z.quot (mh M) 2 - Z.quot (HEIGHT C) 2)))
         (c_w C) (c_h C) C
  else C.

(** [configurerequest]; for a window that is not managed the request
    is passed on to the server. *)
Definition configurerequest (w : Z) (ev : ConfigureRequest) (st : WM) : WM :=
  match window_to_client st w with
  | None => st
  | Some c =>
      if CWBorderWidth ev then
        upd_client c (cset_border_width (cr_border_width ev)) st
      else if isfloating (the_client st c)
              || negb (has_arrange st (selected_monitor st)) then
        let M := the_mon st (monitor (the_client st c)) in
        upd_client c
          (fun C => request_centre M (request_size ev (request_position M ev C)))
          st
      else st
  end.

(** [clientmessage]; [names_fullscreen] says whether [data.l[1]] or
    [data.l[2]] is the fullscreen atom, [action] is [data.l[0]]. *)
Inductive MessageType : Type :=
| NetWMState
| NetActiveWindow
| OtherMessage.

Definition clientmessage (w : Z) (message_type : MessageType)
           (names_fullscreen : bool) (action : Z) (st : WM) : WM :=
  match window_to_client st w with
  | None => st
  | Some c =>
      match message_type with
      | NetWMState =>
          if names_fullscreen then
            setfullscreen c
              ((action =? 1)
               || ((action =? 2) && negb (isfullscreen (the_client st c))))
              st
          else st
      | NetActiveWindow =>
          if negb (bool_decide
                     (selected_client (the_mon st (selected_monitor st))
                      = Some c))
             && negb (isurgent (the_client st c))
          then seturgent c true st
          else st
      | OtherMessage => st
      end
  end.

(** [enternotify]; [normal] says that [mode] is [NotifyNormal] and
    [detail] is not [NotifyInferior]. *)
Definition enternotify (root_window : Z) (ptr : option (Z * Z)) (w : Z)
           (normal : bool) (st : WM) : WM :=
  if negb normal && negb (w =? root_window) then st
  else
    let c := window_to_client st w in
    let m := match c with
             | Some c => monitor (the_client st c)
             | None => window_to_monitor root_window ptr st w
             end in
    if negb (bool_decide (m = selected_monitor st)) then
      focus c (set_selected_monitor m st)
    else
      match c with
      | None => st
      | Some c' =>
          if bool_decide
               (selected_client (the_mon st (selected_monitor st)) = Some c')
          then st
          else focus c st
      end.

(** ** Vocabulary of the properties *)

(** What laying out does not touch: everything but the clients'
    current and saved rectangles and the monitors' layout symbol. *)
Definition erase_geom (C : Client) : Client :=
  cset_geometry 0 0 0 0 (cset_old_geometry 0 0 0 0 C).

Definition erase_symbol (M : Monitor) : Monitor := mset_layout_symbol "" M.

Definition layout_frame (st : WM) : WM :=
  set_mon_store (erase_symbol <$> mon st)
                (set_client_store (erase_geom <$> cl st) st).

(** What neither laying out nor focusing touches. *)
Definition erase_focus (M : Monitor) : Monitor :=
  mset_stack [] (mset_selected_client None (erase_symbol M)).

Definition erase_urgent (C : Client) : Client :=
  cset_isurgent false (erase_geom C).

Definition tag_frame (st : WM) : list Mid * gmap Mid Monitor * gmap Cid Client :=
  (monitors st, erase_focus <$> mon st, erase_urgent <$> cl st).

(** [tagset] has two slots and [selected_tags_set] picks one. *)
Definition tagset_shape (M : Monitor) : Prop :=
  length (tagset M) = 2%nat
  /\ (selected_tags_set M = 0 \/ selected_tags_set M = 1).

(** A handle that is allocated. *)
Definition live_mon (st : WM) (m : Mid) : Prop := is_Some (mon st !! m).
Definition live_client (st : WM) (c : Cid) : Prop := is_Some (cl st !! c).

(** [setmfact]: the test the candidate has to pass, and the interval
    of the spec, [0.05 <= f <= 0.95]. *)
Definition mfact_accepted (f : float) : bool :=
  negb (SFltb (double_of_float f) d_0_05 || SFltb d_0_95 (double_of_float f)).

Definition mfact_in_range (f : float) : bool :=
  SFleb d_0_05 (double_of_float f) && SFleb (double_of_float f) d_0_95.

(** The factor the spec's sentence on [set_mfact] describes: a
    delta when [|arg| < 1], else [arg - 1], clamped to the interval. *)
Definition spec_setmfact_value (arg_f : float) (old : float) : float :=
  let f :=
    float_of_double
      (if SFltb (double_of_float (SFabs arg_f)) d_1_0
       then double_of_float (fadd arg_f old)
       else dsub (double_of_float arg_f) d_1_0) in
  if SFltb (double_of_float f) d_0_05 then float_of_double d_0_05
  else if SFltb d_0_95 (double_of_float f) then float_of_double d_0_95
  else f.

(** [applysizehints] treats the two axes alike; this is one axis of
    its position step ([lo], [ext]: the work area; [scr]: the screen
    extent; [size]: [WIDTH(c)] or [HEIGHT(c)]). *)
Definition clamp_axis (interact : bool) (lo ext scr size bw2 p len : Z) : Z :=
  if interact then
    let p := if scr <? p then int (scr - size) else p in
    if int (int (p + len) + bw2) <? 0 then 0 else p
  else
    let p := if int (lo + ext) <=? p then int (int (lo + ext) - size) else p in
    if int (int (p + len) + bw2) <=? lo then lo else p.

(** Magnitudes for which the [int] arithmetic of [applysizehints]
    does not overflow. *)
Definition screen_scale (z : Z) : Prop := - 2 ^ 24 <= z <= 2 ^ 24.

(** A client without ICCCM size hints, as [updatesizehints] records
    it. *)
Definition no_size_hints (C : Client) : Prop :=
  basew C = 0 /\ baseh C = 0 /\ minw C = 0 /\ minh C = 0
  /\ maxw C = 0 /\ maxh C = 0 /\ incw C = 0 /\ inch C = 0
  /\ (flt (float_of_int 0) (mina C) && flt (float_of_int 0) (maxa C)) = false.

(** The aspect step of the hint block is off: not both of [mina]
    and [maxa] are positive. *)
Definition no_aspect_hint (C : Client) : Prop :=
  (flt (float_of_int 0) (mina C) && flt (float_of_int 0) (maxa C)) = false.

(** The client's and its monitor's coordinates are of screen
    magnitude, and the work area and the screen are not empty. *)
Definition geometry_at_screen_scale (st : WM) (c : Cid) : Prop :=
  let C := the_client st c in
  let M := the_mon st (monitor C) in
  Forall screen_scale
    [c_w C; c_h C; border_width C; wx M; wy M; ww M; wh M;
     sw st; sh st; bh st]
  /\ 0 < ww M /\ 0 < wh M /\ 0 <= sw st /\ 0 <= sh st.

(** The client record [setfullscreen(c, 0)] hands to [arrange] after
    a fullscreen round trip: the record from before the round trip
    with its "old" fields set to the current ones. *)
Definition after_fullscreen_round_trip (C : Client) : Client :=
  cset_old_border_width (border_width C)
    (cset_oldstate (isfloating C)
       (cset_old_geometry (c_x C) (c_y C) (c_w C) (c_h C) C)).

(** A tag mask that names at least one tag and no tag beyond
    [TAGMASK]. *)
Definition tags_ok (t : Z) : Prop := t <> 0 /\ Z.land t TAGMASK = t.

Definition tagset_ok (M : Monitor) : Prop :=
  tagset_shape M /\ Forall tags_ok (tagset M).

(** Every allocated monitor has two such tag-sets, and the monitor
    chain holds allocated monitors. *)
Definition monitors_ok (st : WM) : Prop :=
  map_Forall (fun _ M => tagset_ok M) (mon st)
  /\ Forall (live_mon st) (monitors st).

(** The invariant on tags, for all clients and for all but one. *)
Definition tags_inv (st : WM) : Prop :=
  monitors_ok st /\ map_Forall (fun _ C => tags_ok (tags C)) (cl st).

Definition tags_inv_except (c : Cid) (st : WM) : Prop :=
  monitors_ok st
  /\ map_Forall (fun c' C => c' <> c -> tags_ok (tags C)) (cl st).

(** The commands that change tags or move clients between monitors
    (every caller of [sendmon]: [tagmon] and the end of a mouse move
    or resize), with the views they depend on. *)
Inductive TagOp : Type :=
| OpView (index : Z)
| OpToggleView (index : Z)
| OpTag (index : Z)
| OpToggleTag (index : Z)
| OpTagMon (dir : Z)
| OpMouseRelease (c : Cid)
| OpFocusMon (dir : Z).

Definition step (op : TagOp) (st : WM) : WM :=
  match op with
  | OpView i => view i st
  | OpToggleView i => toggleview i st
  | OpTag i => tag i st
  | OpToggleTag i => toggletag i st
  | OpTagMon dir => tagmon dir st
  | OpMouseRelease c => mouse_release c st
  | OpFocusMon dir => focusmon dir st
  end.

Definition run (ops : list TagOp) (st : WM) : WM :=
  fold_left (fun st op => step op st) ops st.

(** What holds while the rules are walked: all other clients and the
    monitors are in order, and [c->monitor] is an allocated monitor. *)
Definition rules_inv (c : Cid) (st : WM) : Prop :=
  tags_inv_except c st
  /\ (forall C, cl st !! c = Some C -> live_mon st (monitor C)).

(** The chains are well formed: the monitor chain has no repetition
    and holds allocated monitors; the client list of each has no
    repetition and holds allocated clients that point back to it. *)
Definition chains_wf (st : WM) : Prop :=
  NoDup (monitors st)
  /\ Forall (fun m =>
       live_mon st m
       /\ NoDup (clients (the_mon st m))
       /\ Forall (fun c => live_client st c /\ monitor (the_client st c) = m)
                 (clients (the_mon st m)))
     (monitors st).

(** The predicates above can be decided by computation. *)
#[global] Instance live_mon_dec st m : Decision (live_mon st m).
Proof. unfold live_mon. apply _. Defined.

#[global] Instance live_client_dec st c : Decision (live_client st c).
Proof. unfold live_client. apply _. Defined.

#[global] Instance tagset_shape_dec M : Decision (tagset_shape M).
Proof. unfold tagset_shape. apply _. Defined.

#[global] Instance tags_ok_dec t : Decision (tags_ok t).
Proof. unfold tags_ok. apply _. Defined.

#[global] Instance tagset_ok_dec M : Decision (tagset_ok M).
Proof. unfold tagset_ok. apply _. Defined.

#[global] Instance monitors_ok_dec st : Decision (monitors_ok st).
Proof. unfold monitors_ok. apply _. Defined.

#[global] Instance tags_inv_except_dec c st : Decision (tags_inv_except c st).
Proof. unfold tags_inv_except. apply _. Defined.

#[global] Instance chains_wf_dec st : Decision (chains_wf st).
Proof. unfold chains_wf. apply _. Defined.

#[global] Instance screen_scale_dec z : Decision (screen_scale z).
Proof. unfold screen_scale. apply _. Defined.

#[global] Instance geometry_at_screen_scale_dec st c :
  Decision (geometry_at_screen_scale st c).
Proof. unfold geometry_at_screen_scale. apply _. Defined.

#[global] Instance no_size_hints_dec C : Decision (no_size_hints C).
Proof. unfold no_size_hints. apply _. Defined.

#[global] Instance no_aspect_hint_dec C : Decision (no_aspect_hint C).
Proof. unfold no_aspect_hint. apply _. Defined.

#[global] Instance fits_int_dec z : Decision (fits_int z).
Proof. unfold fits_int. apply _. Defined.

(** ** Vocabulary of the properties of the other functions *)

(** The client [focus(c)] settles on: [c] when it is visible, else
    the first visible client of the selected monitor's focus stack. *)
Definition focus_target (st : WM) (c : option Cid) : option Cid :=
  let first :=
    find_first_visible_client_in_stack st
      (stack (the_mon st (selected_monitor st))) in
  match c with
  | Some c' => if ISVISIBLE st c' then Some c' else first
  | None => first
  end.

(** A monitor's chains are in order: the client list and the focus
    stack hold the same clients, each once; these clients are
    allocated and point back to the monitor; the selected client is
    one of them. *)
Definition mon_wf (st : WM) (m : Mid) : Prop :=
  live_mon st m
  /\ NoDup (clients (the_mon st m))
  /\ NoDup (stack (the_mon st m))
  /\ Forall (fun c => c ∈ clients (the_mon st m)) (stack (the_mon st m))
  /\ Forall (fun c => c ∈ stack (the_mon st m)) (clients (the_mon st m))
  /\ Forall (fun c => live_client st c /\ monitor (the_client st c) = m)
            (clients (the_mon st m))
  /\ Forall (fun c => c ∈ clients (the_mon st m))
            (option_list (selected_client (the_mon st m))).

(** The whole state is in order: the monitor chain has no
    repetition and holds the selected monitor, and every monitor on
    it is in order. *)
Definition wm_wf (st : WM) : Prop :=
  NoDup (monitors st)
  /\ selected_monitor st ∈ monitors st
  /\ Forall (mon_wf st) (monitors st).

(** What the order of the chains depends on: the chain of monitors,
    the three chain fields of each monitor and the monitor each
    client points to. *)
Definition chain_fields (M : Monitor) : list Cid * list Cid * option Cid :=
  (clients M, stack M, selected_client M).

Definition chain_frame (st : WM)
  : list Mid * gmap Mid (list Cid * list Cid * option Cid) * gmap Cid Mid :=
  (monitors st, chain_fields <$> mon st, monitor <$> cl st).

(** A client that is managed: allocated, and on the client list of
    its monitor, which is on the chain. *)
Definition managed (st : WM) (c : Cid) : Prop :=
  live_client st c
  /\ monitor (the_client st c) ∈ monitors st
  /\ c ∈ clients (the_mon st (monitor (the_client st c))).

(** A client that is on no client list of the chain. *)
Definition unlisted (st : WM) (c : Cid) : Prop :=
  forall m, m ∈ monitors st -> c ∉ clients (the_mon st m).

(** A client that is allocated and points to a monitor of the chain
    but is on no list yet, as between the [ecalloc] and the [attach]
    of [manage]. *)
Definition pending (st : WM) (c : Cid) : Prop :=
  wm_wf st /\ unlisted st c /\ live_client st c
  /\ monitor (the_client st c) ∈ monitors st.

(** [st'] differs from [st] in the record of the client [c] only,
    which keeps its window. *)
Definition stores_into (c : Cid) (st st' : WM) : Prop :=
  monitors st' = monitors st /\ selected_monitor st' = selected_monitor st
  /\ mon st' = mon st
  /\ (forall c', c' <> c -> cl st' !! c' = cl st !! c')
  /\ (live_client st' c <-> live_client st c)
  /\ window (the_client st' c) = window (the_client st c).

(** The same, and [c] keeps its monitor and its tags as well. *)
Definition dresses (c : Cid) (st st' : WM) : Prop :=
  stores_into c st st'
  /\ monitor (the_client st' c) = monitor (the_client st c)
  /\ tags (the_client st' c) = tags (the_client st c).

(** No monitor of the chain refers to the client, on its lists or as
    its selection. *)
Definition unreferenced (st : WM) (c : Cid) : Prop :=
  Forall
    (fun m => (c ∉ clients (the_mon st m)) /\ (c ∉ stack (the_mon st m))
              /\ selected_client (the_mon st m) <> Some c)
    (monitors st).

(** What reaches the window manager: the key commands and the events
    of the clients. *)
Inductive Input : Type :=
| KeyView (index : Z)
| KeyToggleView (index : Z)
| KeyTag (index : Z)
| KeyToggleTag (index : Z)
| KeyTagMon (dir : Z)
| KeyFocusMon (dir : Z)
| KeyFocusStack (dir : Z)
| KeyZoom
| KeyToggleFloating
| KeyToggleBar
| KeySetGaps (i : Z)
| KeySetMfact (f : float)
| KeyMastersCount (i : Z)
| MouseRelease
| MapRequest (w : Z) (attrs : option (WindowAttributes * bool))
             (wp : WindowProperties)
| DestroyNotify (w : Z)
| UnmapNotify (w : Z) (send_event : bool)
| ConfigureRequestFor (w : Z) (ev : ConfigureRequest)
| ClientMessage (w : Z) (message_type : MessageType) (names_fullscreen : bool)
                (action : Z)
| EnterNotify (w : Z) (normal : bool) (ptr : option (Z * Z)).

(** [MouseRelease] is the end of [movemouse] and [resizemouse] for
    the client that is selected. *)
Definition handle (root_window : Z) (lockfullscreen : bool) (i : Input)
           (st : WM) : WM :=
  match i with
  | KeyView index => view index st
  | KeyToggleView index => toggleview index st
  | KeyTag index => tag index st
  | KeyToggleTag index => toggletag index st
  | KeyTagMon dir => tagmon dir st
  | KeyFocusMon dir => focusmon dir st
  | KeyFocusStack dir => focusstack lockfullscreen dir st
  | KeyZoom => zoom st
  | KeyToggleFloating => togglefloating st
  | KeyToggleBar => togglebar st
  | KeySetGaps i => setgaps i st
  | KeySetMfact f => setmfact f st
  | KeyMastersCount i => change_masters_count i st
  | MouseRelease =>
      match selected_client (the_mon st (selected_monitor st)) with
      | Some c => mouse_release c st
      | None => st
      end
  | MapRequest w attrs wp => maprequest w attrs wp st
  | DestroyNotify w => destroynotify w st
  | UnmapNotify w send_event => unmapnotify w send_event st
  | ConfigureRequestFor w ev => configurerequest w ev st
  | ClientMessage w message_type names_fullscreen action =>
      clientmessage w message_type names_fullscreen action st
  | EnterNotify w normal ptr => enternotify root_window ptr w normal st
  end.

Definition handle_all (root_window : Z) (lockfullscreen : bool)
           (inputs : list Input) (st : WM) : WM :=
  fold_left (fun st i => handle root_window lockfullscreen i st) inputs st.




(** The monitors of the chain are allocated, at addresses below the
    one the next [createmon] will answer with. *)
Definition monitors_allocated (st : WM) : Prop :=
  Forall (fun m => live_mon st m /\ (m < next_mon st)%nat) (monitors st).

#[global] Instance mon_wf_dec st m : Decision (mon_wf st m).
Proof. unfold mon_wf. apply _. Defined.

#[global] Instance wm_wf_dec st : Decision (wm_wf st).
Proof. unfold wm_wf. apply _. Defined.

#[global] Instance managed_dec st c : Decision (managed st c).
Proof. unfold managed. apply _. Defined.

#[global] Instance tags_inv_dec st : Decision (tags_inv st).
Proof. unfold tags_inv. apply _. Defined.

#[global] Instance monitors_allocated_dec st : Decision (monitors_allocated st).
Proof. unfold monitors_allocated. apply _. Defined.

End Dwm.

(** ** A configuration and a few states to run the functions on *)

Module Ex.

Definition cfg : Config :=
  {| ntags := 9;
     cfg_layouts :=
       [ {| lt_symbol := "[]="; lt_arrange := Some Tile |};
         {| lt_symbol := "><>"; lt_arrange := None |};
         {| lt_symbol := "[M]"; lt_arrange := Some Monocle |} ];
     rules :=
       [ {| r_class := Some "Gimp"%string; r_instance := None;
            r_title := None; r_tags := 8; r_isfloating := true;
            r_monitor := -1 |} ];
     resizehints := true;
     cfg_mfact := float_of_ratio 55 100;
     DEFAULT_MASTERS_COUNT := 1;
     cfg_showbar := true; cfg_topbar := true;
     cfg_gappx := 0; borderpx := 1 |}.

Definition screen (x y w h : Z) : ScreenInfo :=
  {| x_org := x; y_org := y; width := w; height := h |}.

(** Before the first [updategeom]: no monitor yet. *)
Definition empty : WM :=
  {| sw := 1920; sh := 1080; bh := 20; monitors := [];
     selected_monitor := 0%nat; mon := ∅; cl := ∅; next_mon := 1%nat |}.

Definition boot (screens : list ScreenInfo) : WM :=
  match updategeom cfg (Some screens) (Some (5, 5)) empty with
  | Some (st, _) => st
  | None => empty
  end.

(** One 1920x1080 screen; two screens side by side; three. *)
Definition one_monitor : WM :=
  Eval vm_compute in boot [screen 0 0 1920 1080].
Definition two_monitors : WM :=
  Eval vm_compute in boot [screen 0 0 1920 1080; screen 1920 0 1280 1024].
Definition three_monitors : WM :=
  Eval vm_compute in
    boot [screen 0 0 1920 1080; screen 1920 0 1280 1024;
          screen 3200 0 1280 1024].

(** A client record as [manage] leaves it for a plain window, and its
    insertion at the head of both chains of its monitor. *)
Definition plain_client (m : Mid) (x y w h : Z) : Client :=
  cset_border_width (borderpx cfg)
    (cset_tags 1 (cset_monitor m (cset_geometry x y w h zero_client))).

Definition add_client (c : Cid) (C : Client) (st : WM) : WM :=
  let st := set_client_store (<[c := C]> (cl st)) st in
  attachstack c (attach c st).

(** One monitor with two tiled clients, focused and laid out. *)
Definition two_clients : WM :=
  Eval vm_compute in
    arrange cfg None
      (focus None
         (add_client 12%nat (plain_client 1%nat 0 0 640 480)
            (add_client 11%nat (plain_client 1%nat 0 0 800 600) one_monitor))).

(** The same after [tag(1)]: the focused client, 12, has moved to
    the second tag and is out of view. *)
Definition one_hidden : WM := Eval vm_compute in tag cfg 1 two_clients.

(** Three monitors, the last one selected. *)
Definition last_selected : WM :=
  Eval vm_compute in set_selected_monitor 3%nat three_monitors.

(** One monitor with a floating client that has shrunk itself to one
    pixel by a ConfigureRequest ([configurerequest] stores the
    requested size of a floating client as it is). *)
Definition tiny_floating : WM :=
  Eval vm_compute in
    focus None
      (add_client 11%nat
         (cset_isfloating true (plain_client 1%nat 100 100 1 1)) one_monitor).

(** Floating clients with size hints: a maximum size of 5x5, and a
    width increment of 10 with a maximum width of 35. *)
Definition hinted : WM :=
  Eval vm_compute in
    add_client 22%nat
      (cset_size_hints 0 0 10 0 35 0 0 0
         (cset_isfloating true (plain_client 1%nat 100 100 200 200)))
      (add_client 21%nat
         (cset_size_hints 0 0 0 0 5 5 0 0
            (cset_isfloating true (plain_client 1%nat 100 100 200 200)))
         one_monitor).

(** A floating client whose min hints are at least the bar height. *)
Definition hinted_min : WM :=
  Eval vm_compute in
    add_client 23%nat
      (cset_size_hints 0 0 0 0 0 0 50 40
         (cset_isfloating true (plain_client 1%nat 100 100 200 200)))
      one_monitor.

(** Two monitors, the second with two clients; three monitors with
    clients on each. *)
Definition second_monitor_busy : WM :=
  Eval vm_compute in
    add_client 12%nat (plain_client 2%nat 2000 20 640 480)
      (add_client 11%nat (plain_client 2%nat 2000 20 800 600) two_monitors).

Definition three_monitors_busy : WM :=
  Eval vm_compute in
    add_client 15%nat (plain_client 3%nat 3300 20 640 480)
      (add_client 14%nat (plain_client 3%nat 3300 20 640 480)
         (add_client 13%nat (plain_client 2%nat 2000 20 640 480)
            (add_client 12%nat (plain_client 2%nat 2000 20 640 480)
               (add_client 11%nat (plain_client 1%nat 0 20 800 600)
                  three_monitors)))).

(** [manage] has just allocated client 13 on the selected monitor and
    is about to call [applyrules]. *)
Definition managing : WM :=
  Eval vm_compute in
    set_client_store
      (<[13%nat := cset_monitor 1%nat zero_client]> (cl two_clients))
      two_clients.

(** Three monitors with clients on each, the last monitor selected
    and its client 15 focused. *)
Definition last_busy : WM :=
  Eval vm_compute in
    focus None (set_selected_monitor 3%nat three_monitors_busy).

(** The monitor with two clients, whose windows are 101 (client 11)
    and 102 (client 12, the selected one). *)
Definition two_windows : WM :=
  Eval vm_compute in
    upd_client 12%nat (cset_window 102)
      (upd_client 11%nat (cset_window 101) two_clients).

(** What the server answers for a plain terminal window. *)
Definition plain_attributes : WindowAttributes :=
  {| wa_x := 10; wa_y := 30; wa_width := 400; wa_height := 300;
     wa_border_width := 0 |}.

Definition plain_properties : WindowProperties :=
  {| wp_title := "xterm"%string; wp_transient_for := None;
     wp_class := Some "XTerm"%string; wp_instance := Some "xterm"%string;
     wp_state_fullscreen := false; wp_type_dialog := false;
     wp_size := None; wp_wmhints := None |}.

End Ex.

(** * Properties *)

(** ** Integer facts *)

Lemma int_id z : fits_int z -> int z = z.
Proof.
  unfold fits_int, INT_MIN, INT_MAX, int. intros H.
  rewrite Z.mod_small; lia.
Qed.

Lemma int_range z : fits_int (int z).
Proof.
  unfold fits_int, INT_MIN, INT_MAX, int.
  pose proof (Z.mod_pos_bound (z + 2 ^ 31) (2 ^ 32)). lia.
Qed.

Lemma uint_range z : 0 <= uint z < 2 ^ 32.
Proof. unfold uint. apply Z.mod_pos_bound. lia. Qed.

Lemma MAX_spec a b : MAX a b = Z.max a b.
Proof. unfold MAX. destruct (Z.ltb_spec b a); lia. Qed.

Lemma MIN_spec a b : MIN a b = Z.min a b.
Proof. unfold MIN. destruct (Z.ltb_spec a b); lia. Qed.

(** ** Loads and stores *)

Lemma the_mon_upd_mon_eq st m f :
  live_mon st m -> the_mon (upd_mon m f st) m = f (the_mon st m).
Proof.
  intros [M HM]. unfold the_mon, upd_mon; simpl.
  rewrite lookup_total_alter_eq, (lookup_total_correct _ _ _ HM), HM. done.
Qed.

Lemma the_mon_upd_mon_ne st m m' f :
  m <> m' -> the_mon (upd_mon m f st) m' = the_mon st m'.
Proof. intros. unfold the_mon, upd_mon; simpl. by rewrite lookup_total_alter_ne. Qed.

Lemma the_client_upd_client_eq st c f :
  live_client st c -> the_client (upd_client c f st) c = f (the_client st c).
Proof.
  intros [C HC]. unfold the_client, upd_client; simpl.
  rewrite lookup_total_alter_eq, (lookup_total_correct _ _ _ HC), HC. done.
Qed.

Lemma the_client_upd_client_ne st c c' f :
  c <> c' -> the_client (upd_client c f st) c' = the_client st c'.
Proof.
  intros. unfold the_client, upd_client; simpl. by rewrite lookup_total_alter_ne.
Qed.

Lemma live_mon_upd_mon st m f m' : live_mon (upd_mon m f st) m' <-> live_mon st m'.
Proof. unfold live_mon, upd_mon; simpl. by rewrite lookup_alter_is_Some. Qed.

Lemma live_client_upd_client st c f c' :
  live_client (upd_client c f st) c' <-> live_client st c'.
Proof. unfold live_client, upd_client; simpl. by rewrite lookup_alter_is_Some. Qed.

(** ** What laying out leaves alone *)

Lemma erase_geom_zero : erase_geom zero_client = zero_client.
Proof. reflexivity. Qed.

Lemma the_client_layout_frame st c :
  the_client (layout_frame st) c = erase_geom (the_client st c).
Proof.
  unfold the_client, layout_frame; simpl. rewrite lookup_total_fmap.
  rewrite lookup_total_alt. by destruct (cl st !! c).
Qed.

Lemma the_mon_layout_frame st m :
  the_mon (layout_frame st) m = erase_symbol (the_mon st m).
Proof.
  unfold the_mon, layout_frame; simpl. rewrite lookup_total_fmap.
  rewrite lookup_total_alt. by destruct (mon st !! m).
Qed.

Lemma layout_frame_upd_client st c f :
  (forall C, erase_geom (f C) = erase_geom C) ->
  layout_frame (upd_client c f st) = layout_frame st.
Proof.
  intros Hf. unfold layout_frame, upd_client; simpl.
  rewrite (fmap_alter erase_geom f id) by (intros; apply Hf).
  rewrite alter_id by done. done.
Qed.

Lemma layout_frame_upd_mon st m f :
  (forall M, erase_symbol (f M) = erase_symbol M) ->
  layout_frame (upd_mon m f st) = layout_frame st.
Proof.
  intros Hf. unfold layout_frame, upd_mon; simpl.
  rewrite (fmap_alter erase_symbol f id) by (intros; apply Hf).
  rewrite alter_id by done. done.
Qed.

Lemma layout_frame_resizeclient st c x y w h :
  layout_frame (resizeclient c x y w h st) = layout_frame st.
Proof. apply layout_frame_upd_client. done. Qed.

Section Facts.

Variable cfg : Config.

Lemma layout_frame_resize st c x y w h i :
  layout_frame (resize cfg c x y w h i st) = layout_frame st.
Proof.
  unfold resize. destruct (applysizehints _ _ _ _ _ _ _ _) as [[[[x' y'] w'] h'] []].
  - apply layout_frame_resizeclient.
  - done.
Qed.

Lemma layout_frame_showhide l st :
  layout_frame (showhide cfg l st) = layout_frame st.
Proof.
  revert st. induction l as [|c r IH]; intros st; simpl; [done|].
  destruct (ISVISIBLE st c); rewrite IH; [|done].
  destruct (_ && _); [apply layout_frame_resize | done].
Qed.

Lemma layout_frame_tile_loop m n mw_ l idx my_ ty st :
  layout_frame (tile_loop cfg m n mw_ l idx my_ ty st) = layout_frame st.
Proof.
  revert idx my_ ty st. induction l as [|c r IH]; intros idx my_ ty st; simpl; [done|].
  destruct (is_tiled st c); [|apply IH].
  destruct (idx <? _); rewrite IH; apply layout_frame_resize.
Qed.

Lemma layout_frame_monocle_loop m l st :
  layout_frame (monocle_loop cfg m l st) = layout_frame st.
Proof.
  revert st. induction l as [|c r IH]; intros st; simpl; [done|].
  destruct (is_tiled st c); rewrite IH; [apply layout_frame_resize | done].
Qed.

Lemma layout_frame_copy_layout_symbol m st :
  layout_frame (copy_layout_symbol m st) = layout_frame st.
Proof. apply layout_frame_upd_mon. done. Qed.

Lemma layout_frame_arrangemon m st :
  layout_frame (arrangemon cfg m st) = layout_frame st.
Proof.
  unfold arrangemon. destruct (lt_arrange _) as [[]|].
  - unfold tile. destruct (_ =? 0).
    + apply layout_frame_copy_layout_symbol.
    + rewrite layout_frame_tile_loop. apply layout_frame_copy_layout_symbol.
  - unfold monocle. rewrite layout_frame_monocle_loop.
    apply layout_frame_copy_layout_symbol.
  - apply layout_frame_copy_layout_symbol.
Qed.

Lemma layout_frame_arrange m st :
  layout_frame (arrange cfg m st) = layout_frame st.
Proof.
  destruct m as [m|]; simpl.
  - by rewrite layout_frame_arrangemon, layout_frame_showhide.
  - generalize (monitors st). intros l. revert st.
    induction l as [|m l IH]; intros st; simpl; [done|].
    by rewrite IH, layout_frame_arrangemon, layout_frame_showhide.
Qed.

(** Reading through the frame. *)
Lemma layout_frame_client st st' c :
  layout_frame st' = layout_frame st ->
  erase_geom (the_client st' c) = erase_geom (the_client st c).
Proof. intros H. by rewrite <- !the_client_layout_frame, H. Qed.

Lemma layout_frame_mon st st' m :
  layout_frame st' = layout_frame st ->
  erase_symbol (the_mon st' m) = erase_symbol (the_mon st m).
Proof. intros H. by rewrite <- !the_mon_layout_frame, H. Qed.

Lemma layout_frame_globals st st' :
  layout_frame st' = layout_frame st ->
  monitors st' = monitors st /\ selected_monitor st' = selected_monitor st
  /\ bh st' = bh st /\ sw st' = sw st /\ sh st' = sh st.
Proof.
  intros H.
  split; [exact (f_equal monitors H)|].
  split; [exact (f_equal selected_monitor H)|].
  split; [exact (f_equal bh H)|].
  split; [exact (f_equal sw H) | exact (f_equal sh H)].
Qed.

Lemma layout_frame_live_client st st' c :
  layout_frame st' = layout_frame st -> live_client st' c <-> live_client st c.
Proof.
  intros H. unfold live_client.
  pose proof (f_equal (fun s => cl s !! c) H) as E. simpl in E.
  rewrite !lookup_fmap in E.
  destruct (cl st' !! c), (cl st !! c); simpl in E; try discriminate;
    split; intros [? ?]; eauto; discriminate.
Qed.

Lemma layout_frame_live_mon st st' m :
  layout_frame st' = layout_frame st -> live_mon st' m <-> live_mon st m.
Proof.
  intros H. unfold live_mon.
  pose proof (f_equal (fun s => mon s !! m) H) as E. simpl in E.
  rewrite !lookup_fmap in E.
  destruct (mon st' !! m), (mon st !! m); simpl in E; try discriminate;
    split; intros [? ?]; eauto; discriminate.
Qed.

(** ** What focusing leaves alone *)

Lemma tag_frame_layout_frame st : tag_frame (layout_frame st) = tag_frame st.
Proof.
  unfold tag_frame, layout_frame; simpl.
  rewrite <- !map_fmap_compose. do 2 f_equal; apply map_fmap_ext; done.
Qed.

Lemma layout_frame_tag_frame st st' :
  layout_frame st' = layout_frame st -> tag_frame st' = tag_frame st.
Proof.
  intros H. by rewrite <- (tag_frame_layout_frame st'), H, tag_frame_layout_frame.
Qed.

Lemma tag_frame_upd_mon st m f :
  (forall M, erase_focus (f M) = erase_focus M) ->
  tag_frame (upd_mon m f st) = tag_frame st.
Proof.
  intros Hf. unfold tag_frame, upd_mon; simpl.
  rewrite (fmap_alter erase_focus f id) by (intros; apply Hf).
  rewrite alter_id by done. done.
Qed.

Lemma tag_frame_upd_client st c f :
  (forall C, erase_urgent (f C) = erase_urgent C) ->
  tag_frame (upd_client c f st) = tag_frame st.
Proof.
  intros Hf. unfold tag_frame, upd_client; simpl.
  rewrite (fmap_alter erase_urgent f id) by (intros; apply Hf).
  rewrite alter_id by done. done.
Qed.

Lemma tag_frame_set_selected_monitor st m :
  tag_frame (set_selected_monitor m st) = tag_frame st.
Proof. reflexivity. Qed.

Lemma tag_frame_attachstack st c : tag_frame (attachstack c st) = tag_frame st.
Proof. apply tag_frame_upd_mon. done. Qed.

Lemma tag_frame_detachstack st c : tag_frame (detachstack c st) = tag_frame st.
Proof.
  unfold detachstack. case_decide.
  - rewrite tag_frame_upd_mon by done. apply tag_frame_upd_mon. done.
  - apply tag_frame_upd_mon. done.
Qed.

Lemma tag_frame_seturgent st c u : tag_frame (seturgent c u st) = tag_frame st.
Proof. apply tag_frame_upd_client. done. Qed.

Lemma tag_frame_focus st c : tag_frame (focus c st) = tag_frame st.
Proof.
  unfold focus.
  rewrite tag_frame_upd_mon by done.
  destruct (match c with Some _ => _ | None => _ end) as [c'|]; [|done].
  rewrite tag_frame_attachstack, tag_frame_detachstack.
  destruct (isurgent _); [rewrite tag_frame_seturgent|];
    case_decide; done.
Qed.

Lemma tag_frame_arrange st m : tag_frame (arrange cfg m st) = tag_frame st.
Proof. apply layout_frame_tag_frame, layout_frame_arrange. Qed.

Lemma tag_frame_mon st st' m :
  tag_frame st' = tag_frame st ->
  erase_focus (the_mon st' m) = erase_focus (the_mon st m).
Proof.
  intros H. assert (E : (tag_frame st').1.2 !! m = (tag_frame st).1.2 !! m)
    by (by rewrite H).
  simpl in E. rewrite !lookup_fmap in E. unfold the_mon.
  rewrite !lookup_total_alt.
  destruct (mon st' !! m), (mon st !! m); simpl in *; congruence.
Qed.

Lemma tag_frame_client st st' c :
  tag_frame st' = tag_frame st ->
  erase_urgent (the_client st' c) = erase_urgent (the_client st c).
Proof.
  intros H. assert (E : (tag_frame st').2 !! c = (tag_frame st).2 !! c)
    by (by rewrite H).
  simpl in E. rewrite !lookup_fmap in E. unfold the_client.
  rewrite !lookup_total_alt.
  destruct (cl st' !! c), (cl st !! c); simpl in *; congruence.
Qed.

Lemma tag_frame_monitors st st' :
  tag_frame st' = tag_frame st -> monitors st' = monitors st.
Proof. intros H. exact (f_equal (fun t => t.1.1) H). Qed.

Lemma tag_frame_current_tags st st' m :
  tag_frame st' = tag_frame st -> current_tags st' m = current_tags st m.
Proof.
  intros H. unfold current_tags.
  pose proof (tag_frame_mon _ _ m H) as E.
  by rewrite (f_equal tagset E : tagset (the_mon st' m) = tagset (the_mon st m)),
    (f_equal selected_tags_set E
      : selected_tags_set (the_mon st' m) = selected_tags_set (the_mon st m)).
Qed.

Lemma tag_frame_tags st st' c :
  tag_frame st' = tag_frame st ->
  tags (the_client st' c) = tags (the_client st c).
Proof. intros H. exact (f_equal tags (tag_frame_client _ _ c H)). Qed.

Lemma tag_frame_monitor st st' c :
  tag_frame st' = tag_frame st ->
  monitor (the_client st' c) = monitor (the_client st c).
Proof. intros H. exact (f_equal monitor (tag_frame_client _ _ c H)). Qed.

Lemma tag_frame_ISVISIBLE st st' c :
  tag_frame st' = tag_frame st -> ISVISIBLE st' c = ISVISIBLE st c.
Proof.
  intros H. unfold ISVISIBLE.
  by rewrite (tag_frame_tags _ _ c H), (tag_frame_monitor _ _ c H),
    (tag_frame_current_tags _ _ _ H).
Qed.

(** ** Tags *)

Lemma TAGMASK_ones : 0 <= ntags cfg -> TAGMASK cfg = Z.ones (ntags cfg).
Proof.
  intros H. unfold TAGMASK. rewrite Z.shiftl_1_l, Z.ones_equiv. lia.
Qed.

Lemma tag_bit_index index :
  0 <= index < ntags cfg -> tag_bit cfg index = Z.shiftl 1 index.
Proof.
  intros H. unfold tag_bit. rewrite TAGMASK_ones by lia.
  rewrite Z.land_ones by lia. rewrite Z.shiftl_1_l.
  apply Z.mod_small. split; [apply Z.pow_nonneg; lia|].
  apply Z.pow_lt_mono_r; lia.
Qed.

Lemma shiftl_1_nonzero index : 0 <= index -> Z.shiftl 1 index <> 0.
Proof.
  intros H. rewrite Z.shiftl_1_l.
  pose proof (Z.pow_pos_nonneg 2 index). lia.
Qed.

Lemma find_first_visible_elem st l c :
  find_first_visible_client_in_stack st l = Some c -> c ∈ l.
Proof.
  induction l as [|d r IH]; simpl; [done|].
  destruct (ISVISIBLE st d).
  - intros [= ->]. apply list_elem_of_here.
  - intros H. apply list_elem_of_further. auto.
Qed.

Lemma selected_monitor_detachstack st c :
  selected_monitor (detachstack c st) = selected_monitor st.
Proof. unfold detachstack. by case_decide. Qed.

(** [focus(NULL)] stays on the selected monitor when the clients on
    its focus stack are its own. *)
Lemma focus_selected_monitor st :
  Forall (fun c => monitor (the_client st c) = selected_monitor st)
         (stack (the_mon st (selected_monitor st))) ->
  selected_monitor (focus None st) = selected_monitor st.
Proof.
  intros Hst. unfold focus.
  destruct (find_first_visible_client_in_stack _ _) as [c|] eqn:E; [|done].
  apply find_first_visible_elem in E.
  rewrite Forall_forall in Hst. specialize (Hst c E).
  simpl. rewrite decide_True by done.
  rewrite selected_monitor_detachstack. by destruct (isurgent _).
Qed.

Lemma current_tags_set_tags st m t :
  live_mon st m -> tagset_shape (the_mon st m) ->
  current_tags (set_tags m t st) m = t.
Proof.
  intros Hl [Hlen Hsel]. unfold current_tags, set_tags.
  rewrite the_mon_upd_mon_eq by done. simpl.
  rewrite list_lookup_insert_eq; [done|]. rewrite Hlen.
  destruct Hsel as [-> | ->]; simpl; lia.
Qed.

Lemma tagset_shape_swap M :
  tagset_shape M ->
  tagset_shape (mset_selected_tags_set (Z.lxor (selected_tags_set M) 1) M).
Proof.
  intros [Hlen Hsel]. split; [done|]. simpl.
  destruct Hsel as [-> | ->]; [right | left]; reflexivity.
Qed.

(** The state [view] hands to [focus] and [arrange] when the requested
    tag differs from the visible one. *)
Lemma view_changes_tags st index :
  0 <= index < ntags cfg ->
  live_mon st (selected_monitor st) ->
  tagset_shape (the_mon st (selected_monitor st)) ->
  Forall (fun c => monitor (the_client st c) = selected_monitor st)
         (stack (the_mon st (selected_monitor st))) ->
  selected_monitor (view cfg index st) = selected_monitor st
  /\ current_tags (view cfg index st) (selected_monitor st) = Z.shiftl 1 index.
Proof.
  intros Hi Hlive Hshape Hstack. unfold view.
  rewrite tag_bit_index by done.
  set (sel := selected_monitor st) in *.
  destruct (Z.eqb_spec (Z.shiftl 1 index) (current_tags st sel)) as [E|E];
    [by split|].
  destruct (Z.eqb_spec (Z.shiftl 1 index) 0) as [Z0|_];
    [by apply shiftl_1_nonzero in Z0; [|lia]|].
  set (s1 := swap_selected_tags sel st).
  set (s2 := set_tags sel _ s1).
  set (s3 := set_layout_index sel index s2).
  assert (Hl1 : live_mon s1 sel) by (by apply live_mon_upd_mon).
  assert (Hl2 : live_mon s2 sel) by (by apply live_mon_upd_mon).
  assert (Hsh1 : tagset_shape (the_mon s1 sel)).
  { unfold s1, swap_selected_tags. rewrite the_mon_upd_mon_eq by done.
    by apply tagset_shape_swap. }
  assert (Hsel3 : selected_monitor s3 = sel) by reflexivity.
  assert (Hst3 : stack (the_mon s3 sel) = stack (the_mon st sel)).
  { unfold s3, set_layout_index. rewrite the_mon_upd_mon_eq by done.
    unfold s2, set_tags. simpl. rewrite the_mon_upd_mon_eq by done.
    unfold s1, swap_selected_tags. simpl. by rewrite the_mon_upd_mon_eq. }
  assert (Hf : selected_monitor (focus None s3) = sel).
  { rewrite focus_selected_monitor; [done|].
    rewrite Hsel3, Hst3. exact Hstack. }
  cbv zeta. rewrite Hf. split.
  - destruct (layout_frame_globals (focus None s3)
                (arrange cfg (Some sel) (focus None s3))
                (layout_frame_arrange _ _)) as (_ & -> & _).
    exact Hf.
  - rewrite (tag_frame_current_tags (focus None s3)) by apply tag_frame_arrange.
    rewrite (tag_frame_current_tags s3) by apply tag_frame_focus.
    unfold s3, set_layout_index, current_tags.
    rewrite the_mon_upd_mon_eq by done. simpl.
    apply (current_tags_set_tags s1); done.
Qed.

(** C1 (amended): for a tag index [i < LENGTH(tags)], after
    [view(i); view(i)] the visible tag-set of the selected monitor is
    [1 << i] -- the requested tag, not the tag-set the monitor showed
    before the first call (the second call finds the requested tag
    already visible and returns). *)
Theorem view_twice_shows_requested st index :
  0 <= index < ntags cfg ->
  live_mon st (selected_monitor st) ->
  tagset_shape (the_mon st (selected_monitor st)) ->
  Forall (fun c => monitor (the_client st c) = selected_monitor st)
         (stack (the_mon st (selected_monitor st))) ->
  current_tags (view cfg index (view cfg index st)) (selected_monitor st)
  = Z.shiftl 1 index
  /\ view cfg index (view cfg index st) = view cfg index st.
Proof.
  intros Hi Hlive Hshape Hstack.
  destruct (view_changes_tags st index Hi Hlive Hshape Hstack) as [Hsel Hcur].
  assert (Hid : view cfg index (view cfg index st) = view cfg index st).
  { unfold view at 1. rewrite Hsel, Hcur, tag_bit_index by done.
    by rewrite Z.eqb_refl. }
  by rewrite Hid.
Qed.

(** ** ConfigureNotify *)

(** C4: in [configurenotify], for a ConfigureNotify on the root
    window, the local [dirty] is false whatever the event carries: it
    compares [sw] and [sh] with [ev->width] and [ev->height] after
    they have been overwritten with these very values. *)
Theorem configurenotify_dirty_always_false ev_width ev_height st :
  configurenotify_dirty ev_width ev_height st = false.
Proof.
  unfold configurenotify_dirty. simpl. by rewrite !Z.eqb_refl.
Qed.

(** So the handler re-lays out exactly when [updategeom] says so. *)
Lemma configurenotify_follows_updategeom w h screens ptr st st' d :
  updategeom cfg screens ptr (set_screen_size w h st) = Some (st', d) ->
  d = false ->
  configurenotify cfg true w h screens ptr st = Some st'.
Proof.
  intros E ->. unfold configurenotify, configurenotify_dirty. simpl.
  by rewrite !Z.eqb_refl, E.
Qed.

(** ** The monitor chain *)

Lemma next_of_elem l m m' : next_of l m = Some m' -> m' ∈ l.
Proof.
  induction l as [|d r IH]; simpl; [done|].
  case_decide.
  - destruct r; simpl; [done|]. intros [= ->].
    apply list_elem_of_further, list_elem_of_here.
  - intros H'. apply list_elem_of_further. auto.
Qed.

Lemma last_elem (l : list Mid) m : last l = Some m -> m ∈ l.
Proof.
  induction l as [|d r IH]; simpl; [done|].
  destruct r.
  - intros [= ->]. apply list_elem_of_here.
  - intros H. apply list_elem_of_further. auto.
Qed.

Lemma next_of_last l m : NoDup l -> last l = Some m -> next_of l m = None.
Proof.
  induction l as [|d r IH]; simpl; [done|].
  intros Hnd Hl. apply NoDup_cons in Hnd as [Hd Hr].
  destruct r as [|e r'].
  - by case_decide.
  - case_decide as E.
    + subst d. exfalso. apply Hd. by apply last_elem.
    + by apply IH.
Qed.

Lemma find_previous_monitor_null l :
  find_previous_monitor_in l None = last l.
Proof.
  induction l as [|d r IH]; [done|].
  destruct r as [|e r']; [done|]. simpl in *. exact IH.
Qed.

Lemma find_previous_monitor_some l m :
  m ∈ l -> head l <> Some m ->
  exists p, find_previous_monitor_in l (Some m) = Some p /\ p ∈ l.
Proof.
  induction l as [|d r IH]; simpl; [by intros ?%elem_of_nil|].
  intros Hin Hhd. apply elem_of_cons in Hin as [-> | Hin]; [done|].
  case_decide as E.
  - exists d. split; [done | apply list_elem_of_here].
  - destruct (IH Hin E) as (p & Hp & Hpin).
    exists p. split; [done | by apply list_elem_of_further].
Qed.

Lemma head_elem (l : list Mid) m : head l = Some m -> m ∈ l.
Proof. destruct l; simpl; [done|]. intros [= ->]. apply list_elem_of_here. Qed.

Lemma last_is_Some (l : list Mid) : l <> [] -> is_Some (last l).
Proof.
  induction l as [|d r IH]; [done|]. intros _.
  destruct r; simpl; [eauto|]. apply IH. done.
Qed.

(** ** The master area *)

(** *** Floating-point facts *)

Lemma SFcompare_antisym x y :
  SFcompare y x = option_map CompOpp (SFcompare x y).
Proof.
  destruct x as [sx|sx| |sx mx ex], y as [sy|sy| |sy my_ ey]; simpl;
    try reflexivity;
    try (destruct sx; reflexivity); try (destruct sy; reflexivity);
    try (destruct sx, sy; reflexivity).
  destruct sx, sy; simpl; try reflexivity;
    rewrite (Z.compare_antisym ex ey);
    destruct (ex ?= ey); simpl; try reflexivity;
    by rewrite (Pos.compare_cont_antisym mx my_ Eq).
Qed.

Lemma SFcompare_numbers x y :
  is_nan x = false -> is_nan y = false -> is_Some (SFcompare x y).
Proof. destruct x, y; simpl; try done; eauto. Qed.

Lemma not_SFltb_SFleb x a :
  is_nan x = false -> is_nan a = false ->
  SFltb x a = false -> SFleb a x = true.
Proof.
  intros Hx Ha. unfold SFltb, SFleb. rewrite (SFcompare_antisym x a).
  destruct (SFcompare_numbers x a Hx Ha) as [c ->]. by destruct c.
Qed.

Lemma shr_1_nonneg mrs : 0 <= shr_m mrs -> 0 <= shr_m (shr_1 mrs).
Proof.
  destruct mrs as [m r s]. destruct m as [|p|p]; simpl; try lia;
    destruct p; simpl; lia.
Qed.

Lemma iter_pos_shr_1_nonneg p mrs :
  0 <= shr_m mrs -> 0 <= shr_m (SpecFloat.iter_pos shr_1 p mrs).
Proof.
  revert mrs. induction p as [p IH|p IH|]; intros mrs H; simpl.
  - apply IH, IH. by apply shr_1_nonneg.
  - by apply IH, IH.
  - by apply shr_1_nonneg.
Qed.

Lemma shr_fexp_nonneg prec emax m e l :
  0 <= m -> 0 <= shr_m (shr_fexp prec emax m e l).1.
Proof.
  intros H. unfold shr_fexp, shr.
  assert (0 <= shr_m (shr_record_of_loc m l)) by (by destruct l as [|[]]).
  destruct (_ - e); simpl; try done. by apply iter_pos_shr_1_nonneg.
Qed.

Lemma binary_round_aux_number prec emax sx mx ex lx :
  0 <= mx -> is_nan (binary_round_aux prec emax sx mx ex lx) = false.
Proof.
  intros H. unfold binary_round_aux.
  pose proof (shr_fexp_nonneg prec emax mx ex lx H) as H1.
  destruct (shr_fexp prec emax mx ex lx) as [mrs' e']. simpl in H1.
  assert (H2 : 0 <= round_nearest_even (shr_m mrs') (loc_of_shr_record mrs')).
  { unfold round_nearest_even.
    destruct (loc_of_shr_record mrs') as [|[]]; try destruct (Z.even _); lia. }
  pose proof (shr_fexp_nonneg prec emax _ e' loc_Exact H2) as H3.
  destruct (shr_fexp prec emax _ e' loc_Exact) as [mrs'' e'']. simpl in H3.
  destruct (shr_m mrs''); try done.
  by destruct (_ <=? _)%Z.
Qed.

Lemma binary_round_number prec emax s m e :
  is_nan (binary_round prec emax s m e) = false.
Proof.
  unfold binary_round. destruct (shl_align _ _ _) as [mz ez].
  apply binary_round_aux_number. lia.
Qed.

Lemma binary_normalize_number prec emax m e s :
  is_nan (binary_normalize prec emax m e s) = false.
Proof. destruct m; simpl; [done | apply binary_round_number ..]. Qed.

Lemma double_of_float_number x :
  is_nan x = false -> is_nan (double_of_float x) = false.
Proof. destruct x; simpl; try done. intros _. apply binary_round_number. Qed.

Lemma float_of_double_number x :
  is_nan x = false -> is_nan (float_of_double x) = false.
Proof. destruct x; simpl; try done. intros _. apply binary_round_number. Qed.

Lemma SFadd_finite_number prec emax x s m e :
  is_nan x = false -> is_nan (SFadd prec emax x (S754_finite s m e)) = false.
Proof.
  destruct x; simpl; try done. intros _. apply binary_normalize_number.
Qed.

Lemma SFsub_finite_number prec emax x s m e :
  is_nan x = false -> is_nan (SFsub prec emax x (S754_finite s m e)) = false.
Proof.
  destruct x; simpl; try done. intros _. apply binary_normalize_number.
Qed.

Lemma mfact_in_range_finite f :
  mfact_in_range f = true -> exists s m e, f = S754_finite s m e.
Proof.
  destruct f as [s|s| |s m e]; try (destruct s; discriminate); try discriminate.
  eauto.
Qed.

Lemma setmfact_candidate_number arg_f M :
  is_nan arg_f = false -> mfact_in_range (mfact M) = true ->
  is_nan (setmfact_candidate arg_f M) = false.
Proof.
  intros Ha Hr. unfold setmfact_candidate.
  apply float_of_double_number.
  destruct (SFltb _ _).
  - apply double_of_float_number.
    destruct (mfact_in_range_finite _ Hr) as (s & m & e & ->).
    by apply SFadd_finite_number.
  - apply SFsub_finite_number. by apply double_of_float_number.
Qed.

Lemma mfact_accepted_in_range f :
  is_nan f = false -> mfact_accepted f = true -> mfact_in_range f = true.
Proof.
  intros Hn. unfold mfact_accepted, mfact_in_range.
  rewrite negb_true_iff, orb_false_iff. intros [H1 H2].
  apply double_of_float_number in Hn.
  rewrite (not_SFltb_SFleb (double_of_float f) d_0_05 Hn eq_refl H1).
  by rewrite (not_SFltb_SFleb d_0_95 (double_of_float f) eq_refl Hn H2).
Qed.

(** *** [setmfact] *)

Lemma mfact_arrange st m m' :
  mfact (the_mon (arrange cfg m st) m') = mfact (the_mon st m').
Proof.
  exact (f_equal mfact (layout_frame_mon _ _ m' (layout_frame_arrange m st))).
Qed.

Lemma setmfact_cases st arg_f :
  setmfact cfg arg_f st =
  let sel := selected_monitor st in
  let f := setmfact_candidate arg_f (the_mon st sel) in
  if has_arrange st sel && mfact_accepted f
  then arrange cfg (Some sel) (upd_mon sel (mset_mfact f) st)
  else st.
Proof.
  unfold setmfact, mfact_accepted. cbv zeta.
  destruct (has_arrange st _); [|done]. simpl.
  by destruct (_ || _).
Qed.

(** C3 (amended): [setmfact] leaves the state alone when the current
    layout has no arrange function.  Otherwise the candidate factor is
    [mfact + f] when [f < 1] and [f - 1] when [f >= 1]; a candidate
    below 0.05 or above 0.95 is rejected and [mfact] keeps its old
    value (it is not clamped to the bound), any other candidate
    becomes the new [mfact].  Hence, for an argument that is a number,
    [mfact] stays in [0.05, 0.95] once it is there. *)
Theorem setmfact_accepts_or_keeps st arg_f :
  live_mon st (selected_monitor st) ->
  let sel := selected_monitor st in
  let M := the_mon st sel in
  let f := setmfact_candidate arg_f M in
  let M' := the_mon (setmfact cfg arg_f st) sel in
  (has_arrange st sel = true -> mfact_accepted f = true -> mfact M' = f)
  /\ (has_arrange st sel = false \/ mfact_accepted f = false ->
      mfact M' = mfact M)
  /\ (is_nan arg_f = false -> mfact_in_range (mfact M) = true ->
      mfact_in_range (mfact M') = true).
Proof.
  intros Hlive sel M f M'.
  assert (Hacc : has_arrange st sel = true -> mfact_accepted f = true ->
                 mfact M' = f).
  { intros Ha Hf. unfold M'. rewrite setmfact_cases. cbv zeta.
    fold sel. fold M. fold f. rewrite Ha, Hf. cbn [andb].
    rewrite mfact_arrange. by rewrite the_mon_upd_mon_eq. }
  assert (Hrej : has_arrange st sel = false \/ mfact_accepted f = false ->
                 mfact M' = mfact M).
  { intros H. unfold M'. rewrite setmfact_cases. cbv zeta.
    fold sel. fold M. fold f.
    destruct H as [-> | ->]; [done|]. by rewrite andb_false_r. }
  split; [done|]. split; [done|].
  intros Hn Hr.
  destruct (has_arrange st sel) eqn:Ha; [|by rewrite Hrej; auto].
  destruct (mfact_accepted f) eqn:Hf; [|by rewrite Hrej; auto].
  rewrite Hacc by done.
  apply mfact_accepted_in_range; [|done].
  by apply setmfact_candidate_number.
Qed.

(** ** The number of masters *)

Lemma masters_count_arrange st m m' :
  masters_count (the_mon (arrange cfg m st) m')
  = masters_count (the_mon st m').
Proof.
  exact (f_equal masters_count
           (layout_frame_mon _ _ m' (layout_frame_arrange m st))).
Qed.

Lemma change_masters_count_value st arg_i :
  live_mon st (selected_monitor st) ->
  masters_count (the_mon (change_masters_count cfg arg_i st) (selected_monitor st))
  = MAX (uint (masters_count (the_mon st (selected_monitor st)) + arg_i)) 1.
Proof.
  intros Hl. unfold change_masters_count.
  rewrite masters_count_arrange. by rewrite the_mon_upd_mon_eq.
Qed.

(** The new count is never below 1, and it is the clamped sum as
    long as the sum is not negative. *)
Lemma change_masters_count_clamps st arg_i :
  live_mon st (selected_monitor st) ->
  let n := masters_count (the_mon st (selected_monitor st)) in
  let n' := masters_count
              (the_mon (change_masters_count cfg arg_i st) (selected_monitor st)) in
  1 <= n'
  /\ (0 <= n + arg_i < 2 ^ 32 -> n' = Z.max (n + arg_i) 1).
Proof.
  intros Hl n n'. unfold n'. rewrite change_masters_count_value by done.
  fold n. rewrite MAX_spec. split; [lia|].
  intros H. unfold uint. rewrite Z.mod_small by lia. done.
Qed.

(** ** Size hints *)

(** The last two steps of the hint block are [MAX(.., min)] and then
    [MIN(.., max)]: whatever came before, the width ends at least at
    the smaller of the two hints, and at most at the max hint. *)
Lemma apply_hints_bounds C w h b :
  let r := apply_hints C w h in
  (b <= minw C -> maxw C = 0 \/ b <= maxw C -> b <= r.1)
  /\ (b <= minh C -> maxh C = 0 \/ b <= maxh C -> b <= r.2)
  /\ (maxw C <> 0 -> r.1 <= maxw C)
  /\ (maxh C <> 0 -> r.2 <= maxh C).
Proof.
  unfold apply_hints.
  destruct (_ && _); destruct (adjust_aspect C _ _) as [w2 h2]; simpl;
    rewrite !MAX_spec;
    destruct (Z.eqb_spec (maxw C) 0); destruct (Z.eqb_spec (maxh C) 0);
    rewrite ?MIN_spec; repeat split; intros; lia.
Qed.

(** Taking the base size off and putting it back is exact in [int]
    arithmetic, whatever the base size is. *)
Lemma int_sub_add w b : fits_int w -> int (int (w - b) + b) = w.
Proof.
  intros Hw. unfold int.
  replace ((w - b + 2 ^ 31) mod 2 ^ 32 - 2 ^ 31 + b + 2 ^ 31)
    with ((w - b + 2 ^ 31) mod 2 ^ 32 + b) by lia.
  rewrite Zplus_mod_idemp_l.
  replace (w - b + 2 ^ 31 + b) with (w + 2 ^ 31) by lia.
  unfold fits_int, INT_MIN, INT_MAX in Hw.
  rewrite Z.mod_small by lia. lia.
Qed.

(** Without an increment hint of the axis and without aspect hints
    the hint block does not shrink: the size only passes [MAX(.., min)]
    and [MIN(.., max)]. *)
Lemma apply_hints_keeps C w h b :
  no_aspect_hint C ->
  let r := apply_hints C w h in
  (b <= w -> fits_int w -> incw C = 0 -> maxw C = 0 \/ b <= maxw C -> b <= r.1)
  /\ (b <= h -> fits_int h -> inch C = 0 -> maxh C = 0 \/ b <= maxh C -> b <= r.2).
Proof.
  intros Ha. unfold apply_hints, adjust_aspect. unfold no_aspect_hint in Ha.
  rewrite Ha.
  destruct ((basew C =? minw C) && (baseh C =? minh C)); cbn [fst snd];
    (split; intros Hb Hf Hi Hm; rewrite Hi; cbn [Z.eqb];
     rewrite int_sub_add by done; rewrite MAX_spec;
     [destruct (Z.eqb_spec (maxw C) 0) | destruct (Z.eqb_spec (maxh C) 0)];
     rewrite ?MIN_spec; lia).
Qed.

(** C5 (amended): the width and height [applysizehints] returns are
    at least the bar height [bh] unless the ICCCM hint block runs
    and can shrink that axis.  The bound holds when the block does
    not run (hints not respected, client tiled, layout with an
    arrange function); and, when it runs, for an axis whose max hint
    is unset (0) or at least [bh] and whose min hint is at least
    [bh] or which has no increment hint while the client has no
    aspect hints (as for a client without size hints).  With a max
    hint below [bh] the hint block, which comes after the [bh]
    floor, cuts the size down to the hint. *)
Theorem applysizehints_at_least_bh st c x y w h interact :
  let C := the_client st c in
  let r := (applysizehints cfg st c x y w h interact).1 in
  (hints_apply cfg st c = false
   \/ ((maxw C = 0 \/ bh st <= maxw C)
       /\ (bh st <= minw C
           \/ (incw C = 0 /\ no_aspect_hint C
               /\ fits_int w /\ fits_int (bh st)))) ->
   bh st <= r.1.2)
  /\ (hints_apply cfg st c = false
      \/ ((maxh C = 0 \/ bh st <= maxh C)
          /\ (bh st <= minh C
              \/ (inch C = 0 /\ no_aspect_hint C
                  /\ fits_int h /\ fits_int (bh st)))) ->
      bh st <= r.2).
Proof.
  intros C r. unfold r, applysizehints. fold C.
  destruct (clamp_position _ _ _ _ _ _ _) as [x' y'].
  set (hB := if MAX 1 h <? bh st then bh st else MAX 1 h).
  set (wB := if MAX 1 w <? bh st then bh st else MAX 1 w).
  assert (Hw : bh st <= wB)
    by (unfold wB; destruct (Z.ltb_spec (MAX 1 w) (bh st)); lia).
  assert (Hh : bh st <= hB)
    by (unfold hB; destruct (Z.ltb_spec (MAX 1 h) (bh st)); lia).
  assert (Fw : fits_int w -> fits_int (bh st) -> fits_int wB).
  { unfold wB. rewrite MAX_spec. unfold fits_int, INT_MIN, INT_MAX.
    destruct (Z.ltb_spec (Z.max 1 w) (bh st)); lia. }
  assert (Fh : fits_int h -> fits_int (bh st) -> fits_int hB).
  { unfold hB. rewrite MAX_spec. unfold fits_int, INT_MIN, INT_MAX.
    destruct (Z.ltb_spec (Z.max 1 h) (bh st)); lia. }
  pose proof (apply_hints_bounds C wB hB (bh st)) as (Bw & Bh & _).
  pose proof (apply_hints_keeps C wB hB (bh st)) as K.
  destruct (hints_apply cfg st c);
    destruct (apply_hints C wB hB) as [w' h']; cbn [fst snd] in *;
    split; intros [?|[Hmax [Hmin|(Hi & Ha & F1 & F2)]]]; try done; auto.
  - destruct (K Ha) as [Kw _]. auto.
  - destruct (K Ha) as [_ Kh]. auto.
Qed.

Ltac int_simp :=
  repeat match goal with
         | |- context [int ?e] =>
             rewrite (int_id e) by (unfold fits_int, INT_MIN, INT_MAX; lia)
         end.

Ltac split_ltb :=
  match goal with
  | |- context [?a <? ?b] => destruct (Z.ltb_spec a b)
  | |- context [?a <=? ?b] => destruct (Z.leb_spec a b)
  end; cbv iota.

(** One axis of the position step, applied to its own result with a
    length that did not shrink. *)
Lemma clamp_axis_idem interact lo ext scr size bw2 p len len' :
  screen_scale lo -> screen_scale ext -> screen_scale scr ->
  - 2 ^ 26 <= size <= 2 ^ 26 -> - 2 ^ 25 <= bw2 <= 2 ^ 25 ->
  screen_scale p -> screen_scale len -> screen_scale len' ->
  0 < ext -> 0 <= scr -> len <= len' ->
  clamp_axis interact lo ext scr size bw2
    (clamp_axis interact lo ext scr size bw2 p len) len'
  = clamp_axis interact lo ext scr size bw2 p len.
Proof.
  unfold screen_scale. intros.
  set (p1 := clamp_axis interact lo ext scr size bw2 p len).
  assert (Hp1 : - 2 ^ 27 <= p1 <= 2 ^ 27 /\
     if interact then
       (p1 = 0 \/ (0 <= p1 + len + bw2 /\ (p1 <= scr \/ p1 = scr - size)))
     else
       (p1 = lo \/ (lo < p1 + len + bw2
                    /\ (p1 < lo + ext \/ p1 = lo + ext - size)))).
  { unfold p1, clamp_axis. destruct interact.
    - destruct (Z.ltb_spec scr p); cbv iota; int_simp; split_ltb; lia.
    - int_simp. destruct (Z.leb_spec (lo + ext) p); cbv iota; int_simp;
        split_ltb; lia. }
  clearbody p1. destruct Hp1 as [Hr Hc].
  unfold clamp_axis. destruct interact.
  - destruct (Z.ltb_spec scr p1); cbv iota; int_simp; split_ltb; lia.
  - int_simp. destruct (Z.leb_spec (lo + ext) p1); cbv iota; int_simp;
      split_ltb; lia.
Qed.

Lemma clamp_position_axes st c x y w h interact :
  let C := the_client st c in
  let M := the_mon st (monitor C) in
  let bw2 := int (2 * border_width C) in
  clamp_position st c x y w h interact
  = (clamp_axis interact (wx M) (ww M) (sw st) (WIDTH C) bw2 x w,
     clamp_axis interact (wy M) (wh M) (sh st) (HEIGHT C) bw2 y h).
Proof. unfold clamp_position, clamp_axis. by destruct interact. Qed.

(** The result of [applysizehints], step by step. *)
Lemma applysizehints_result st c x y w h interact :
  let C := the_client st c in
  let wA := MAX 1 w in
  let hA := MAX 1 h in
  let p := clamp_position st c x y wA hA interact in
  let hB := if hA <? bh st then bh st else hA in
  let wB := if wA <? bh st then bh st else wA in
  let s := if hints_apply cfg st c then apply_hints C wB hB else (wB, hB) in
  (applysizehints cfg st c x y w h interact).1 = (p.1, p.2, s.1, s.2).
Proof.
  cbv zeta. unfold applysizehints.
  destruct (clamp_position _ _ _ _ _ _ _) as [x' y'].
  by destruct (if hints_apply cfg st c then _ else _) as [w' h'].
Qed.

Lemma apply_hints_no_size_hints C w h :
  no_size_hints C -> 0 <= w -> 0 <= h -> fits_int w -> fits_int h ->
  apply_hints C w h = (w, h).
Proof.
  intros (Hbw & Hbh & Hmw & Hmh & HMw & HMh & Hiw & Hih & Ha) Hw Hh Fw Fh.
  unfold apply_hints, adjust_aspect.
  rewrite Hbw, Hbh, Hmw, Hmh, HMw, HMh, Hiw, Hih, Ha. simpl.
  rewrite !Z.sub_0_r, !Z.add_0_r. rewrite !(int_id w), !(int_id h) by done.
  rewrite !MAX_spec. f_equal; lia.
Qed.

(** C6 (amended): [applysizehints] is idempotent when no size hints
    come into play -- the ICCCM hint block is skipped, or the client
    has no hints -- on coordinates of screen magnitude: applying it to
    the rectangle it returned, with the same [interact] flag and
    unchanged client fields, returns that rectangle.  (With hints in
    play a second application can return a different rectangle.) *)
Theorem applysizehints_idempotent_without_hints st c x y w h interact :
  hints_apply cfg st c = false \/ no_size_hints (the_client st c) ->
  geometry_at_screen_scale st c ->
  screen_scale x -> screen_scale y -> screen_scale w -> screen_scale h ->
  let r := (applysizehints cfg st c x y w h interact).1 in
  (applysizehints cfg st c r.1.1.1 r.1.1.2 r.1.2 r.2 interact).1 = r.
Proof.
  intros Hh (Hsc & Hww & Hwh & Hsw & Hsh) Hx Hy Hw Hhh.
  repeat (apply Forall_cons in Hsc as [? Hsc]). clear Hsc.
  set (C := the_client st c) in *.
  set (M := the_mon st (monitor C)) in *.
  unfold screen_scale in *.
  cbv zeta. rewrite (applysizehints_result st c x y w h). cbv zeta. fold C.
  set (wA := MAX 1 w). set (hA := MAX 1 h).
  set (hB := if hA <? bh st then bh st else hA).
  set (wB := if wA <? bh st then bh st else wA).
  assert (HwA : 1 <= wA <= 2 ^ 24) by (unfold wA; rewrite MAX_spec; lia).
  assert (HhA : 1 <= hA <= 2 ^ 24) by (unfold hA; rewrite MAX_spec; lia).
  assert (HwB : wA <= wB <= 2 ^ 24)
    by (unfold wB; destruct (Z.ltb_spec wA (bh st)); lia).
  assert (HhB : hA <= hB <= 2 ^ 24)
    by (unfold hB; destruct (Z.ltb_spec hA (bh st)); lia).
  assert (Hs : (if hints_apply cfg st c then apply_hints C wB hB else (wB, hB))
               = (wB, hB)).
  { destruct (hints_apply cfg st c); [|done].
    destruct Hh as [?|Hn]; [done|].
    apply apply_hints_no_size_hints; try done; try lia;
      unfold fits_int, INT_MIN, INT_MAX; lia. }
  rewrite Hs. cbn [fst snd].
  rewrite (applysizehints_result st c _ _ wB hB). cbv zeta. fold C.
  assert (E1 : MAX 1 wB = wB) by (rewrite MAX_spec; lia).
  assert (E2 : MAX 1 hB = hB) by (rewrite MAX_spec; lia).
  rewrite E1, E2.
  assert (E3 : (if wB <? bh st then bh st else wB) = wB).
  { unfold wB. destruct (Z.ltb_spec wA (bh st)).
    - by rewrite Z.ltb_irrefl.
    - destruct (Z.ltb_spec wA (bh st)); [lia | done]. }
  assert (E4 : (if hB <? bh st then bh st else hB) = hB).
  { unfold hB. destruct (Z.ltb_spec hA (bh st)).
    - by rewrite Z.ltb_irrefl.
    - destruct (Z.ltb_spec hA (bh st)); [lia | done]. }
  rewrite E3, E4, Hs. cbn [fst snd].
  rewrite !clamp_position_axes. cbv zeta. fold C. fold M. cbn [fst snd].
  assert (Hbw2 : int (2 * border_width C) = 2 * border_width C)
    by (apply int_id; unfold fits_int, INT_MIN, INT_MAX; lia).
  assert (HW : WIDTH C = c_w C + 2 * border_width C).
  { unfold WIDTH. rewrite Hbw2. apply int_id.
    unfold fits_int, INT_MIN, INT_MAX; lia. }
  assert (HH : HEIGHT C = c_h C + 2 * border_width C).
  { unfold HEIGHT. rewrite Hbw2. apply int_id.
    unfold fits_int, INT_MIN, INT_MAX; lia. }
  rewrite Hbw2, HW, HH.
  rewrite !clamp_axis_idem; unfold screen_scale; try lia. done.
Qed.

(** ** Fullscreen *)

Lemma resize_other st c c' x y w h i :
  c <> c' -> the_client (resize cfg c x y w h i st) c' = the_client st c'.
Proof.
  intros Hne. unfold resize.
  destruct (applysizehints _ _ _ _ _ _ _ _) as [[[[x' y'] w'] h'] []]; [|done].
  by apply the_client_upd_client_ne.
Qed.

Lemma layout_frame_ISVISIBLE st st' c :
  layout_frame st' = layout_frame st -> ISVISIBLE st' c = ISVISIBLE st c.
Proof. intros H. by apply tag_frame_ISVISIBLE, layout_frame_tag_frame. Qed.

Lemma layout_frame_is_tiled st st' c :
  layout_frame st' = layout_frame st -> is_tiled st' c = is_tiled st c.
Proof.
  intros H. unfold is_tiled. rewrite (layout_frame_ISVISIBLE _ _ c H).
  by rewrite (f_equal isfloating (layout_frame_client _ _ c H)
              : isfloating (the_client st' c) = isfloating (the_client st c)).
Qed.

(** Laying out does not touch a client that is not visible. *)
Lemma showhide_hidden l st c :
  ISVISIBLE st c = false -> the_client (showhide cfg l st) c = the_client st c.
Proof.
  revert st. induction l as [|d r IH]; intros st Hc; simpl; [done|].
  destruct (ISVISIBLE st d) eqn:Hd; [|by apply IH].
  destruct (_ && _); [|by apply IH].
  assert (d <> c) by (intros ->; congruence).
  rewrite IH.
  - by apply resize_other.
  - by rewrite (layout_frame_ISVISIBLE st) by apply layout_frame_resize.
Qed.

Lemma tile_loop_untiled m n mw_ l idx my_ ty st c :
  is_tiled st c = false ->
  the_client (tile_loop cfg m n mw_ l idx my_ ty st) c = the_client st c.
Proof.
  revert idx my_ ty st.
  induction l as [|d r IH]; intros idx my_ ty st Hc; simpl; [done|].
  destruct (is_tiled st d) eqn:Hd; [|by apply IH].
  assert (d <> c) by (intros ->; congruence).
  destruct (idx <? _); rewrite IH;
    try (by apply resize_other);
    by rewrite (layout_frame_is_tiled st) by apply layout_frame_resize.
Qed.

Lemma monocle_loop_untiled m l st c :
  is_tiled st c = false ->
  the_client (monocle_loop cfg m l st) c = the_client st c.
Proof.
  revert st. induction l as [|d r IH]; intros st Hc; simpl; [done|].
  destruct (is_tiled st d) eqn:Hd; [|by apply IH].
  assert (d <> c) by (intros ->; congruence).
  rewrite IH.
  - by apply resize_other.
  - by rewrite (layout_frame_is_tiled st) by apply layout_frame_resize.
Qed.

Lemma arrangemon_untiled m st c :
  is_tiled st c = false -> the_client (arrangemon cfg m st) c = the_client st c.
Proof.
  intros Hc. unfold arrangemon.
  assert (Hc' : is_tiled (copy_layout_symbol m st) c = false)
    by (by rewrite (layout_frame_is_tiled st)
          by apply layout_frame_copy_layout_symbol).
  destruct (lt_arrange _) as [[]|]; [| |done].
  - unfold tile. destruct (_ =? 0); [done|]. by rewrite tile_loop_untiled.
  - unfold monocle. by rewrite monocle_loop_untiled.
Qed.

Lemma arrange_hidden m st c :
  ISVISIBLE st c = false ->
  the_client (arrange cfg (Some m) st) c = the_client st c.
Proof.
  intros Hc. simpl. rewrite arrangemon_untiled.
  - by apply showhide_hidden.
  - unfold is_tiled.
    rewrite (layout_frame_ISVISIBLE st) by apply layout_frame_showhide.
    by rewrite Hc, andb_false_r.
Qed.

Lemma the_mon_upd_client st c f m : the_mon (upd_client c f st) m = the_mon st m.
Proof. reflexivity. Qed.

Lemma setfullscreen_on st c :
  live_client st c -> isfullscreen (the_client st c) = false ->
  let C := the_client st c in
  let M := the_mon st (monitor C) in
  setfullscreen cfg c true st
  = upd_client c (fun C =>
      cset_geometry (mx M) (my M) (mw M) (mh M)
        (cset_old_geometry (c_x C) (c_y C) (c_w C) (c_h C)
           (cset_isfloating true
              (cset_border_width 0
                 (cset_old_border_width (border_width C)
                    (cset_oldstate (isfloating C)
                       (cset_isfullscreen true C))))))) st.
Proof.
  intros Hl Hfs C M. unfold setfullscreen. rewrite Hfs. cbn [andb negb].
  unfold resizeclient.
  rewrite the_client_upd_client_eq by done. fold C.
  rewrite the_mon_upd_client.
  change (monitor (cset_isfloating _ _)) with (monitor C). fold M.
  unfold upd_client. cbn [cl set_client_store]. rewrite alter_alter_eq.
  reflexivity.
Qed.

Lemma setfullscreen_round_trip st c :
  live_client st c -> isfullscreen (the_client st c) = false ->
  setfullscreen cfg c false (setfullscreen cfg c true st)
  = arrange cfg (Some (monitor (the_client st c)))
      (upd_client c after_fullscreen_round_trip st).
Proof.
  intros Hl Hfs. rewrite setfullscreen_on by done.
  set (C0 := the_client st c) in *.
  set (M := the_mon st (monitor C0)).
  set (f_on := fun C : Client => cset_geometry _ _ _ _ _).
  set (st1 := upd_client c f_on st).
  assert (H1 : the_client st1 c = f_on C0)
    by (by apply the_client_upd_client_eq).
  assert (Hl1 : live_client st1 c) by (by apply live_client_upd_client).
  unfold setfullscreen. rewrite H1.
  change (isfullscreen (f_on C0)) with true. cbn [andb negb].
  set (f_off := fun C : Client => cset_geometry _ _ _ _ _).
  set (st2 := upd_client c f_off st1).
  assert (H2 : the_client st2 c = f_off (f_on C0)).
  { unfold st2. rewrite the_client_upd_client_eq by done. by rewrite H1. }
  assert (Hl2 : live_client st2 c) by (by apply live_client_upd_client).
  rewrite H2.
  set (st3 := resizeclient c _ _ _ _ st2).
  assert (H3 : st3 = upd_client c after_fullscreen_round_trip st).
  { unfold st3, resizeclient, st2, st1, upd_client. cbn [cl set_client_store].
    rewrite !alter_alter_eq. unfold set_client_store. cbn. f_equal. apply alter_ext.
    intros x Hx.
    assert (EC : C0 = x) by (by apply lookup_total_correct).
    unfold f_on, f_off. clearbody C0 M. subst C0.
    destruct x. simpl in *. subst. reflexivity. }
  rewrite H3. do 2 f_equal.
  rewrite the_client_upd_client_eq by done. done.
Qed.

(** C9 (amended): for a client that is not fullscreen,
    [setfullscreen(c, 1)] makes its geometry the monitor's screen
    rectangle with border width 0 and [isfloating] set;
    [setfullscreen(c, 0)] right after restores border width and
    floating state, puts the old geometry back and then runs
    [arrange] on the client's monitor.  The final geometry is the one
    that [arrange] leaves: it is the geometry from before the first
    call whenever [arrange] does not resize the client, as for a
    client that is not visible on its monitor. *)
Theorem setfullscreen_round_trip_restores st c :
  live_client st c -> isfullscreen (the_client st c) = false ->
  let C0 := the_client st c in
  let M := the_mon st (monitor C0) in
  let st1 := setfullscreen cfg c true st in
  let C1 := the_client st1 c in
  let st2 := setfullscreen cfg c false st1 in
  let C2 := the_client st2 c in
  (c_x C1, c_y C1, c_w C1, c_h C1) = (mx M, my M, mw M, mh M)
  /\ border_width C1 = 0 /\ isfloating C1 = true /\ isfullscreen C1 = true
  /\ border_width C2 = border_width C0
  /\ isfloating C2 = isfloating C0
  /\ isfullscreen C2 = false
  /\ st2 = arrange cfg (Some (monitor C0))
             (upd_client c after_fullscreen_round_trip st)
  /\ (ISVISIBLE st c = false ->
      (c_x C2, c_y C2, c_w C2, c_h C2) = (c_x C0, c_y C0, c_w C0, c_h C0)).
Proof.
  intros Hl Hfs C0 M st1 C1 st2 C2.
  assert (E1 : C1 = cset_geometry (mx M) (my M) (mw M) (mh M)
                 (cset_old_geometry (c_x C0) (c_y C0) (c_w C0) (c_h C0)
                    (cset_isfloating true
                       (cset_border_width 0
                          (cset_old_border_width (border_width C0)
                             (cset_oldstate (isfloating C0)
                                (cset_isfullscreen true C0))))))).
  { unfold C1, st1. rewrite setfullscreen_on by done.
    by rewrite the_client_upd_client_eq. }
  assert (E2 : st2 = arrange cfg (Some (monitor C0))
                       (upd_client c after_fullscreen_round_trip st))
    by (by apply setfullscreen_round_trip).
  set (st' := upd_client c after_fullscreen_round_trip st) in *.
  assert (E3 : the_client st' c = after_fullscreen_round_trip C0)
    by (by apply the_client_upd_client_eq).
  assert (E4 : erase_geom C2 = erase_geom (after_fullscreen_round_trip C0)).
  { unfold C2. rewrite E2, <- E3.
    apply layout_frame_client, layout_frame_arrange. }
  rewrite E1. repeat (split; [reflexivity|]).
  split; [exact (f_equal border_width E4)|].
  split; [exact (f_equal isfloating E4)|].
  split; [exact (eq_trans (f_equal isfullscreen E4) Hfs)|].
  split; [exact E2|].
  intros Hv. unfold C2. rewrite E2, arrange_hidden.
  - by rewrite E3.
  - unfold ISVISIBLE in *. by rewrite E3.
Qed.

(** ** The tags of clients *)

Lemma land_masked_idem t m : Z.land (Z.land t m) m = Z.land t m.
Proof. by rewrite <- Z.land_assoc, Z.land_diag. Qed.

Lemma tags_ok_land t :
  Z.land t (TAGMASK cfg) <> 0 -> tags_ok cfg (Z.land t (TAGMASK cfg)).
Proof. intros H. split; [done | apply land_masked_idem]. Qed.

Lemma tag_bit_masked i : Z.land (tag_bit cfg i) (TAGMASK cfg) = tag_bit cfg i.
Proof. apply land_masked_idem. Qed.

Lemma tags_ok_tag_bit i : tag_bit cfg i <> 0 -> tags_ok cfg (tag_bit cfg i).
Proof. intros H. split; [done | apply tag_bit_masked]. Qed.

Lemma tags_ok_lxor a b :
  Z.land a (TAGMASK cfg) = a -> Z.land b (TAGMASK cfg) = b ->
  Z.lxor a b <> 0 -> tags_ok cfg (Z.lxor a b).
Proof.
  intros Ha Hb Hn. split; [done|].
  apply Z.bits_inj'. intros n Hn0.
  rewrite Z.land_spec, !Z.lxor_spec.
  rewrite <- Ha, <- Hb at 2. rewrite !Z.land_spec.
  by destruct (Z.testbit a n), (Z.testbit b n), (Z.testbit (TAGMASK cfg) n).
Qed.

Lemma tags_ok_nonzero t : tags_ok cfg t -> Z.land t (TAGMASK cfg) <> 0.
Proof. intros [Hn Hm]. by rewrite Hm. Qed.

Lemma tagset_lookup_masked M i :
  Forall (tags_ok cfg) (tagset M) ->
  Z.land (default 0 (tagset M !! i)) (TAGMASK cfg) = default 0 (tagset M !! i).
Proof.
  intros HF.
  destruct (tagset M !! i) as [t|] eqn:E; simpl; [|done].
  rewrite Forall_lookup in HF. by destruct (HF i t E).
Qed.

Lemma current_tags_masked st m :
  monitors_ok cfg st ->
  Z.land (current_tags st m) (TAGMASK cfg) = current_tags st m.
Proof.
  intros [HM _]. unfold current_tags, the_mon.
  rewrite lookup_total_alt. destruct (mon st !! m) as [M|] eqn:E; simpl.
  - apply tagset_lookup_masked. by destruct (HM m M E).
  - reflexivity.
Qed.

Lemma current_tags_ok st m :
  monitors_ok cfg st -> live_mon st m -> tags_ok cfg (current_tags st m).
Proof.
  intros [HM _] [M E]. unfold current_tags, the_mon.
  rewrite (lookup_total_correct _ _ _ E).
  destruct (HM m M E) as [[Hlen Hsel] HF].
  rewrite Forall_lookup in HF.
  destruct (lookup_lt_is_Some_2 (tagset M) (Z.to_nat (selected_tags_set M)))
    as [t Ht]; [rewrite Hlen; destruct Hsel as [-> | ->]; simpl; lia|].
  rewrite Ht. simpl. eauto.
Qed.

Lemma client_tags_masked st c :
  map_Forall (fun _ C => tags_ok cfg (tags C)) (cl st) ->
  Z.land (tags (the_client st c)) (TAGMASK cfg) = tags (the_client st c).
Proof.
  intros HC. unfold the_client. rewrite lookup_total_alt.
  destruct (cl st !! c) as [C|] eqn:E; simpl; [|done].
  by destruct (HC c C E).
Qed.

Lemma map_Forall_alter {A} (P : nat -> A -> Prop) (f : A -> A) k (m : gmap nat A) :
  (forall x, m !! k = Some x -> P k x -> P k (f x)) ->
  map_Forall P m -> map_Forall P (alter f k m).
Proof.
  intros Hf Hm j y. rewrite lookup_alter_Some.
  intros [(<- & x & Hx & ->) | (_ & Hy)]; [|by apply Hm].
  apply Hf; [done | by apply Hm].
Qed.

Lemma monitors_ok_upd_mon st m f :
  (forall M, tagset_ok cfg M -> tagset_ok cfg (f M)) ->
  monitors_ok cfg st -> monitors_ok cfg (upd_mon m f st).
Proof.
  intros Hf [HM HL]. split.
  - apply map_Forall_alter; [|done]. intros; by apply Hf.
  - simpl. eapply Forall_impl; [exact HL|].
    intros m' ?. by apply live_mon_upd_mon.
Qed.

Lemma tags_inv_upd_mon st m f :
  (forall M, tagset_ok cfg M -> tagset_ok cfg (f M)) ->
  tags_inv cfg st -> tags_inv cfg (upd_mon m f st).
Proof. intros Hf [HM HC]. split; [by apply monitors_ok_upd_mon | done]. Qed.

Lemma tags_inv_upd_client st c f :
  (forall C, cl st !! c = Some C -> tags_ok cfg (tags (f C))) ->
  tags_inv cfg st -> tags_inv cfg (upd_client c f st).
Proof.
  intros Hf [HM HC]. split; [done|].
  apply map_Forall_alter; [|done]. intros; by apply Hf.
Qed.

Lemma tags_inv_tag_frame st st' :
  tag_frame st' = tag_frame st -> tags_inv cfg st -> tags_inv cfg st'.
Proof.
  intros H [[HM HL] HC].
  injection H as Hmons Hmon Hcl.
  split; [split|].
  - intros m M' E'.
    assert (E : erase_focus <$> mon st !! m = Some (erase_focus M'))
      by (by rewrite <- lookup_fmap, <- Hmon, lookup_fmap, E').
    destruct (mon st !! m) as [M|] eqn:EM; [|done].
    apply (inj Some) in E. specialize (HM m M EM).
    destruct HM as [Hs HF]. split.
    + unfold tagset_shape in *.
      by rewrite <- (f_equal tagset E : tagset M = tagset M'),
        <- (f_equal selected_tags_set E
            : selected_tags_set M = selected_tags_set M').
    + by rewrite <- (f_equal tagset E : tagset M = tagset M').
  - rewrite Hmons. eapply Forall_impl; [exact HL|].
    intros m [M EM]. unfold live_mon.
    assert (E : is_Some (erase_focus <$> mon st' !! m))
      by (rewrite <- lookup_fmap, Hmon, lookup_fmap, EM; eauto).
    by apply fmap_is_Some in E.
  - intros c C' E'.
    assert (E : erase_urgent <$> cl st !! c = Some (erase_urgent C'))
      by (by rewrite <- lookup_fmap, <- Hcl, lookup_fmap, E').
    destruct (cl st !! c) as [C|] eqn:EC; [|done].
    apply (inj Some) in E. specialize (HC c C EC). simpl in HC.
    by rewrite <- (f_equal tags E : tags C = tags C').
Qed.

Lemma tags_inv_focus st c : tags_inv cfg st -> tags_inv cfg (focus c st).
Proof. apply tags_inv_tag_frame, tag_frame_focus. Qed.

Lemma tags_inv_arrange st m :
  tags_inv cfg st -> tags_inv cfg (arrange cfg m st).
Proof. apply tags_inv_tag_frame, tag_frame_arrange. Qed.

Lemma tagset_ok_set_tags M t :
  tags_ok cfg t -> tagset_ok cfg M ->
  tagset_ok cfg
    (mset_tagset (<[Z.to_nat (selected_tags_set M) := t]> (tagset M)) M).
Proof.
  intros Ht [[Hlen Hsel] HF]. split; [split|]; simpl.
  - by rewrite length_insert.
  - done.
  - by apply Forall_insert.
Qed.

Lemma tags_inv_set_tags st m t :
  tags_ok cfg t -> tags_inv cfg st -> tags_inv cfg (set_tags m t st).
Proof.
  intros Ht. apply tags_inv_upd_mon. intros M. by apply tagset_ok_set_tags.
Qed.

Lemma tags_inv_view st i : tags_inv cfg st -> tags_inv cfg (view cfg i st).
Proof.
  intros H. unfold view. destruct (_ =? current_tags _ _); [done|].
  apply tags_inv_arrange, tags_inv_focus.
  apply tags_inv_upd_mon; [by intros M [??]|].
  assert (H1 : tags_inv cfg (swap_selected_tags (selected_monitor st) st)).
  { apply tags_inv_upd_mon; [|done]. intros M [Hs HF]. split; [|done].
    by apply tagset_shape_swap. }
  destruct (Z.eqb_spec (tag_bit cfg i) 0); [done|].
  apply tags_inv_set_tags; [|done]. by apply tags_ok_tag_bit.
Qed.

Lemma tags_inv_toggleview st i :
  tags_inv cfg st -> tags_inv cfg (toggleview cfg i st).
Proof.
  intros H. unfold toggleview.
  destruct (Z.eqb_spec (Z.lxor (current_tags st (selected_monitor st))
                               (tag_bit cfg i)) 0); [done|].
  apply tags_inv_arrange, tags_inv_focus, tags_inv_set_tags; [|done].
  apply tags_ok_lxor; [|apply tag_bit_masked | done].
  apply current_tags_masked, H.
Qed.

Lemma tags_inv_tag st i : tags_inv cfg st -> tags_inv cfg (tag cfg i st).
Proof.
  intros H. unfold tag. destruct (selected_client _) as [c|]; [|done].
  destruct (Z.eqb_spec (tag_bit cfg i) 0); [done|].
  apply tags_inv_arrange, tags_inv_focus, tags_inv_upd_client; [|done].
  intros C _. by apply tags_ok_tag_bit.
Qed.

Lemma tags_inv_toggletag st i :
  tags_inv cfg st -> tags_inv cfg (toggletag cfg i st).
Proof.
  intros H. unfold toggletag. destruct (selected_client _) as [c|]; [|done].
  destruct (Z.eqb_spec (Z.lxor (tags (the_client st c)) (tag_bit cfg i)) 0);
    [done|].
  apply tags_inv_arrange, tags_inv_focus, tags_inv_upd_client; [|done].
  intros C _. simpl. apply tags_ok_lxor; [|apply tag_bit_masked | done].
  apply client_tags_masked, H.
Qed.

Lemma tags_inv_focusmon st dir :
  tags_inv cfg st -> tags_inv cfg (focusmon dir st).
Proof.
  intros H. unfold focusmon. destruct (single_monitor st); [done|].
  destruct (dirtomon st dir) as [m|]; [|done].
  case_decide; [done|]. by apply tags_inv_focus.
Qed.

Lemma tags_inv_detach st c :
  tags_inv cfg st -> tags_inv cfg (detachstack c (detach_client c st)).
Proof.
  intros H. apply (tags_inv_tag_frame (detach_client c st));
    [apply tag_frame_detachstack|].
  apply tags_inv_upd_mon; [|done]. by intros M [??].
Qed.

(** [sendmon] to an allocated monitor. *)
Lemma tags_inv_sendmon st c m :
  live_mon st m -> tags_inv cfg st -> tags_inv cfg (sendmon cfg c m st).
Proof.
  intros Hm H. unfold sendmon. case_decide; [done|].
  apply tags_inv_arrange, tags_inv_focus.
  set (s1 := detachstack c (detach_client c st)).
  assert (H1 : tags_inv cfg s1) by (by apply tags_inv_detach).
  assert (Hm1 : live_mon s1 m).
  { unfold s1, detachstack. case_decide; rewrite ?live_mon_upd_mon;
      by apply live_mon_upd_mon. }
  set (s2 := upd_client c (cset_monitor m) s1).
  assert (H2 : tags_inv cfg s2).
  { apply tags_inv_upd_client; [|done]. intros C EC. simpl.
    by apply (proj2 H1 c C). }
  set (s3 := upd_client c (cset_tags (current_tags s2 m)) s2).
  assert (H3 : tags_inv cfg s3).
  { apply tags_inv_upd_client; [|done]. intros C _. simpl.
    apply current_tags_ok; [apply H2 | done]. }
  apply (tags_inv_tag_frame (attach c s3)); [apply tag_frame_attachstack|].
  apply tags_inv_upd_mon; [|done]. by intros M [??].
Qed.

Lemma find_previous_monitor_elem l x p :
  find_previous_monitor_in l x = Some p -> p ∈ l.
Proof.
  induction l as [|d r IH]; simpl; [done|].
  case_decide.
  - intros [= ->]. apply list_elem_of_here.
  - intros H'. apply list_elem_of_further. auto.
Qed.

Lemma dirtomon_elem st dir m : dirtomon st dir = Some m -> m ∈ monitors st.
Proof.
  unfold dirtomon. destruct (0 <? dir).
  - destruct (next_of _ _) as [m'|] eqn:E.
    + intros [= <-]. by apply next_of_elem in E.
    + apply head_elem.
  - case_decide; apply find_previous_monitor_elem.
Qed.

Lemma tags_inv_tagmon st dir :
  tags_inv cfg st -> tags_inv cfg (tagmon cfg dir st).
Proof.
  intros H. unfold tagmon. destruct (selected_client _) as [c|]; [|done].
  destruct (single_monitor st); [done|].
  destruct (dirtomon st dir) as [m|] eqn:E; [|done].
  apply tags_inv_sendmon; [|done].
  apply dirtomon_elem in E. destruct H as [[_ HL] _].
  rewrite Forall_forall in HL. by apply HL.
Qed.

Lemma recttomon_loop_elem st x y w h l area r :
  recttomon_loop st x y w h l area r = r
  \/ recttomon_loop st x y w h l area r ∈ l.
Proof.
  revert area r. induction l as [|m l' IH]; intros area r; simpl; [by left|].
  destruct (area <? _).
  - right. destruct (IH (INTERSECT x y w h (the_mon st m)) m) as [-> | H].
    + apply list_elem_of_here.
    + by apply list_elem_of_further.
  - destruct (IH area r) as [-> | H]; [by left|].
    right. by apply list_elem_of_further.
Qed.

Lemma tags_inv_mouse_release st c :
  tags_inv cfg st -> tags_inv cfg (mouse_release cfg c st).
Proof.
  intros H. unfold mouse_release.
  set (C := the_client st c).
  set (m := recttomon st (c_x C) (c_y C) (c_w C) (c_h C)).
  case_decide as E; [done|].
  apply tags_inv_focus.
  apply (tags_inv_tag_frame (sendmon cfg c m st)); [done|].
  apply tags_inv_sendmon; [|done].
  destruct (recttomon_loop_elem st (c_x C) (c_y C) (c_w C) (c_h C)
              (monitors st) 0 (selected_monitor st)) as [Hr | Hr];
    [done|].
  destruct H as [[_ HL] _]. rewrite Forall_forall in HL. by apply HL.
Qed.

Lemma tags_inv_step st op : tags_inv cfg st -> tags_inv cfg (step cfg op st).
Proof.
  destruct op; simpl.
  - apply tags_inv_view.
  - apply tags_inv_toggleview.
  - apply tags_inv_tag.
  - apply tags_inv_toggletag.
  - apply tags_inv_tagmon.
  - apply tags_inv_mouse_release.
  - apply tags_inv_focusmon.
Qed.

Lemma tags_inv_run st ops : tags_inv cfg st -> tags_inv cfg (run cfg ops st).
Proof.
  revert st. induction ops as [|op ops IH]; intros st H; simpl; [done|].
  by apply IH, tags_inv_step.
Qed.

(** *** [applyrules] *)

Lemma monitor_with_num_elem st l n m :
  monitor_with_num st l n = Some m -> m ∈ l.
Proof.
  induction l as [|d r IH]; simpl; [done|].
  destruct (_ =? n).
  - intros [= ->]. apply list_elem_of_here.
  - intros H. apply list_elem_of_further. auto.
Qed.

Lemma rules_inv_upd_client st c f :
  (forall C, monitor (f C) = monitor C) ->
  rules_inv cfg c st -> rules_inv cfg c (upd_client c f st).
Proof.
  intros Hf [[HM HC] HL]. split; [split|].
  - done.
  - apply map_Forall_alter; [|done]. by intros x _ _ ?.
  - intros C. simpl. rewrite lookup_alter_eq.
    destruct (cl st !! c) as [C0|] eqn:E; simpl; [|done].
    intros [= <-]. rewrite Hf. by apply HL.
Qed.

Lemma rules_inv_set_monitor st c m :
  live_mon st m -> rules_inv cfg c st -> rules_inv cfg c (upd_client c (cset_monitor m) st).
Proof.
  intros Hm [[HM HC] HL]. split; [split|].
  - done.
  - apply map_Forall_alter; [|done]. by intros x _ _ ?.
  - intros C. simpl. rewrite lookup_alter_eq.
    destruct (cl st !! c) as [C0|] eqn:E; simpl; [|done].
    by intros [= <-].
Qed.

Lemma rules_inv_apply_rule class instance c st r :
  rules_inv cfg c st -> rules_inv cfg c (apply_rule class instance c st r).
Proof.
  intros H. unfold apply_rule. destruct (rule_matches _ _ _ _); [|done].
  set (s1 := upd_client c _ st).
  assert (H1 : rules_inv cfg c s1) by (by apply rules_inv_upd_client).
  destruct (monitor_with_num s1 (monitors s1) (r_monitor r)) as [m|] eqn:E;
    [|done].
  apply rules_inv_set_monitor; [|done].
  apply monitor_with_num_elem in E.
  destruct H1 as [[[_ HL] _] _]. rewrite Forall_forall in HL. by apply HL.
Qed.

Lemma rules_inv_fold class instance c rs st :
  rules_inv cfg c st ->
  rules_inv cfg c (fold_left (apply_rule class instance c) rs st).
Proof.
  revert st. induction rs as [|r rs IH]; intros st H; simpl; [done|].
  by apply IH, rules_inv_apply_rule.
Qed.

Lemma tags_inv_applyrules st c res_class res_name :
  rules_inv cfg c st -> tags_inv cfg (applyrules cfg res_class res_name c st).
Proof.
  intros H. unfold applyrules.
  set (s0 := upd_client c _ st).
  assert (H0 : rules_inv cfg c s0) by (by apply rules_inv_upd_client).
  set (s1 := fold_left _ _ s0).
  assert (H1 : rules_inv cfg c s1) by (by apply rules_inv_fold).
  destruct H1 as [[HM HC] HL]. split; [done|].
  intros c' C'. simpl. rewrite lookup_alter_Some.
  intros [(<- & C & EC & ->) | (Hne & E)].
  - simpl. destruct (Z.eqb_spec (Z.land (tags C) (TAGMASK cfg)) 0).
    + apply current_tags_ok; [done | by apply HL].
    + by apply tags_ok_land.
  - apply (HC c' C' E). done.
Qed.

(** C8: after [applyrules] the client has [tags & TAGMASK != 0], and
    so has every client after any sequence of the commands that
    change tags or views or move clients between monitors ([view],
    [toggleview], [tag], [toggletag], [focusmon], and [sendmon] from
    each of its callers: [tagmon] and the end of a mouse move or
    resize).  The state [applyrules] starts from is one in which
    the monitors' tag-sets and the tags of the other clients are in
    order and [c->monitor] is an allocated monitor. *)
Theorem tags_never_empty st c res_class res_name :
  tags_inv_except cfg c st ->
  live_client st c ->
  live_mon st (monitor (the_client st c)) ->
  let st1 := applyrules cfg res_class res_name c st in
  Z.land (tags (the_client st1 c)) (TAGMASK cfg) <> 0
  /\ forall ops c' C',
       cl (run cfg ops st1) !! c' = Some C' ->
       Z.land (tags C') (TAGMASK cfg) <> 0.
Proof.
  intros He [C0 EC0] Hm st1.
  assert (H1 : tags_inv cfg st1).
  { apply tags_inv_applyrules. split; [done|].
    intros C EC. unfold the_client in Hm.
    by rewrite (lookup_total_correct _ _ _ EC) in Hm. }
  assert (Hl : live_client st1 c).
  { unfold st1, applyrules. apply live_client_upd_client.
    generalize (rules cfg). intros rs.
    assert (Hl0 : live_client (upd_client c
               (fun C => cset_tags 0 (cset_isfloating false C)) st) c)
      by (apply live_client_upd_client; exists C0; exact EC0).
    revert Hl0. generalize (upd_client c
               (fun C => cset_tags 0 (cset_isfloating false C)) st).
    induction rs as [|r rs IH]; intros s Hs; simpl; [done|].
    apply IH. unfold apply_rule. destruct (rule_matches _ _ _ _); [|done].
    destruct (monitor_with_num _ _ _); by rewrite ?live_client_upd_client. }
  split.
  - destruct Hl as [C1 E1]. unfold the_client.
    rewrite (lookup_total_correct _ _ _ E1).
    apply tags_ok_nonzero. by apply (proj2 H1 c C1).
  - intros ops c' C' E. apply tags_ok_nonzero.
    by apply (proj2 (tags_inv_run st1 ops H1) c' C').
Qed.

(** ** Monitors going away *)

Lemma the_client_upd_mon st m f c : the_client (upd_mon m f st) c = the_client st c.
Proof. reflexivity. Qed.

Lemma detachstack_mon_other st c m :
  monitor (the_client st c) <> m -> the_mon (detachstack c st) m = the_mon st m.
Proof.
  intros H. unfold detachstack. case_decide; by rewrite !the_mon_upd_mon_ne.
Qed.

Lemma detachstack_clients st c m :
  clients (the_mon (detachstack c st) m) = clients (the_mon st m).
Proof.
  destruct (decide (monitor (the_client st c) = m)) as [<-|Hne];
    [|by rewrite detachstack_mon_other].
  set (m := monitor (the_client st c)).
  unfold detachstack. fold m.
  destruct (mon st !! m) as [M|] eqn:E.
  - assert (Hl : live_mon st m) by (by exists M).
    assert (Hl1 : live_mon (upd_mon m (fun M => mset_stack (unlink c (stack M)) M) st) m)
      by (by apply live_mon_upd_mon).
    case_decide; by rewrite !the_mon_upd_mon_eq.
  - assert (Hu : forall f, upd_mon m f st = st).
    { intros f. unfold upd_mon. rewrite alter_id' by done. by destruct st. }
    rewrite !Hu. case_decide; by rewrite ?Hu.
Qed.

Lemma detachstack_live_mon st c m :
  live_mon (detachstack c st) m <-> live_mon st m.
Proof. unfold detachstack. case_decide; by rewrite ?live_mon_upd_mon. Qed.

Lemma detachstack_globals st c :
  monitors (detachstack c st) = monitors st
  /\ selected_monitor (detachstack c st) = selected_monitor st
  /\ cl (detachstack c st) = cl st.
Proof. unfold detachstack. by case_decide. Qed.


Lemma migrate_client_spec t h c r st :
  h <> t -> head (monitors st) = Some h -> live_mon st h -> live_mon st t ->
  live_client st c -> monitor (the_client st c) = t ->
  let st' := migrate_client t c r st in
  monitors st' = monitors st /\ selected_monitor st' = selected_monitor st
  /\ (forall m, live_mon st' m <-> live_mon st m)
  /\ (forall c', live_client st' c' <-> live_client st c')
  /\ clients (the_mon st' h) = c :: clients (the_mon st h)
  /\ stack (the_mon st' h) = c :: stack (the_mon st h)
  /\ clients (the_mon st' t) = r
  /\ (forall m, m <> h -> m <> t -> the_mon st' m = the_mon st m)
  /\ the_client st' c = cset_monitor h (the_client st c)
  /\ (forall c', c' <> c -> the_client st' c' = the_client st c').
Proof.
  intros Hne Hhd Hlh Hlt Hlc Hmc st'. unfold st', migrate_client.
  set (s1 := upd_mon t (mset_clients r) st).
  set (s2 := detachstack c s1).
  assert (Hc1 : monitor (the_client s1 c) = t) by done.
  destruct (detachstack_globals s1 c) as (Hm2 & Hs2 & Hcl2). fold s2 in Hm2, Hs2, Hcl2.
  assert (Hhd2 : default 0%nat (head (monitors s2)) = h)
    by (by rewrite Hm2; simpl; rewrite Hhd).
  rewrite Hhd2.
  set (s3 := upd_client c (cset_monitor h) s2).
  assert (Hlc2 : live_client s2 c) by (unfold live_client; by rewrite Hcl2).
  assert (Hc3 : the_client s3 c = cset_monitor h (the_client st c)).
  { unfold s3. rewrite the_client_upd_client_eq by done.
    unfold the_client. by rewrite Hcl2. }
  assert (Hl1 : forall m, live_mon s1 m <-> live_mon st m)
    by (intros; apply live_mon_upd_mon).
  assert (Hl2 : forall m, live_mon s2 m <-> live_mon st m)
    by (intros; unfold s2; by rewrite detachstack_live_mon).
  assert (Hl3 : forall m, live_mon s3 m <-> live_mon st m) by (intros; apply Hl2).
  unfold attach. rewrite Hc3. simpl.
  set (s4 := upd_mon h _ s3).
  assert (Hc4 : the_client s4 c = cset_monitor h (the_client st c)) by done.
  unfold attachstack. rewrite Hc4. simpl.
  set (s5 := upd_mon h _ s4).
  assert (Hl4 : forall m, live_mon s4 m <-> live_mon st m)
    by (intros; unfold s4; by rewrite live_mon_upd_mon).
  assert (Hmh2 : the_mon s2 h = the_mon st h).
  { unfold s2. rewrite detachstack_mon_other by (by rewrite Hc1).
    unfold s1. by apply the_mon_upd_mon_ne. }
  assert (Hmh4 : the_mon s4 h = mset_clients (c :: clients (the_mon st h)) (the_mon st h)).
  { unfold s4. rewrite the_mon_upd_mon_eq by (by apply Hl3).
    change (the_mon s3 h) with (the_mon s2 h). by rewrite Hmh2. }
  assert (Hmh5 : the_mon s5 h = mset_stack (c :: stack (the_mon st h))
                   (mset_clients (c :: clients (the_mon st h)) (the_mon st h))).
  { unfold s5. rewrite the_mon_upd_mon_eq by (by apply Hl4). by rewrite Hmh4. }
  assert (Hother : forall m, m <> h -> the_mon s5 m = the_mon s2 m).
  { intros m Hm. unfold s5, s4. by rewrite !the_mon_upd_mon_ne. }
  split; [done|]. split; [done|].
  split; [intros m; unfold s5; rewrite live_mon_upd_mon; apply Hl4|].
  split.
  { intros c'. change (live_client s5 c') with (live_client s3 c').
    unfold s3. rewrite live_client_upd_client. unfold live_client. by rewrite Hcl2. }
  split; [by rewrite Hmh5|]. split; [by rewrite Hmh5|].
  split.
  { rewrite Hother by done. unfold s2. rewrite detachstack_clients.
    unfold s1. by rewrite the_mon_upd_mon_eq. }
  split.
  { intros m Hmh Hmt. rewrite Hother by done.
    unfold s2. rewrite detachstack_mon_other by (by rewrite Hc1).
    unfold s1. by apply the_mon_upd_mon_ne. }
  split; [done|].
  intros c' Hc'. change (the_client s5 c') with (the_client s3 c').
  unfold s3. rewrite the_client_upd_client_ne by done.
  unfold the_client. by rewrite Hcl2.
Qed.

Lemma migrate_clients_spec t h l : forall st,
  h <> t -> head (monitors st) = Some h -> live_mon st h -> live_mon st t ->
  NoDup l ->
  (forall c, c ∈ l -> live_client st c /\ monitor (the_client st c) = t) ->
  let st' := migrate_clients t l st in
  monitors st' = monitors st /\ selected_monitor st' = selected_monitor st
  /\ (forall m, live_mon st' m <-> live_mon st m)
  /\ (forall c, live_client st' c <-> live_client st c)
  /\ clients (the_mon st' h) = reverse l ++ clients (the_mon st h)
  /\ stack (the_mon st' h) = reverse l ++ stack (the_mon st h)
  /\ (l <> [] -> clients (the_mon st' t) = [])
  /\ (forall m, m <> h -> m <> t -> the_mon st' m = the_mon st m)
  /\ (forall c, c ∈ l -> monitor (the_client st' c) = h)
  /\ (forall c, c ∉ l -> the_client st' c = the_client st c).
Proof.
  induction l as [|c r IH]; intros st Hne Hhd Hlh Hlt Hnd Hl; simpl.
  - repeat split; try done. intros c Hc. by apply elem_of_nil in Hc.
  - apply NoDup_cons in Hnd as [Hcr Hnd].
    destruct (Hl c (list_elem_of_here _ _)) as [Hlc Hmc].
    destruct (migrate_client_spec t h c r st Hne Hhd Hlh Hlt Hlc Hmc)
      as (Em & Es & Elm & Elc & Ech & Esh & Ect & Eo & Ec & Eoc).
    set (s := migrate_client t c r st) in *.
    destruct (IH s) as (Fm & Fs & Flm & Flc & Fch & Fsh & Fct & Fo & Fc & Foc).
    { done. } { by rewrite Em. } { by apply Elm. } { by apply Elm. } { done. }
    { intros c' Hc'. assert (c' <> c) by (intros ->; done).
      destruct (Hl c' (list_elem_of_further _ _ _ Hc')) as [? ?].
      split; [by apply Elc | by rewrite Eoc]. }
    split; [by rewrite Fm|]. split; [by rewrite Fs|].
    split; [intros m; by rewrite Flm|]. split; [intros c'; by rewrite Flc|].
    split; [by rewrite Fch, Ech, reverse_cons, <- app_assoc|].
    split; [by rewrite Fsh, Esh, reverse_cons, <- app_assoc|].
    split.
    { intros _. destruct r as [|c2 r2]; [|by apply Fct].
      simpl. exact Ect. }
    split; [intros m ? ?; by rewrite Fo, Eo|].
    split.
    { intros c' Hc'. apply elem_of_cons in Hc' as [-> | Hc']; [|by apply Fc].
      rewrite Foc by done. by rewrite Ec. }
    intros c' Hc'. apply not_elem_of_cons in Hc' as [? ?].
    rewrite Foc by done. by apply Eoc.
Qed.

Lemma chains_wf_pointwise st :
  chains_wf st <->
  NoDup (monitors st)
  /\ forall m, m ∈ monitors st ->
       live_mon st m
       /\ NoDup (clients (the_mon st m))
       /\ forall c, c ∈ clients (the_mon st m) ->
            live_client st c /\ monitor (the_client st c) = m.
Proof.
  unfold chains_wf. rewrite Forall_forall.
  split; intros [Hnd H]; (split; [done|]); intros m Hm;
    destruct (H m Hm) as (? & ? & Hc); (split; [done|]); (split; [done|]).
  - by rewrite Forall_forall in Hc.
  - by rewrite Forall_forall.
Qed.

Lemma unlink_last (t : Mid) l : t ∉ l -> unlink t (l ++ [t]) = l.
Proof.
  induction l as [|d r IH]; simpl; intros H.
  - by rewrite decide_True.
  - apply not_elem_of_cons in H as [? ?].
    rewrite decide_False by done. by rewrite IH.
Qed.

Lemma the_mon_cleanupmon st t m :
  m <> t -> the_mon (cleanupmon t st) m = the_mon st m.
Proof. intros H. unfold the_mon, cleanupmon; simpl. by rewrite lookup_total_delete_ne. Qed.

Lemma live_mon_cleanupmon st t m :
  m <> t -> live_mon (cleanupmon t st) m <-> live_mon st m.
Proof. intros H. unfold live_mon, cleanupmon; simpl. by rewrite lookup_delete_ne. Qed.

Lemma remove_last_monitor_spec st h ms t :
  chains_wf st -> monitors st = h :: ms ++ [t] ->
  let l := clients (the_mon st t) in
  exists st',
    remove_last_monitor st = Some (st', match l with [] => false | _ => true end)
    /\ monitors st' = h :: ms
    /\ chains_wf st'
    /\ clients (the_mon st' h) = reverse l ++ clients (the_mon st h)
    /\ stack (the_mon st' h) = reverse l ++ stack (the_mon st h)
    /\ (forall m, m ∈ ms -> the_mon st' m = the_mon st m)
    /\ (forall c, c ∈ l -> monitor (the_client st' c) = h)
    /\ (forall c, c ∉ l -> the_client st' c = the_client st c)
    /\ (forall m, m <> t -> live_mon st' m <-> live_mon st m)
    /\ mon st' !! t = None.
Proof.
  intros [Hnd Hwf]%chains_wf_pointwise Hms l.
  assert (Hlast : last (monitors st) = Some t).
  { rewrite Hms. change (h :: ms ++ [t]) with ((h :: ms) ++ [t]). apply last_snoc. }
  assert (Hhd : head (monitors st) = Some h) by (by rewrite Hms).
  rewrite Hms in Hnd.
  change (h :: ms ++ [t]) with ((h :: ms) ++ [t]) in Hnd.
  apply NoDup_app in Hnd as (Hnd1 & Hdisj & _).
  assert (Htn : t ∉ h :: ms).
  { intros Hin. apply (Hdisj t Hin). apply list_elem_of_here. }
  assert (Hne : h <> t).
  { intros ->. apply Htn. apply list_elem_of_here. }
  assert (Hh : h ∈ monitors st) by (rewrite Hms; apply list_elem_of_here).
  assert (Ht : t ∈ monitors st).
  { rewrite Hms. apply list_elem_of_further, elem_of_app. right. apply list_elem_of_here. }
  destruct (Hwf h Hh) as (Hlh & Hndh & Hch).
  destruct (Hwf t Ht) as (Hlt & Hndt & Hct). fold l in Hndt, Hct.
  destruct (migrate_clients_spec t h l st Hne Hhd Hlh Hlt Hndt Hct)
    as (Fm & Fs & Flm & Flc & Fch & Fsh & Fct & Fo & Fc & Foc).
  set (s := migrate_clients t l st) in *.
  set (s2 := if decide (t = selected_monitor s)
             then set_selected_monitor (default 0%nat (head (monitors s))) s
             else s).
  assert (Hs2 : monitors s2 = monitors st /\ mon s2 = mon s /\ cl s2 = cl s).
  { unfold s2. case_decide; simpl; by rewrite ?Fm. }
  destruct Hs2 as (Hs2m & Hs2mon & Hs2cl).
  assert (Hmon2 : forall m, the_mon s2 m = the_mon s m)
    by (intros; unfold the_mon; by rewrite Hs2mon).
  assert (Hcl2 : forall c, the_client s2 c = the_client s c)
    by (intros; unfold the_client; by rewrite Hs2cl).
  exists (cleanupmon t s2).
  assert (Hrun : remove_last_monitor st
                 = Some (cleanupmon t s2, match l with [] => false | _ => true end)).
  { unfold remove_last_monitor. rewrite Hlast. fold l.
    unfold s2, s. destruct l as [|c r] eqn:El; [done|].
    rewrite decide_False; [done|]. rewrite Hhd. intros [= ?]. done. }
  assert (Hmons : monitors (cleanupmon t s2) = h :: ms).
  { simpl. rewrite Hs2m, Hms.
    change (h :: ms ++ [t]) with ((h :: ms) ++ [t]). by apply unlink_last. }
  assert (Htm : forall m, m <> t -> the_mon (cleanupmon t s2) m = the_mon s m)
    by (intros; by rewrite the_mon_cleanupmon, Hmon2).
  assert (Htc : forall c, the_client (cleanupmon t s2) c = the_client s c)
    by (intros; apply Hcl2).
  assert (Hlive : forall m, m <> t -> live_mon (cleanupmon t s2) m <-> live_mon st m).
  { intros m Hm. rewrite live_mon_cleanupmon by done.
    unfold live_mon. rewrite Hs2mon. apply Flm. }
  assert (Hlivec : forall c, live_client (cleanupmon t s2) c <-> live_client st c).
  { intros c. unfold live_client. simpl. rewrite Hs2cl. apply Flc. }
  assert (Hmsne : forall m, m ∈ ms -> m <> h /\ m <> t).
  { intros m Hm. split.
    - intros ->. apply NoDup_cons in Hnd1 as [? _]. done.
    - intros ->. apply Htn. by apply list_elem_of_further. }
  assert (Hlt_mon : forall c, c ∈ l -> monitor (the_client st c) = t)
    by (intros c Hc; by destruct (Hct c Hc)).
  split; [exact Hrun|]. split; [exact Hmons|].
  split.
  { apply chains_wf_pointwise.
    split; [by rewrite Hmons|]. rewrite Hmons. intros m Hm.
    assert (Hmt : m <> t) by (intros ->; done).
    assert (Hmin : m ∈ monitors st).
    { rewrite Hms. apply elem_of_cons in Hm as [-> | Hm];
        [apply list_elem_of_here|].
      apply list_elem_of_further, elem_of_app. by left. }
    destruct (Hwf m Hmin) as (Hlm & Hndm & Hcm).
    split; [by apply Hlive|].
    rewrite Htm by done.
    apply elem_of_cons in Hm as [-> | Hm].
    - rewrite Fch. split.
      + apply NoDup_app. split; [by rewrite reverse_Permutation|]. split; [|done].
        intros c Hc1 Hc2. rewrite elem_of_reverse in Hc1.
        destruct (Hch c Hc2) as [_ E]. rewrite (Hlt_mon c Hc1) in E. done.
      + intros c Hc. rewrite Hlivec, Htc.
        apply elem_of_app in Hc as [Hc | Hc].
        * rewrite elem_of_reverse in Hc. split; [by destruct (Hct c Hc) | by apply Fc].
        * destruct (Hch c Hc) as [? E]. split; [done|].
          destruct (decide (c ∈ l)) as [Hin | Hnin]; [by apply Fc|].
          by rewrite Foc.
    - destruct (Hmsne m Hm) as [? ?]. rewrite Fo by done.
      split; [done|]. intros c Hc. rewrite Hlivec, Htc.
      destruct (Hcm c Hc) as [? E]. split; [done|].
      rewrite Foc; [done|]. intros Hin. rewrite (Hlt_mon c Hin) in E. done. }
  split; [by rewrite Htm, Fch|]. split; [by rewrite Htm, Fsh|].
  split.
  { intros m Hm. destruct (Hmsne m Hm) as [? ?]. by rewrite Htm, Fo. }
  split; [intros c Hc; rewrite Htc; by apply Fc|].
  split; [intros c Hc; rewrite Htc; by apply Foc|].
  split; [exact Hlive|].
  simpl. apply lookup_delete_eq.
Qed.

Lemma remove_monitors_spec k : forall ms st h,
  chains_wf st -> monitors st = h :: ms -> (k <= length ms)%nat ->
  let keep := take (length ms - k) ms in
  let gone := reverse (drop (length ms - k) ms) in
  let moved := concat (map (fun m => clients (the_mon st m)) gone) in
  exists st' d,
    remove_monitors k st = Some (st', d)
    /\ monitors st' = h :: keep
    /\ chains_wf st'
    /\ clients (the_mon st' h) = reverse moved ++ clients (the_mon st h)
    /\ stack (the_mon st' h) = reverse moved ++ stack (the_mon st h)
    /\ (forall m, m ∈ keep -> the_mon st' m = the_mon st m)
    /\ Forall (fun c => monitor (the_client st' c) = h) moved
    /\ Forall (fun m => mon st' !! m = None) gone
    /\ (forall c, c ∉ moved -> the_client st' c = the_client st c)
    /\ (forall m, m ∉ gone -> live_mon st' m <-> live_mon st m).
Proof.
  induction k as [|k IH]; intros ms st h Hwf Hms Hk keep gone moved.
  - exists st, false.
    assert (Hkeep : keep = ms) by (unfold keep; rewrite Nat.sub_0_r; apply take_ge; lia).
    assert (Hgone : gone = []).
    { unfold gone. rewrite Nat.sub_0_r, drop_ge by lia. done. }
    unfold moved. rewrite Hkeep, Hgone. simpl.
    split; [done|]. split; [done|]. split; [exact Hwf|].
    repeat split; done.
  - destruct ms as [|t ms' _] using rev_ind; [simpl in Hk; lia|].
    rewrite length_app in Hk. simpl in Hk.
    destruct (remove_last_monitor_spec st h ms' t Hwf Hms)
      as (st1 & Hrun & Hm1 & Hwf1 & Hch1 & Hsh1 & Hk1 & Hc1 & Hoc1 & Hl1 & Hd1).
    set (l := clients (the_mon st t)) in *.
    destruct (IH ms' st1 h Hwf1 Hm1 ltac:(lia))
      as (st' & d & Hrun' & Hm' & Hwf' & Hch' & Hsh' & Hk' & Hc' & Hg' & Hoc' & Hl').
    set (n := (length ms' - k)%nat) in *.
    assert (Hn : (length (ms' ++ [t]) - S k = n)%nat)
      by (rewrite length_app; simpl; unfold n; lia).
    assert (Hkeep : keep = take n ms').
    { unfold keep. rewrite Hn. apply take_app_le. unfold n. lia. }
    assert (Hgone : gone = t :: reverse (drop n ms')).
    { unfold gone. rewrite Hn, drop_app_le by (unfold n; lia).
      apply reverse_snoc. }
    set (gone' := reverse (drop n ms')) in *.
    assert (Hsub : forall m, m ∈ gone' -> m ∈ ms').
    { intros m Hm. unfold gone' in Hm. rewrite elem_of_reverse in Hm.
      by apply (subseteq_drop n ms'). }
    assert (Hmv1 : concat (map (fun m => clients (the_mon st1 m)) gone')
                   = concat (map (fun m => clients (the_mon st m)) gone')).
    { f_equal. apply map_ext_in. intros m Hm. rewrite Hk1; [done|].
      apply Hsub. by apply list_elem_of_In. }
    rewrite Hmv1 in *.
    set (moved' := concat (map (fun m => clients (the_mon st m)) gone')) in *.
    assert (Hmoved : moved = l ++ moved').
    { unfold moved. rewrite Hgone. done. }
    assert (Htn : t ∉ gone').
    { intros Hin. apply Hsub in Hin.
      destruct Hwf as [Hnd _]. rewrite Hms in Hnd.
      apply NoDup_cons in Hnd as [_ Hnd].
      apply NoDup_app in Hnd as (_ & Hdisj & _).
      apply (Hdisj t Hin). apply list_elem_of_here. }
    exists st', (match l with [] => false | _ => true end || d).
    split.
    { simpl. rewrite Hrun, Hrun'. done. }
    split; [by rewrite Hm', Hkeep|]. split; [done|].
    split; [by rewrite Hch', Hch1, Hmoved, reverse_app, app_assoc|].
    split; [by rewrite Hsh', Hsh1, Hmoved, reverse_app, app_assoc|].
    split.
    { intros m Hm. rewrite Hkeep in Hm. rewrite Hk' by done.
      apply Hk1. by apply (subseteq_take n ms'). }
    split.
    { rewrite Hmoved. apply Forall_app. split; [|done].
      apply Forall_forall. intros c Hc.
      destruct (decide (c ∈ moved')) as [Hin | Hnin].
      - rewrite Forall_forall in Hc'. by apply Hc'.
      - rewrite Hoc' by done. by apply Hc1. }
    split.
    { rewrite Hgone. apply Forall_cons. split; [|done].
      apply eq_None_not_Some. intros Hs. apply (Hl' t Htn) in Hs.
      unfold live_mon in Hs. rewrite Hd1 in Hs. by destruct Hs. }
    split.
    { intros c Hc. rewrite Hmoved in Hc. apply not_elem_of_app in Hc as [? ?].
      rewrite Hoc' by done. by apply Hoc1. }
    intros m Hm. rewrite Hgone in Hm. apply not_elem_of_cons in Hm as [? ?].
    rewrite Hl' by done. by apply Hl1.
Qed.

(** C2 (amended): when the number of unique screens [n] drops below
    the number of monitors, [updategeom] takes the tail monitor again
    and again until [n] monitors are left: every client of the tail
    is moved to the first monitor and the tail is released.  The
    moved clients end up at the front of the first monitor's client
    list and of its focus stack in the reverse of the order in which
    they were taken, which is the order of the removed monitors'
    client lists -- their order on the removed monitor's focus stack
    plays no part. *)
Theorem updategeom_fewer_screens st h ms info ptr :
  chains_wf st -> monitors st = h :: ms ->
  let n := length (unique_screens info) in
  (1 <= n <= length ms)%nat ->
  let gone := reverse (drop (n - 1) ms) in
  let moved := concat (map (fun m => clients (the_mon st m)) gone) in
  exists st' dirty,
    updategeom cfg (Some info) ptr st = Some (st', dirty)
    /\ monitors st' = h :: take (n - 1) ms
    /\ Forall (fun m => mon st' !! m = None) gone
    /\ clients (the_mon st' h) = reverse moved ++ clients (the_mon st h)
    /\ stack (the_mon st' h) = reverse moved ++ stack (the_mon st h)
    /\ Forall (fun c => monitor (the_client st' c) = h) moved.
Proof.
  intros Hwf Hms n Hn gone moved.
  set (k := (S (length ms) - n)%nat).
  assert (Hk : (k <= length ms)%nat) by (unfold k; lia).
  assert (Hnk : (length ms - k = n - 1)%nat) by (unfold k; lia).
  destruct (remove_monitors_spec k ms st h Hwf Hms Hk)
    as (st' & d & Hrun & Hm & _ & Hch & Hsh & _ & Hc & Hg & _ & _).
  rewrite Hnk in *. fold gone in Hch, Hsh, Hc, Hg. fold moved in Hch, Hsh, Hc.
  unfold updategeom. fold n. rewrite Hms.
  destruct (Z.leb_spec (Z.of_nat (length (h :: ms))) (Z.of_nat n)) as [Hle|_];
    [simpl in Hle; lia|].
  replace (Z.to_nat (Z.of_nat (length (h :: ms)) - Z.of_nat n)) with k
    by (unfold k; simpl; lia).
  rewrite Hrun. simpl.
  destruct d.
  - eexists _, true. split; [reflexivity|].
    destruct ptr as [[x y]|]; simpl; done.
  - exists st', false. done.
Qed.

(** ** Looking up windows, monitors and screens *)

Lemma client_with_window_Some st l w c :
  client_with_window st l w = Some c ->
  c ∈ l /\ window (the_client st c) = w.
Proof.
  induction l as [|d r IH]; simpl; [done|].
  destruct (Z.eqb_spec (window (the_client st d)) w) as [E|E].
  - intros [= <-]. split; [apply list_elem_of_here | done].
  - intros H. destruct (IH H). split; [by apply list_elem_of_further | done].
Qed.

Lemma client_with_window_None st l w c :
  client_with_window st l w = None -> c ∈ l ->
  window (the_client st c) <> w.
Proof.
  induction l as [|d r IH]; simpl; [by intros _ ?%elem_of_nil|].
  destruct (Z.eqb_spec (window (the_client st d)) w) as [E|E]; [done|].
  intros H Hin. apply elem_of_cons in Hin as [-> | Hin]; auto.
Qed.

Lemma window_to_client_loop_Some st ms w c :
  window_to_client_loop st ms w = Some c ->
  window (the_client st c) = w
  /\ exists m, m ∈ ms /\ c ∈ clients (the_mon st m).
Proof.
  induction ms as [|m r IH]; simpl; [done|].
  destruct (client_with_window st _ w) as [c'|] eqn:E.
  - intros [= <-]. apply client_with_window_Some in E as [Hin Hw].
    split; [done|]. exists m. split; [apply list_elem_of_here | done].
  - intros H. destruct (IH H) as (Hw & m' & Hm' & Hc).
    split; [done|]. exists m'. split; [by apply list_elem_of_further | done].
Qed.

Lemma window_to_client_loop_None st ms w m c :
  window_to_client_loop st ms w = None ->
  m ∈ ms -> c ∈ clients (the_mon st m) -> window (the_client st c) <> w.
Proof.
  induction ms as [|m' r IH]; simpl; [by intros _ ?%elem_of_nil|].
  destruct (client_with_window st _ w) as [c'|] eqn:E; [done|].
  intros H Hm Hc. apply elem_of_cons in Hm as [-> | Hm].
  - by apply (client_with_window_None _ _ _ _ E).
  - by apply IH.
Qed.

(** [window_to_client] answers with a client of that window that is
    on the client list of a monitor of the chain, and answers null
    only when no client on these lists has the window. *)
Theorem window_to_client_finds st w :
  match window_to_client st w with
  | Some c =>
      window (the_client st c) = w
      /\ exists m, m ∈ monitors st /\ c ∈ clients (the_mon st m)
  | None =>
      forall m c, m ∈ monitors st -> c ∈ clients (the_mon st m) ->
                  window (the_client st c) <> w
  end.
Proof.
  unfold window_to_client.
  destruct (window_to_client_loop st (monitors st) w) as [c|] eqn:E.
  - by apply window_to_client_loop_Some.
  - intros m c. by apply window_to_client_loop_None.
Qed.

Lemma recttomon_loop_best st x y w h l : forall area r,
  let r' := recttomon_loop st x y w h l area r in
  (r' = r /\ forall m, m ∈ l -> INTERSECT x y w h (the_mon st m) <= area)
  \/ (r' ∈ l /\ area < INTERSECT x y w h (the_mon st r')
      /\ forall m, m ∈ l ->
           INTERSECT x y w h (the_mon st m)
           <= INTERSECT x y w h (the_mon st r')).
Proof.
  induction l as [|m l' IH]; intros area r; simpl.
  - left. split; [done|]. by intros m ?%elem_of_nil.
  - destruct (Z.ltb_spec area (INTERSECT x y w h (the_mon st m))) as [Hlt|Hge].
    + right.
      destruct (IH (INTERSECT x y w h (the_mon st m)) m) as [[-> Hall] | (Hin & Hgt & Hall)].
      * split; [apply list_elem_of_here|]. split; [done|].
        intros m' [-> | Hm']%elem_of_cons; [lia | by apply Hall].
      * split; [by apply list_elem_of_further|]. split; [lia|].
        intros m' [-> | Hm']%elem_of_cons; [lia | by apply Hall].
    + destruct (IH area r) as [[-> Hall] | (Hin & Hgt & Hall)].
      * left. split; [done|].
        intros m' [-> | Hm']%elem_of_cons; [lia | by apply Hall].
      * right. split; [by apply list_elem_of_further|]. split; [done|].
        intros m' [-> | Hm']%elem_of_cons; [lia | by apply Hall].
Qed.

(** [recttomon] answers with a monitor of the chain whose overlap
    with the rectangle is positive and the largest of all, and with
    the selected monitor when the rectangle overlaps no monitor. *)
Theorem recttomon_largest_overlap st x y w h :
  let r := recttomon st x y w h in
  let overlap m := INTERSECT x y w h (the_mon st m) in
  (r = selected_monitor st /\ forall m, m ∈ monitors st -> overlap m <= 0)
  \/ (r ∈ monitors st /\ 0 < overlap r
      /\ forall m, m ∈ monitors st -> overlap m <= overlap r).
Proof.
  intros r overlap. unfold r, recttomon, overlap.
  apply recttomon_loop_best.
Qed.

Lemma same_geom_true a b : same_geom a b = true <-> a = b.
Proof.
  unfold same_geom. rewrite !andb_true_iff, !Z.eqb_eq. split.
  - intros [[[? ?] ?] ?]. destruct a, b; simpl in *. by subst.
  - by intros ->.
Qed.

Lemma isuniquegeom_true unique info :
  isuniquegeom unique info = true <-> info ∉ unique.
Proof.
  unfold isuniquegeom. rewrite negb_true_iff, <- not_true_iff_false.
  rewrite existsb_exists. split.
  - intros H Hin. apply H. exists info. split; [|by apply same_geom_true].
    by apply list_elem_of_In.
  - intros H (u & Hu & E). apply same_geom_true in E as ->.
    by apply H, list_elem_of_In.
Qed.

Lemma unique_screens_fold info : forall acc,
  NoDup acc ->
  let r := fold_left
             (fun unique i => if isuniquegeom unique i then unique ++ [i]
                              else unique) info acc in
  NoDup r /\ forall s, s ∈ r <-> s ∈ acc \/ s ∈ info.
Proof.
  induction info as [|i info IH]; intros acc Hnd; simpl.
  - split; [done|]. intros s. rewrite elem_of_nil. tauto.
  - destruct (isuniquegeom acc i) eqn:E.
    + apply isuniquegeom_true in E.
      destruct (IH (acc ++ [i])) as [Hnd' Hel].
      { apply NoDup_app. split; [done|]. split; [|apply NoDup_singleton].
        intros s Hs ->%list_elem_of_singleton. done. }
      split; [done|]. intros s.
      rewrite Hel, elem_of_app, list_elem_of_singleton, elem_of_cons. tauto.
    + assert (Hin : i ∈ acc).
      { unfold isuniquegeom in E. apply negb_false_iff in E.
        apply existsb_exists in E as (u & Hu & Eu).
        apply same_geom_true in Eu as ->. by apply list_elem_of_In. }
      destruct (IH acc Hnd) as [Hnd' Hel].
      split; [done|]. intros s. rewrite Hel, elem_of_cons.
      split; [tauto|]. intros [? | [-> | ?]]; tauto.
Qed.

(** The screens [updategeom] works with: the geometries Xinerama
    reports, each exactly once. *)
Theorem unique_screens_once info :
  NoDup (unique_screens info)
  /\ forall s, s ∈ unique_screens info <-> s ∈ info.
Proof.
  destruct (unique_screens_fold info [] (NoDup_nil_2)) as [Hnd Hel].
  split; [exact Hnd|]. intros s. unfold unique_screens. rewrite Hel.
  rewrite elem_of_nil. tauto.
Qed.

(** ** Walking the monitor chain there and back *)

Lemma next_of_None_last l s : s ∈ l -> next_of l s = None -> last l = Some s.
Proof.
  induction l as [|d r IH]; simpl; [by intros ?%elem_of_nil|].
  intros Hin. case_decide as E.
  - subst d. destruct r; [done|discriminate].
  - apply elem_of_cons in Hin as [-> | Hin]; [done|].
    intros H. destruct r as [|e r']; [by apply elem_of_nil in Hin|].
    by apply IH.
Qed.

Lemma next_of_Some_previous l s m :
  NoDup l -> next_of l s = Some m ->
  find_previous_monitor_in l (Some m) = Some s /\ head l <> Some m.
Proof.
  induction l as [|d r IH]; simpl; [done|].
  intros Hnd. apply NoDup_cons in Hnd as [Hd Hr].
  case_decide as E.
  - subst d. intros Hm. rewrite decide_True by done. split; [done|].
    intros [= ->]. apply Hd. by apply head_elem.
  - intros Hm. destruct (IH Hr Hm) as [Hp Hh].
    assert (Hmr : m ∈ r) by (by apply next_of_elem in Hm).
    split.
    + by rewrite decide_False.
    + intros [= ->]. done.
Qed.

Lemma find_previous_next l s m :
  NoDup l -> find_previous_monitor_in l (Some s) = Some m ->
  next_of l m = Some s.
Proof.
  induction l as [|d r IH]; simpl; [done|].
  intros Hnd. apply NoDup_cons in Hnd as [Hd Hr].
  case_decide as E.
  - intros [= ->]. by rewrite decide_True.
  - intros Hp. rewrite decide_False; [by apply IH|].
    intros ->. apply Hd. by apply find_previous_monitor_elem in Hp.
Qed.

(** Stepping to the next monitor and then to the previous one, or
    the other way round, comes back to the monitor one started from,
    also across the ends of the chain. *)
Theorem dirtomon_there_and_back st m :
  NoDup (monitors st) -> selected_monitor st ∈ monitors st ->
  (forall dir back, 0 < dir -> back <= 0 ->
     dirtomon st dir = Some m ->
     dirtomon (set_selected_monitor m st) back = Some (selected_monitor st))
  /\ (forall dir back, dir <= 0 -> 0 < back ->
        dirtomon st dir = Some m ->
        dirtomon (set_selected_monitor m st) back = Some (selected_monitor st)).
Proof.
  intros Hnd Hsel. split; intros dir back Hdir Hback; unfold dirtomon; simpl.
  - destruct (Z.ltb_spec 0 dir); [|lia]. destruct (Z.ltb_spec 0 back); [lia|].
    destruct (next_of (monitors st) (selected_monitor st)) as [m'|] eqn:E.
    + intros [= ->]. destruct (next_of_Some_previous _ _ _ Hnd E) as [Hp Hh].
      by rewrite decide_False.
    + intros Hh. rewrite decide_True by done.
      unfold find_previous_monitor. rewrite find_previous_monitor_null.
      by apply next_of_None_last.
  - destruct (Z.ltb_spec 0 dir); [lia|]. destruct (Z.ltb_spec 0 back); [|lia].
    case_decide as Hh.
    + unfold find_previous_monitor. rewrite find_previous_monitor_null.
      intros Hl. by rewrite (next_of_last _ _ Hnd Hl).
    + intros Hp. by rewrite (find_previous_next _ _ _ Hnd Hp).
Qed.

(** ** Unlinking from a chain *)

Lemma unlink_elem (c : Cid) l x : x ∈ unlink c l -> x ∈ l.
Proof.
  induction l as [|d r IH]; simpl; [done|].
  case_decide.
  - apply list_elem_of_further.
  - intros [-> | H']%elem_of_cons;
      [apply list_elem_of_here | by apply list_elem_of_further, IH].
Qed.

Lemma unlink_notin (c : Cid) l : c ∉ l -> unlink c l = l.
Proof.
  induction l as [|d r IH]; simpl; [done|].
  intros [? ?]%not_elem_of_cons. rewrite decide_False by done. by rewrite IH.
Qed.

Lemma unlink_other (c : Cid) l x : x <> c -> x ∈ l -> x ∈ unlink c l.
Proof.
  intros Hne. induction l as [|d r IH]; simpl; [done|].
  intros [-> | Hin]%elem_of_cons.
  - rewrite decide_False by done. apply list_elem_of_here.
  - case_decide; [done|]. by apply list_elem_of_further, IH.
Qed.

Lemma NoDup_unlink (c : Cid) l : NoDup l -> NoDup (unlink c l).
Proof.
  induction l as [|d r IH]; simpl; [done|].
  intros [Hd Hr]%NoDup_cons. case_decide; [done|].
  apply NoDup_cons. split; [|by apply IH].
  intros Hin. by apply Hd, (unlink_elem c).
Qed.

Lemma unlink_gone (c : Cid) l : NoDup l -> c ∉ unlink c l.
Proof.
  induction l as [|d r IH]; simpl; [by intros _ ?%elem_of_nil|].
  intros [Hd Hr]%NoDup_cons. case_decide as E.
  - by subst d.
  - intros [-> | Hin]%elem_of_cons; [done|]. by apply IH.
Qed.

Lemma unlink_head (c : Cid) l : unlink c (c :: l) = l.
Proof. simpl. by rewrite decide_True. Qed.

(** ** Stores on monitors *)

Lemma upd_mon_dead st m f : ¬ live_mon st m -> upd_mon m f st = st.
Proof.
  intros H. unfold upd_mon. rewrite alter_id; [by destruct st|].
  intros M E. exfalso. apply H. by exists M.
Qed.

Lemma the_mon_upd_mon st m f m' :
  live_mon st m ->
  the_mon (upd_mon m f st) m'
  = if decide (m = m') then f (the_mon st m') else the_mon st m'.
Proof.
  intros H. case_decide as E.
  - subst m'. by apply the_mon_upd_mon_eq.
  - by apply the_mon_upd_mon_ne.
Qed.

Lemma the_mon_attach_eq st c :
  live_mon st (monitor (the_client st c)) ->
  the_mon (attach c st) (monitor (the_client st c))
  = mset_clients (c :: clients (the_mon st (monitor (the_client st c))))
                 (the_mon st (monitor (the_client st c))).
Proof. intros H. unfold attach. by rewrite the_mon_upd_mon_eq. Qed.

Lemma the_mon_attachstack_eq st c :
  live_mon st (monitor (the_client st c)) ->
  the_mon (attachstack c st) (monitor (the_client st c))
  = mset_stack (c :: stack (the_mon st (monitor (the_client st c))))
               (the_mon st (monitor (the_client st c))).
Proof. intros H. unfold attachstack. by rewrite the_mon_upd_mon_eq. Qed.

Lemma the_mon_detach_client_eq st c :
  live_mon st (monitor (the_client st c)) ->
  the_mon (detach_client c st) (monitor (the_client st c))
  = mset_clients (unlink c (clients (the_mon st (monitor (the_client st c)))))
                 (the_mon st (monitor (the_client st c))).
Proof. intros H. unfold detach_client. by rewrite the_mon_upd_mon_eq. Qed.

Lemma the_mon_detachstack_eq st c :
  live_mon st (monitor (the_client st c)) ->
  let M := the_mon st (monitor (the_client st c)) in
  the_mon (detachstack c st) (monitor (the_client st c))
  = mset_selected_client
      (if decide (selected_client M = Some c)
       then find_first_visible_client_in_stack st (unlink c (stack M))
       else selected_client M)
      (mset_stack (unlink c (stack M)) M).
Proof.
  intros H M. unfold detachstack.
  set (m := monitor (the_client st c)) in *.
  set (s1 := upd_mon m _ st).
  assert (H1 : the_mon s1 m = mset_stack (unlink c (stack M)) M)
    by (unfold s1; by rewrite the_mon_upd_mon_eq).
  assert (Hl1 : live_mon s1 m) by (by apply live_mon_upd_mon).
  rewrite H1. change (selected_client (mset_stack _ M)) with (selected_client M).
  case_decide as E.
  - rewrite the_mon_upd_mon_eq by done. rewrite H1. simpl.
    assert (Hv : forall d, ISVISIBLE s1 d = ISVISIBLE st d).
    { intros d. apply tag_frame_ISVISIBLE. unfold s1.
      by apply tag_frame_upd_mon. }
    f_equal. generalize (unlink c (stack M)). intros l.
    induction l as [|d r IH]; simpl; [done|]. by rewrite Hv, IH.
  - rewrite H1. by destruct M.
Qed.

(** ** [focus] *)

Lemma find_first_visible_visible st l c :
  find_first_visible_client_in_stack st l = Some c -> ISVISIBLE st c = true.
Proof.
  induction l as [|d r IH]; simpl; [done|].
  destruct (ISVISIBLE st d) eqn:E; [by intros [= <-] | done].
Qed.

Lemma find_first_visible_none st l c :
  find_first_visible_client_in_stack st l = None -> c ∈ l ->
  ISVISIBLE st c = false.
Proof.
  induction l as [|d r IH]; simpl; [by intros _ ?%elem_of_nil|].
  destruct (ISVISIBLE st d) eqn:E; [done|].
  intros H [-> | Hin]%elem_of_cons; auto.
Qed.

Lemma focus_target_visible st c t :
  focus_target st c = Some t -> ISVISIBLE st t = true.
Proof.
  unfold focus_target. destruct c as [c'|].
  - destruct (ISVISIBLE st c') eqn:E; [by intros [= <-]|].
    apply find_first_visible_visible.
  - apply find_first_visible_visible.
Qed.

Lemma focus_target_given st c :
  ISVISIBLE st c = true -> focus_target st (Some c) = Some c.
Proof. intros H. unfold focus_target. by rewrite H. Qed.

(** What [focus] does to the state, by the client it settles on. *)
Lemma focus_none st c :
  focus_target st c = None ->
  focus c st = upd_mon (selected_monitor st) (mset_selected_client None) st.
Proof. unfold focus, focus_target. by intros ->. Qed.

Lemma focus_some st c t :
  focus_target st c = Some t ->
  let m := monitor (the_client st t) in
  let st' := focus c st in
  selected_monitor st' = m
  /\ monitors st' = monitors st
  /\ (forall m', m' <> m -> the_mon st' m' = the_mon st m')
  /\ (forall c', c' <> t -> the_client st' c' = the_client st c')
  /\ the_client st' t
     = (if isurgent (the_client st t) then cset_isurgent false (the_client st t)
        else the_client st t)
  /\ (live_mon st m ->
      the_mon st' m
      = mset_selected_client (Some t)
          (mset_stack (t :: unlink t (stack (the_mon st m))) (the_mon st m))).
Proof.
  intros Ht m st'. unfold st', focus. unfold focus_target in Ht. rewrite Ht.
  set (sa := if decide (monitor (the_client st t) = selected_monitor st)
             then st else set_selected_monitor (monitor (the_client st t)) st).
  assert (Ha : selected_monitor sa = m /\ monitors sa = monitors st
               /\ mon sa = mon st /\ cl sa = cl st).
  { unfold sa. case_decide as E; [by rewrite <- E | done]. }
  destruct Ha as (Ha1 & Ha2 & Ha3 & Ha4).
  assert (Hca : forall c', the_client sa c' = the_client st c')
    by (intros; unfold the_client; by rewrite Ha4).
  rewrite Hca.
  set (sb := if isurgent (the_client st t) then seturgent t false sa else sa).
  assert (Hb : selected_monitor sb = m /\ monitors sb = monitors st
               /\ mon sb = mon st).
  { unfold sb. destruct (isurgent _); simpl; by rewrite ?Ha1, ?Ha2, ?Ha3. }
  destruct Hb as (Hb1 & Hb2 & Hb3).
  assert (Hcb : forall c', c' <> t -> the_client sb c' = the_client st c').
  { intros c' Hc'. unfold sb. destruct (isurgent _); [|by apply Hca].
    unfold seturgent. rewrite the_client_upd_client_ne by done. apply Hca. }
  assert (Hfb : tag_frame sb = tag_frame st).
  { unfold sb, sa. destruct (isurgent _); [rewrite tag_frame_seturgent|];
      by case_decide. }
  assert (Hmb : monitor (the_client sb t) = m)
    by (by rewrite (tag_frame_monitor _ _ t Hfb)).
  assert (Htb : the_client sb t
                = (if isurgent (the_client st t)
                   then cset_isurgent false (the_client st t)
                   else the_client st t)).
  { unfold sb. destruct (isurgent (the_client st t)) eqn:Eu; [|by apply Hca].
    unfold seturgent.
    destruct (cl sa !! t) as [C|] eqn:EC.
    - rewrite the_client_upd_client_eq by (by exists C). by rewrite Hca.
    - exfalso. rewrite <- Hca in Eu. unfold the_client in Eu.
      rewrite lookup_total_alt, EC in Eu. discriminate. }
  assert (Hmonb : forall m', the_mon sb m' = the_mon st m')
    by (intros; unfold the_mon; by rewrite Hb3).
  destruct (detachstack_globals sb t) as (Hc1 & Hc2 & Hc3).
  set (sc := detachstack t sb) in *.
  assert (Hcc : forall c', the_client sc c' = the_client sb c')
    by (intros; unfold the_client; by rewrite Hc3).
  assert (Hmc : monitor (the_client sc t) = m) by (by rewrite Hcc).
  set (sd := attachstack t sc).
  assert (Hd : selected_monitor sd = m /\ monitors sd = monitors st
               /\ cl sd = cl sb).
  { unfold sd, attachstack. simpl. by rewrite Hc1, Hc2, Hc3, Hb1, Hb2. }
  destruct Hd as (Hd1 & Hd2 & Hd3).
  rewrite Hd1.
  split; [done|]. split; [done|].
  split.
  { intros m' Hm'. rewrite the_mon_upd_mon_ne by done.
    unfold sd, attachstack. rewrite Hmc. rewrite the_mon_upd_mon_ne by done.
    unfold sc. rewrite detachstack_mon_other by (by rewrite Hmb).
    apply Hmonb. }
  split.
  { intros c' Hc'. change (the_client sd c' = the_client st c').
    unfold the_client at 1. rewrite Hd3. fold (the_client sb c'). by apply Hcb. }
  split.
  { change (the_client sd t = (if isurgent (the_client st t)
                               then cset_isurgent false (the_client st t)
                               else the_client st t)).
    unfold the_client at 1. rewrite Hd3. exact Htb. }
  intros Hl.
  assert (Hlb : live_mon sb m) by (unfold live_mon; by rewrite Hb3).
  assert (Hlc : live_mon sc m) by (by apply detachstack_live_mon).
  assert (Hld : live_mon sd m) by (by apply live_mon_upd_mon).
  rewrite the_mon_upd_mon_eq by done.
  unfold sd. rewrite <- Hmc. rewrite the_mon_attachstack_eq by (by rewrite Hmc).
  rewrite Hmc. unfold sc. rewrite <- Hmb.
  rewrite the_mon_detachstack_eq by (by rewrite Hmb).
  rewrite Hmb, Hmonb. reflexivity.
Qed.

(** ** The order of the chains *)

Lemma mon_wf_pointwise st m :
  mon_wf st m <->
  live_mon st m
  /\ NoDup (clients (the_mon st m))
  /\ NoDup (stack (the_mon st m))
  /\ (forall c, c ∈ stack (the_mon st m) <-> c ∈ clients (the_mon st m))
  /\ (forall c, c ∈ clients (the_mon st m) ->
        live_client st c /\ monitor (the_client st c) = m)
  /\ (forall c, selected_client (the_mon st m) = Some c ->
        c ∈ clients (the_mon st m)).
Proof.
  unfold mon_wf. rewrite !Forall_forall. split.
  - intros (Hl & Hn1 & Hn2 & H1 & H2 & H3 & H4).
    repeat (split; [done|]). split; [|split; [done|]].
    + intros c. split; [apply H1 | apply H2].
    + intros c E. apply H4. rewrite E. apply list_elem_of_here.
  - intros (Hl & Hn1 & Hn2 & H12 & H3 & H4).
    repeat (split; [done|]).
    split; [intros c; apply H12|]. split; [intros c; apply H12|].
    split; [done|]. intros c Hc. apply H4.
    destruct (selected_client _) as [d|]; simpl in Hc.
    + by apply list_elem_of_singleton in Hc as ->.
    + by apply elem_of_nil in Hc.
Qed.

Lemma wm_wf_pointwise st :
  wm_wf st <->
  NoDup (monitors st) /\ selected_monitor st ∈ monitors st
  /\ forall m, m ∈ monitors st -> mon_wf st m.
Proof. unfold wm_wf. by rewrite Forall_forall. Qed.

Lemma wm_wf_chains_wf st : wm_wf st -> chains_wf st.
Proof.
  intros (Hnd & _ & H)%wm_wf_pointwise. apply chains_wf_pointwise.
  split; [done|]. intros m Hm.
  destruct (proj1 (mon_wf_pointwise st m) (H m Hm)) as (? & ? & _ & _ & ? & _).
  done.
Qed.

(** A client on a list of a monitor of the chain is managed. *)
Lemma wm_wf_managed st m c :
  wm_wf st -> m ∈ monitors st -> c ∈ clients (the_mon st m) ->
  managed st c /\ monitor (the_client st c) = m.
Proof.
  intros (_ & _ & H)%wm_wf_pointwise Hm Hc.
  destruct (proj1 (mon_wf_pointwise st m) (H m Hm)) as (_ & _ & _ & _ & H5 & _).
  destruct (H5 c Hc) as [Hl E]. split; [|done].
  split; [done|]. rewrite E. by split.
Qed.

Lemma wm_wf_selected_client st m c :
  wm_wf st -> m ∈ monitors st -> selected_client (the_mon st m) = Some c ->
  managed st c /\ monitor (the_client st c) = m.
Proof.
  intros H Hm E. apply wm_wf_managed; [done..|].
  apply wm_wf_pointwise in H as (_ & _ & H).
  destruct (proj1 (mon_wf_pointwise st m) (H m Hm)) as (_ & _ & _ & _ & _ & H6).
  by apply H6.
Qed.

Lemma wm_wf_stack st m c :
  wm_wf st -> m ∈ monitors st ->
  c ∈ stack (the_mon st m) <-> c ∈ clients (the_mon st m).
Proof.
  intros (_ & _ & H)%wm_wf_pointwise Hm.
  destruct (proj1 (mon_wf_pointwise st m) (H m Hm)) as (_ & _ & _ & H4 & _).
  apply H4.
Qed.

Lemma managed_mon_wf st c :
  wm_wf st -> managed st c -> mon_wf st (monitor (the_client st c)).
Proof.
  intros (_ & _ & H)%wm_wf_pointwise (_ & Hm & _). by apply H.
Qed.

Lemma wm_wf_live_mon st m : wm_wf st -> m ∈ monitors st -> live_mon st m.
Proof.
  intros (_ & _ & H)%wm_wf_pointwise Hm. by destruct (H m Hm).
Qed.

(** *** Reading through the chain frame *)

Lemma chain_frame_monitors st st' :
  chain_frame st' = chain_frame st -> monitors st' = monitors st.
Proof. intros H. exact (f_equal (fun t => t.1.1) H). Qed.

Lemma chain_frame_mon st st' m :
  chain_frame st' = chain_frame st ->
  chain_fields (the_mon st' m) = chain_fields (the_mon st m)
  /\ (live_mon st' m <-> live_mon st m).
Proof.
  intros H. assert (E : (chain_frame st').1.2 !! m = (chain_frame st).1.2 !! m)
    by (by rewrite H).
  simpl in E. rewrite !lookup_fmap in E. unfold the_mon, live_mon.
  rewrite !lookup_total_alt.
  destruct (mon st' !! m), (mon st !! m); simpl in *; try discriminate.
  - split; [congruence|]. split; eauto.
  - split; [done|]. split; intros [? ?]; discriminate.
Qed.

Lemma chain_frame_client st st' c :
  chain_frame st' = chain_frame st ->
  monitor (the_client st' c) = monitor (the_client st c)
  /\ (live_client st' c <-> live_client st c).
Proof.
  intros H. assert (E : (chain_frame st').2 !! c = (chain_frame st).2 !! c)
    by (by rewrite H).
  simpl in E. rewrite !lookup_fmap in E. unfold the_client, live_client.
  rewrite !lookup_total_alt.
  destruct (cl st' !! c), (cl st !! c); simpl in *; try discriminate.
  - split; [congruence|]. split; eauto.
  - split; [done|]. split; intros [? ?]; discriminate.
Qed.

Lemma mon_wf_chain_frame st st' m :
  chain_frame st' = chain_frame st -> mon_wf st m -> mon_wf st' m.
Proof.
  intros H. rewrite !mon_wf_pointwise.
  destruct (chain_frame_mon _ _ m H) as [E El].
  injection E as E1 E2 E3. rewrite E1, E2, E3, El.
  intros (Hl & Hn1 & Hn2 & H4 & H5 & H6).
  repeat (split; [done|]). split; [|done].
  intros c Hc. destruct (chain_frame_client _ _ c H) as [-> ->]. by apply H5.
Qed.

Lemma wm_wf_chain_frame st st' :
  chain_frame st' = chain_frame st ->
  selected_monitor st' ∈ monitors st' -> wm_wf st -> wm_wf st'.
Proof.
  intros H Hsel. rewrite !wm_wf_pointwise.
  rewrite (chain_frame_monitors _ _ H) in *.
  intros (Hnd & _ & Hm). split; [done|]. split; [done|].
  intros m Hin. by apply (mon_wf_chain_frame st), Hm.
Qed.

Lemma chain_frame_layout_frame st : chain_frame (layout_frame st) = chain_frame st.
Proof.
  unfold chain_frame, layout_frame; simpl.
  rewrite <- !map_fmap_compose. do 2 f_equal; apply map_fmap_ext; done.
Qed.

Lemma layout_frame_chain_frame st st' :
  layout_frame st' = layout_frame st -> chain_frame st' = chain_frame st.
Proof.
  intros H.
  by rewrite <- (chain_frame_layout_frame st'), H, chain_frame_layout_frame.
Qed.

Lemma chain_frame_upd_mon st m f :
  (forall M, chain_fields (f M) = chain_fields M) ->
  chain_frame (upd_mon m f st) = chain_frame st.
Proof.
  intros Hf. unfold chain_frame, upd_mon; simpl.
  rewrite (fmap_alter chain_fields f id) by (intros; apply Hf).
  rewrite alter_id by done. done.
Qed.

Lemma chain_frame_upd_client st c f :
  (forall C, monitor (f C) = monitor C) ->
  chain_frame (upd_client c f st) = chain_frame st.
Proof.
  intros Hf. unfold chain_frame, upd_client; simpl.
  rewrite (fmap_alter monitor f id) by (intros; apply Hf).
  rewrite alter_id by done. done.
Qed.

Lemma chain_frame_arrange st m : chain_frame (arrange cfg m st) = chain_frame st.
Proof. apply layout_frame_chain_frame, layout_frame_arrange. Qed.

Lemma chain_frame_resize st c x y w h i :
  chain_frame (resize cfg c x y w h i st) = chain_frame st.
Proof. apply layout_frame_chain_frame, layout_frame_resize. Qed.

Lemma selected_monitor_arrange st m :
  selected_monitor (arrange cfg m st) = selected_monitor st.
Proof.
  by destruct (layout_frame_globals st (arrange cfg m st)
                 (layout_frame_arrange _ _)) as (_ & ? & _).
Qed.

Lemma wm_wf_arrange st m : wm_wf st -> wm_wf (arrange cfg m st).
Proof.
  intros H. apply (wm_wf_chain_frame st); [apply chain_frame_arrange| |done].
  rewrite selected_monitor_arrange, (chain_frame_monitors _ _ (chain_frame_arrange st m)).
  by destruct H as (_ & ? & _).
Qed.

Lemma wm_wf_upd_mon st m f :
  (forall M, chain_fields (f M) = chain_fields M) ->
  wm_wf st -> wm_wf (upd_mon m f st).
Proof.
  intros Hf H. apply (wm_wf_chain_frame st); [by apply chain_frame_upd_mon| |done].
  by destruct H as (_ & ? & _).
Qed.

Lemma wm_wf_upd_client st c f :
  (forall C, monitor (f C) = monitor C) ->
  wm_wf st -> wm_wf (upd_client c f st).
Proof.
  intros Hf H. apply (wm_wf_chain_frame st); [by apply chain_frame_upd_client| |done].
  by destruct H as (_ & ? & _).
Qed.

Lemma wm_wf_set_selected_monitor st m :
  m ∈ monitors st -> wm_wf st -> wm_wf (set_selected_monitor m st).
Proof. intros Hm H. by apply (wm_wf_chain_frame st). Qed.

(** Changing the clients that are on no list does not matter. *)
Lemma wm_wf_clients_agree st st' :
  monitors st' = monitors st -> selected_monitor st' = selected_monitor st ->
  mon st' = mon st ->
  (forall m c, m ∈ monitors st -> c ∈ clients (the_mon st m) ->
     live_client st' c
     /\ monitor (the_client st' c) = monitor (the_client st c)) ->
  wm_wf st -> wm_wf st'.
Proof.
  intros Hms Hsel Hmon Hcl. rewrite !wm_wf_pointwise. rewrite Hms, Hsel.
  intros (Hnd & Hs & H). split; [done|]. split; [done|].
  intros m Hm. specialize (H m Hm). revert H. rewrite !mon_wf_pointwise.
  assert (E : the_mon st' m = the_mon st m) by (unfold the_mon; by rewrite Hmon).
  rewrite E. unfold live_mon. rewrite Hmon.
  intros (Hl & Hn1 & Hn2 & H4 & H5 & H6).
  repeat (split; [done|]). split; [|done].
  intros c Hc. destruct (Hcl m c Hm Hc) as [? ->]. split; [done|].
  by destruct (H5 c Hc).
Qed.

Lemma tag_frame_live_client st st' c :
  tag_frame st' = tag_frame st -> live_client st' c <-> live_client st c.
Proof.
  intros H. assert (E : (tag_frame st').2 !! c = (tag_frame st).2 !! c)
    by (by rewrite H).
  simpl in E. rewrite !lookup_fmap in E. unfold live_client.
  destruct (cl st' !! c), (cl st !! c); simpl in E; try discriminate;
    split; intros [? ?]; eauto; discriminate.
Qed.

Lemma tag_frame_live_mon st st' m :
  tag_frame st' = tag_frame st -> live_mon st' m <-> live_mon st m.
Proof.
  intros H. assert (E : (tag_frame st').1.2 !! m = (tag_frame st).1.2 !! m)
    by (by rewrite H).
  simpl in E. rewrite !lookup_fmap in E. unfold live_mon.
  destruct (mon st' !! m), (mon st !! m); simpl in E; try discriminate;
    split; intros [? ?]; eauto; discriminate.
Qed.

Lemma tag_frame_clients st st' m :
  tag_frame st' = tag_frame st ->
  clients (the_mon st' m) = clients (the_mon st m).
Proof. intros H. exact (f_equal clients (tag_frame_mon _ _ m H)). Qed.

Lemma erase_urgent_window C C' :
  erase_urgent C = erase_urgent C' -> window C = window C'.
Proof. intros H. exact (f_equal window H). Qed.

Lemma tag_frame_window st st' c :
  tag_frame st' = tag_frame st ->
  window (the_client st' c) = window (the_client st c).
Proof. intros H. exact (f_equal window (tag_frame_client _ _ c H)). Qed.

(** *** [focus] keeps the chains in order *)

Lemma focus_target_managed st c t :
  wm_wf st ->
  (forall c', c = Some c' -> ISVISIBLE st c' = true -> managed st c') ->
  focus_target st c = Some t -> managed st t.
Proof.
  intros Hwf Hc Ht.
  assert (Hfirst : forall t',
    find_first_visible_client_in_stack st
      (stack (the_mon st (selected_monitor st))) = Some t' -> managed st t').
  { intros t' E. apply find_first_visible_elem in E.
    destruct Hwf as (Hnd & Hsel & Hm).
    assert (Hwf' : wm_wf st) by done.
    apply (wm_wf_stack st _ t' Hwf' Hsel) in E.
    by destruct (wm_wf_managed st _ t' Hwf' Hsel E). }
  unfold focus_target in Ht. destruct c as [c'|]; [|by apply Hfirst].
  destruct (ISVISIBLE st c') eqn:E; [|by apply Hfirst].
  injection Ht as <-. by apply Hc.
Qed.

Lemma wm_wf_focus st c :
  wm_wf st ->
  (forall c', c = Some c' -> ISVISIBLE st c' = true -> managed st c') ->
  wm_wf (focus c st).
Proof.
  intros Hwf Hc.
  destruct (focus_target st c) as [t|] eqn:Ht.
  - pose proof (focus_target_managed st c t Hwf Hc Ht) as (Hlt & Hmt & Hct).
    set (m := monitor (the_client st t)) in *.
    assert (Hlm : live_mon st m) by (by apply wm_wf_live_mon).
    destruct (focus_some st c t Ht) as (Es & Em & Eo & Eco & Ect & Emm).
    fold m in Es, Eo, Emm. specialize (Emm Hlm).
    pose proof (tag_frame_focus st c) as Hf.
    apply wm_wf_pointwise in Hwf as (Hnd & Hsel & Hall).
    apply wm_wf_pointwise. rewrite Em, Es.
    split; [done|]. split; [done|].
    intros m' Hm'. specialize (Hall m' Hm').
    apply mon_wf_pointwise in Hall as (Hl & Hn1 & Hn2 & H4 & H5 & H6).
    apply mon_wf_pointwise.
    split; [by apply (tag_frame_live_mon _ _ m' Hf)|].
    assert (Hcl : forall c', c' ∈ clients (the_mon st m') ->
              live_client (focus c st) c'
              /\ monitor (the_client (focus c st) c') = m').
    { intros c' Hc'. rewrite (tag_frame_live_client _ _ c' Hf).
      rewrite (tag_frame_monitor _ _ c' Hf). by apply H5. }
    destruct (decide (m' = m)) as [->|Hne].
    + rewrite Emm. simpl.
      assert (Hts : t ∈ stack (the_mon st m)) by (by apply H4).
      split; [done|].
      split.
      { apply NoDup_cons. split; [by apply unlink_gone | by apply NoDup_unlink]. }
      split.
      { intros c'. rewrite elem_of_cons, <- H4. split.
        - intros [-> | Hin]; [done | by apply unlink_elem in Hin].
        - intros Hin. destruct (decide (c' = t)) as [->|Hct']; [by left|].
          right. by apply unlink_other. }
      split; [done|]. by intros c' [= <-].
    + rewrite Eo by done. done.
  - rewrite (focus_none st c Ht).
    assert (Hls : live_mon st (selected_monitor st))
      by (apply wm_wf_live_mon; [done | by destruct Hwf as (_ & ? & _)]).
    apply wm_wf_pointwise in Hwf as (Hnd & Hsel & Hall).
    apply wm_wf_pointwise. split; [done|]. split; [done|].
    intros m' Hm'. specialize (Hall m' Hm').
    apply mon_wf_pointwise in Hall as (Hl & Hn1 & Hn2 & H4 & H5 & H6).
    apply mon_wf_pointwise.
    split; [by apply live_mon_upd_mon|].
    rewrite the_mon_upd_mon by done.
    case_decide; simpl; repeat (split; [done|]); done.
Qed.

Lemma wm_wf_focus_none st : wm_wf st -> wm_wf (focus None st).
Proof. intros H. by apply wm_wf_focus. Qed.

(** *** Taking a client off its monitor and putting one on *)

Lemma detach_pair_spec st c :
  wm_wf st -> managed st c ->
  let m := monitor (the_client st c) in
  let st' := detachstack c (detach_client c st) in
  wm_wf st' /\ unlisted st' c
  /\ cl st' = cl st /\ monitors st' = monitors st
  /\ selected_monitor st' = selected_monitor st
  /\ (forall m', m' <> m -> the_mon st' m' = the_mon st m')
  /\ clients (the_mon st' m) = unlink c (clients (the_mon st m))
  /\ stack (the_mon st' m) = unlink c (stack (the_mon st m))
  /\ selected_client (the_mon st' m) <> Some c.
Proof.
  intros Hwf (Hlc & Hm & Hc) m st'. fold m in Hm, Hc.
  assert (Hlm : live_mon st m) by (by apply wm_wf_live_mon).
  set (s1 := detach_client c st).
  assert (Hc1 : cl s1 = cl st) by done.
  assert (Hm1 : monitor (the_client s1 c) = m) by done.
  assert (E1 : the_mon s1 m = mset_clients (unlink c (clients (the_mon st m)))
                                (the_mon st m))
    by (by apply the_mon_detach_client_eq).
  assert (Hl1 : live_mon s1 m) by (by apply live_mon_upd_mon).
  assert (Eo1 : forall m', m' <> m -> the_mon s1 m' = the_mon st m').
  { intros m' Hne. unfold s1, detach_client. fold m.
    by rewrite the_mon_upd_mon_ne. }
  destruct (detachstack_globals s1 c) as (Gm & Gs & Gc).
  change (detachstack c s1) with st' in Gm, Gs, Gc.
  assert (E2 : the_mon st' m
               = mset_selected_client
                   (if decide (selected_client (the_mon st m) = Some c)
                    then find_first_visible_client_in_stack s1
                           (unlink c (stack (the_mon st m)))
                    else selected_client (the_mon st m))
                   (mset_stack (unlink c (stack (the_mon st m)))
                      (mset_clients (unlink c (clients (the_mon st m)))
                         (the_mon st m)))).
  { unfold st'. fold s1. rewrite <- Hm1 at 1.
    rewrite the_mon_detachstack_eq by (by rewrite Hm1).
    rewrite Hm1, E1. reflexivity. }
  assert (Eo2 : forall m', m' <> m -> the_mon st' m' = the_mon st m').
  { intros m' Hne. unfold st'. fold s1.
    rewrite detachstack_mon_other by (by rewrite Hm1). by apply Eo1. }
  assert (Hlive : forall m', live_mon st' m' <-> live_mon st m').
  { intros m'. unfold st'. rewrite detachstack_live_mon. apply live_mon_upd_mon. }
  assert (Hcl : forall c', the_client st' c' = the_client st c')
    by (intros; unfold the_client; by rewrite Gc).
  assert (Hlcl : forall c', live_client st' c' <-> live_client st c')
    by (intros; unfold live_client; by rewrite Gc).
  pose proof Hwf as (Hnd & Hsel & Hall)%wm_wf_pointwise.
  pose proof (Hall m Hm) as (_ & Hn1 & Hn2 & H4 & H5 & H6)%mon_wf_pointwise.
  assert (Hsc : selected_client (the_mon st' m) <> Some c).
  { rewrite E2. simpl. case_decide as E.
    - intros Hf. apply find_first_visible_elem in Hf.
      by apply (unlink_gone c (stack (the_mon st m))).
    - done. }
  split.
  { apply wm_wf_pointwise. rewrite Gm. split; [done|]. split; [by rewrite Gs|].
    intros m' Hm'. apply mon_wf_pointwise. rewrite Hlive.
    destruct (decide (m' = m)) as [->|Hne].
    - split; [done|]. rewrite E2. simpl.
      split; [by apply NoDup_unlink|]. split; [by apply NoDup_unlink|].
      assert (Hiff : forall x, x ∈ unlink c (stack (the_mon st m))
                               <-> x ∈ unlink c (clients (the_mon st m))).
      { intros x. split; intros Hx.
        - assert (x <> c) by (intros ->; by apply (unlink_gone c (stack (the_mon st m)))).
          apply unlink_other; [done|]. by apply H4, (unlink_elem c).
        - assert (x <> c) by (intros ->; by apply (unlink_gone c (clients (the_mon st m)))).
          apply unlink_other; [done|]. by apply H4, (unlink_elem c). }
      split; [done|].
      split.
      { intros x Hx. rewrite Hlcl, Hcl. by apply H5, (unlink_elem c). }
      intros x. case_decide as E.
      + intros Hf. apply find_first_visible_elem in Hf. by apply Hiff.
      + intros Hx. apply unlink_other; [congruence | by apply H6].
    - pose proof (Hall m' Hm') as (Hl' & Hn1' & Hn2' & H4' & H5' & H6')%mon_wf_pointwise.
      rewrite Eo2 by done. repeat (split; [done|]). split; [|done].
      intros x Hx. rewrite Hlcl, Hcl. by apply H5'. }
  split.
  { intros m' Hm'. rewrite Gm in Hm'. destruct (decide (m' = m)) as [->|Hne].
    - rewrite E2. simpl. by apply unlink_gone.
    - rewrite Eo2 by done. intros Hin.
      pose proof (Hall m' Hm') as (_ & _ & _ & _ & H5' & _)%mon_wf_pointwise.
      destruct (H5' c Hin) as [_ E]. by apply Hne. }
  split; [done|]. split; [done|]. split; [done|]. split; [done|].
  split; [by rewrite E2|]. split; [by rewrite E2|]. done.
Qed.

Lemma attach_pair_spec st c :
  wm_wf st -> live_client st c -> monitor (the_client st c) ∈ monitors st ->
  unlisted st c ->
  let m := monitor (the_client st c) in
  let st' := attachstack c (attach c st) in
  wm_wf st' /\ managed st' c
  /\ cl st' = cl st /\ monitors st' = monitors st
  /\ selected_monitor st' = selected_monitor st
  /\ (forall m', m' <> m -> the_mon st' m' = the_mon st m')
  /\ the_mon st' m
     = mset_stack (c :: stack (the_mon st m))
         (mset_clients (c :: clients (the_mon st m)) (the_mon st m)).
Proof.
  intros Hwf Hlc Hm Hun m st'. fold m in Hm.
  assert (Hlm : live_mon st m) by (by apply wm_wf_live_mon).
  set (s1 := attach c st).
  assert (Hm1 : monitor (the_client s1 c) = m) by done.
  assert (E1 : the_mon s1 m = mset_clients (c :: clients (the_mon st m))
                                (the_mon st m))
    by (by apply the_mon_attach_eq).
  assert (Hl1 : live_mon s1 m) by (by apply live_mon_upd_mon).
  assert (E2 : the_mon st' m
               = mset_stack (c :: stack (the_mon st m))
                   (mset_clients (c :: clients (the_mon st m)) (the_mon st m))).
  { unfold st'. fold s1. rewrite <- Hm1 at 1.
    rewrite the_mon_attachstack_eq by (by rewrite Hm1). by rewrite Hm1, E1. }
  assert (Eo : forall m', m' <> m -> the_mon st' m' = the_mon st m').
  { intros m' Hne. unfold st', attachstack. fold s1. rewrite Hm1.
    rewrite the_mon_upd_mon_ne by done. unfold s1, attach. fold m.
    by rewrite the_mon_upd_mon_ne. }
  assert (Hlive : forall m', live_mon st' m' <-> live_mon st m').
  { intros m'. unfold st', attachstack, s1, attach.
    by rewrite !live_mon_upd_mon. }
  pose proof Hwf as (Hnd & Hsel & Hall)%wm_wf_pointwise.
  pose proof (Hall m Hm) as (_ & Hn1 & Hn2 & H4 & H5 & H6)%mon_wf_pointwise.
  assert (Hnc : c ∉ clients (the_mon st m)) by (by apply Hun).
  assert (Hns : c ∉ stack (the_mon st m)) by (by rewrite H4).
  split.
  { apply wm_wf_pointwise. split; [done|]. split; [done|].
    intros m' Hm'. apply mon_wf_pointwise. rewrite Hlive.
    destruct (decide (m' = m)) as [->|Hne].
    - split; [done|]. rewrite E2. simpl.
      split; [by apply NoDup_cons|]. split; [by apply NoDup_cons|].
      split; [intros x; by rewrite !elem_of_cons, H4|].
      split.
      { intros x [-> | Hx]%elem_of_cons; [done | by apply H5]. }
      intros x Hx. apply list_elem_of_further. by apply H6.
    - pose proof (Hall m' Hm') as (Hl' & Hn1' & Hn2' & H4' & H5' & H6')%mon_wf_pointwise.
      rewrite Eo by done. done. }
  split.
  { split; [done|]. change (monitor (the_client st' c)) with m.
    split; [done|]. rewrite E2. simpl. apply list_elem_of_here. }
  done.
Qed.

Lemma wm_wf_upd_unlisted st c f :
  wm_wf st -> unlisted st c ->
  wm_wf (upd_client c f st) /\ unlisted (upd_client c f st) c.
Proof.
  intros Hwf Hun. split; [|done].
  apply (wm_wf_clients_agree st); [done..| |done].
  intros m c' Hm Hc'. assert (c <> c') by (intros ->; by apply (Hun m)).
  rewrite live_client_upd_client, the_client_upd_client_ne by done.
  split; [|done]. by destruct (wm_wf_managed st m c' Hwf Hm Hc') as [[? _] _].
Qed.

Lemma wm_wf_alloc st c C :
  wm_wf st -> unlisted st c ->
  wm_wf (set_client_store (<[c := C]> (cl st)) st)
  /\ unlisted (set_client_store (<[c := C]> (cl st)) st) c.
Proof.
  intros Hwf Hun. split; [|done].
  apply (wm_wf_clients_agree st); [done..| |done].
  intros m c' Hm Hc'. assert (c <> c') by (intros ->; by apply (Hun m)).
  unfold live_client, the_client. simpl.
  rewrite lookup_insert_ne, lookup_total_insert_ne by done.
  split; [|done]. by destruct (wm_wf_managed st m c' Hwf Hm Hc') as [[? _] _].
Qed.

Lemma wm_wf_free st c :
  wm_wf st -> unlisted st c ->
  wm_wf (set_client_store (delete c (cl st)) st).
Proof.
  intros Hwf Hun.
  apply (wm_wf_clients_agree st); [done..| |done].
  intros m c' Hm Hc'. assert (c <> c') by (intros ->; by apply (Hun m)).
  unfold live_client, the_client. simpl.
  rewrite lookup_delete_ne, lookup_total_delete_ne by done.
  split; [|done]. by destruct (wm_wf_managed st m c' Hwf Hm Hc') as [[? _] _].
Qed.

Lemma live_not_unlisted_fresh st c :
  wm_wf st -> ¬ live_client st c -> unlisted st c.
Proof.
  intros Hwf Hn m Hm Hc.
  by destruct (wm_wf_managed st m c Hwf Hm Hc) as [[? _] _].
Qed.

(** ** The commands keep the chains in order *)

Lemma managed_tag_frame st st' c :
  tag_frame st' = tag_frame st -> managed st c -> managed st' c.
Proof.
  intros H (Hl & Hm & Hc). unfold managed.
  rewrite (tag_frame_live_client _ _ c H), (tag_frame_monitor _ _ c H),
    (tag_frame_monitors _ _ H), (tag_frame_clients _ _ _ H).
  done.
Qed.

Lemma current_tags_same_mon st st' m :
  the_mon st' m = the_mon st m -> current_tags st' m = current_tags st m.
Proof. intros H. unfold current_tags. by rewrite H. Qed.

Lemma sendmon_spec st c m :
  wm_wf st -> managed st c -> m ∈ monitors st ->
  m <> monitor (the_client st c) ->
  let st' := sendmon cfg c m st in
  wm_wf st' /\ managed st' c
  /\ monitor (the_client st' c) = m
  /\ tags (the_client st' c) = current_tags st m
  /\ clients (the_mon st' m) = c :: clients (the_mon st m)
  /\ clients (the_mon st' (monitor (the_client st c)))
     = unlink c (clients (the_mon st (monitor (the_client st c)))).
Proof.
  intros Hwf Hman Hm Hne st'. unfold st', sendmon.
  rewrite decide_False by done.
  set (m0 := monitor (the_client st c)) in *.
  destruct (detach_pair_spec st c Hwf Hman)
    as (Hwf2 & Hun2 & Hcl2 & Hms2 & Hsel2 & Ho2 & Hc2 & Hs2 & _).
  fold m0 in Ho2, Hc2, Hs2.
  set (s2 := detachstack c (detach_client c st)) in *.
  assert (Hlc2 : live_client s2 c)
    by (unfold live_client; rewrite Hcl2; by destruct Hman).
  destruct (wm_wf_upd_unlisted s2 c (cset_monitor m) Hwf2 Hun2) as [Hwf3 Hun3].
  set (s3 := upd_client c (cset_monitor m) s2) in *.
  assert (Hlc3 : live_client s3 c) by (by apply live_client_upd_client).
  destruct (wm_wf_upd_unlisted s3 c (cset_tags (current_tags s3 m)) Hwf3 Hun3)
    as [Hwf4 Hun4].
  set (s4 := upd_client c (cset_tags (current_tags s3 m)) s3) in *.
  assert (Hlc4 : live_client s4 c) by (by apply live_client_upd_client).
  assert (Ec4 : the_client s4 c
                = cset_tags (current_tags s3 m) (cset_monitor m (the_client s2 c))).
  { unfold s4. rewrite the_client_upd_client_eq by done.
    unfold s3. by rewrite the_client_upd_client_eq. }
  assert (Em4 : monitor (the_client s4 c) = m) by (by rewrite Ec4).
  assert (Hmon4 : forall m', the_mon s4 m' = the_mon s2 m') by done.
  assert (Hms4 : monitors s4 = monitors st) by done.
  destruct (attach_pair_spec s4 c Hwf4 Hlc4)
    as (Hwf6 & Hman6 & Hcl6 & Hms6 & Hsel6 & Ho6 & E6).
  { by rewrite Em4, Hms4. }
  { done. }
  rewrite Em4 in Ho6, E6.
  set (s6 := attachstack c (attach c s4)) in *.
  pose proof (wm_wf_focus_none s6 Hwf6) as Hwf7.
  pose proof (wm_wf_arrange (focus None s6) None Hwf7) as Hwf8.
  assert (Hf : tag_frame (arrange cfg None (focus None s6)) = tag_frame s6)
    by (by rewrite tag_frame_arrange, tag_frame_focus).
  assert (Ect : current_tags s3 m = current_tags st m).
  { apply current_tags_same_mon.
    change (the_mon s3 m) with (the_mon s2 m). by apply Ho2. }
  split; [done|].
  split; [by apply (managed_tag_frame s6)|].
  split; [rewrite (tag_frame_monitor _ _ c Hf);
          change (the_client s6 c) with (the_client s4 c); by rewrite Ec4|].
  split; [rewrite (tag_frame_tags _ _ c Hf);
          change (the_client s6 c) with (the_client s4 c); by rewrite Ec4|].
  split.
  { rewrite (tag_frame_clients _ _ m Hf), E6. simpl.
    by rewrite Hmon4, Ho2. }
  rewrite (tag_frame_clients _ _ m0 Hf).
  rewrite Ho6 by done. by rewrite Hmon4.
Qed.

Lemma wm_wf_sendmon st c m :
  wm_wf st -> managed st c -> m ∈ monitors st -> wm_wf (sendmon cfg c m st).
Proof.
  intros Hwf Hman Hm.
  destruct (decide (m = monitor (the_client st c))) as [E|E].
  - unfold sendmon. by rewrite decide_True.
  - by destruct (sendmon_spec st c m Hwf Hman Hm E).
Qed.

Lemma selected_client_managed st c :
  wm_wf st -> selected_client (the_mon st (selected_monitor st)) = Some c ->
  managed st c /\ monitor (the_client st c) = selected_monitor st.
Proof.
  intros Hwf E. apply wm_wf_selected_client; [done| |done].
  by destruct Hwf as (_ & ? & _).
Qed.

Lemma wm_wf_tagmon st dir : wm_wf st -> wm_wf (tagmon cfg dir st).
Proof.
  intros Hwf. unfold tagmon.
  destruct (selected_client _) as [c|] eqn:E; [|done].
  destruct (single_monitor st); [done|].
  destruct (dirtomon st dir) as [m|] eqn:Ed; [|done].
  apply wm_wf_sendmon; [done| |by apply dirtomon_elem in Ed].
  by destruct (selected_client_managed st c Hwf E).
Qed.

Lemma wm_wf_focusmon st dir : wm_wf st -> wm_wf (focusmon dir st).
Proof.
  intros Hwf. unfold focusmon. destruct (single_monitor st); [done|].
  destruct (dirtomon st dir) as [m|] eqn:Ed; [|done].
  case_decide; [done|].
  apply wm_wf_focus_none, wm_wf_set_selected_monitor; [|done].
  by apply dirtomon_elem in Ed.
Qed.

Lemma recttomon_elem st x y w h :
  selected_monitor st ∈ monitors st -> recttomon st x y w h ∈ monitors st.
Proof.
  intros Hs.
  destruct (recttomon_loop_elem st x y w h (monitors st) 0 (selected_monitor st))
    as [E | E]; unfold recttomon; [by rewrite E | done].
Qed.

Lemma monitors_sendmon st c m : monitors (sendmon cfg c m st) = monitors st.
Proof.
  unfold sendmon. case_decide; [done|].
  rewrite (tag_frame_monitors (attachstack c (attach c
             (upd_client c (cset_tags (current_tags
                (upd_client c (cset_monitor m)
                   (detachstack c (detach_client c st))) m))
                (upd_client c (cset_monitor m)
                   (detachstack c (detach_client c st)))))))
    by (by rewrite tag_frame_arrange, tag_frame_focus).
  simpl. by destruct (detachstack_globals (detach_client c st) c) as (-> & _).
Qed.

Lemma wm_wf_mouse_release st c :
  wm_wf st -> managed st c -> wm_wf (mouse_release cfg c st).
Proof.
  intros Hwf Hman. unfold mouse_release.
  set (C := the_client st c).
  set (m := recttomon st (c_x C) (c_y C) (c_w C) (c_h C)).
  assert (Hm : m ∈ monitors st)
    by (apply recttomon_elem; by destruct Hwf as (_ & ? & _)).
  case_decide; [done|].
  pose proof (wm_wf_sendmon st c m Hwf Hman Hm) as Hwf1.
  apply wm_wf_focus_none, wm_wf_set_selected_monitor; [|done].
  by rewrite monitors_sendmon.
Qed.

Lemma wm_wf_view st i : wm_wf st -> wm_wf (view cfg i st).
Proof.
  intros H. unfold view. destruct (_ =? current_tags _ _); [done|].
  apply wm_wf_arrange, wm_wf_focus_none.
  apply wm_wf_upd_mon; [done|].
  destruct (_ =? 0); apply wm_wf_upd_mon; try done.
  by apply wm_wf_upd_mon.
Qed.

Lemma wm_wf_toggleview st i : wm_wf st -> wm_wf (toggleview cfg i st).
Proof.
  intros H. unfold toggleview. destruct (_ =? 0); [done|].
  by apply wm_wf_arrange, wm_wf_focus_none, wm_wf_upd_mon.
Qed.

Lemma wm_wf_tag st i : wm_wf st -> wm_wf (tag cfg i st).
Proof.
  intros H. unfold tag. destruct (selected_client _); [|done].
  destruct (_ =? 0); [done|].
  by apply wm_wf_arrange, wm_wf_focus_none, wm_wf_upd_client.
Qed.

Lemma wm_wf_toggletag st i : wm_wf st -> wm_wf (toggletag cfg i st).
Proof.
  intros H. unfold toggletag. destruct (selected_client _); [|done].
  destruct (_ =? 0); [done|].
  by apply wm_wf_arrange, wm_wf_focus_none, wm_wf_upd_client.
Qed.

Lemma wm_wf_setmfact st f : wm_wf st -> wm_wf (setmfact cfg f st).
Proof.
  intros H. unfold setmfact. destruct (negb _); [done|].
  destruct (_ || _); [done|]. by apply wm_wf_arrange, wm_wf_upd_mon.
Qed.

Lemma wm_wf_change_masters_count st i :
  wm_wf st -> wm_wf (change_masters_count cfg i st).
Proof. intros H. by apply wm_wf_arrange, wm_wf_upd_mon. Qed.

Lemma wm_wf_setgaps st i : wm_wf st -> wm_wf (setgaps cfg i st).
Proof. intros H. by apply wm_wf_arrange, wm_wf_upd_mon. Qed.

Lemma wm_wf_togglebar st : wm_wf st -> wm_wf (togglebar cfg st).
Proof.
  intros H. apply wm_wf_arrange. unfold updatebarpos.
  apply wm_wf_upd_mon; [intros M; by destruct (showbar M)|].
  by apply wm_wf_upd_mon.
Qed.

Lemma wm_wf_resize st c x y w h i :
  wm_wf st -> wm_wf (resize cfg c x y w h i st).
Proof.
  intros H. apply (wm_wf_chain_frame st); [apply chain_frame_resize| |done].
  destruct (layout_frame_globals st (resize cfg c x y w h i st)
              (layout_frame_resize _ _ _ _ _ _ _)) as (-> & -> & _).
  by destruct H as (_ & ? & _).
Qed.

Lemma wm_wf_togglefloating st : wm_wf st -> wm_wf (togglefloating cfg st).
Proof.
  intros H. unfold togglefloating. destruct (selected_client _) as [c|]; [|done].
  destruct (isfullscreen _); [done|].
  apply wm_wf_arrange.
  assert (H1 : wm_wf (upd_client c
            (fun C => cset_isfloating (negb (isfloating C) || isfixed C) C) st))
    by (by apply wm_wf_upd_client).
  destruct (isfloating _); [by apply wm_wf_resize | done].
Qed.

Lemma wm_wf_setfullscreen st c f : wm_wf st -> wm_wf (setfullscreen cfg c f st).
Proof.
  intros H. unfold setfullscreen.
  destruct (f && _).
  - unfold resizeclient. by repeat (apply wm_wf_upd_client; [done|]).
  - destruct (negb f && _); [|done].
    apply wm_wf_arrange. unfold resizeclient.
    by repeat (apply wm_wf_upd_client; [done|]).
Qed.

(** ** Moving within a list: [pop], [zoom], [focusstack] *)

Lemma detach_attach_spec st c :
  wm_wf st -> managed st c ->
  let m := monitor (the_client st c) in
  let st' := attach c (detach_client c st) in
  wm_wf st' /\ managed st' c
  /\ cl st' = cl st /\ monitors st' = monitors st
  /\ selected_monitor st' = selected_monitor st
  /\ (forall m', m' <> m -> the_mon st' m' = the_mon st m')
  /\ the_mon st' m
     = mset_clients (c :: unlink c (clients (the_mon st m))) (the_mon st m).
Proof.
  intros Hwf (Hlc & Hm & Hc) m st'. fold m in Hm, Hc.
  assert (Hlm : live_mon st m) by (by apply wm_wf_live_mon).
  set (s1 := detach_client c st).
  assert (Hm1 : monitor (the_client s1 c) = m) by done.
  assert (E1 : the_mon s1 m = mset_clients (unlink c (clients (the_mon st m)))
                                (the_mon st m))
    by (by apply the_mon_detach_client_eq).
  assert (Hl1 : live_mon s1 m) by (by apply live_mon_upd_mon).
  assert (E2 : the_mon st' m
               = mset_clients (c :: unlink c (clients (the_mon st m)))
                   (the_mon st m)).
  { unfold st'. fold s1. rewrite <- Hm1 at 1.
    rewrite the_mon_attach_eq by (by rewrite Hm1). by rewrite Hm1, E1. }
  assert (Eo : forall m', m' <> m -> the_mon st' m' = the_mon st m').
  { intros m' Hne. unfold st', attach. fold s1. rewrite Hm1.
    rewrite the_mon_upd_mon_ne by done. unfold s1, detach_client. fold m.
    by rewrite the_mon_upd_mon_ne. }
  assert (Hlive : forall m', live_mon st' m' <-> live_mon st m').
  { intros m'. unfold st', attach, detach_client. by rewrite !live_mon_upd_mon. }
  pose proof Hwf as (Hnd & Hsel & Hall)%wm_wf_pointwise.
  pose proof (Hall m Hm) as (_ & Hn1 & Hn2 & H4 & H5 & H6)%mon_wf_pointwise.
  assert (Hiff : forall x, x ∈ c :: unlink c (clients (the_mon st m))
                           <-> x ∈ clients (the_mon st m)).
  { intros x. rewrite elem_of_cons. split.
    - intros [-> | Hx]; [done | by apply (unlink_elem c)].
    - intros Hx. destruct (decide (x = c)) as [->|Hxc]; [by left|].
      right. by apply unlink_other. }
  split.
  { apply wm_wf_pointwise. split; [done|]. split; [done|].
    intros m' Hm'. apply mon_wf_pointwise. rewrite Hlive.
    destruct (decide (m' = m)) as [->|Hne].
    - split; [done|]. rewrite E2. simpl.
      split.
      { apply NoDup_cons. split; [by apply unlink_gone | by apply NoDup_unlink]. }
      split; [done|].
      split; [intros x; by rewrite Hiff|].
      split; [intros x Hx; by apply H5, Hiff|].
      intros x Hx. by apply Hiff, H6.
    - pose proof (Hall m' Hm') as Hw%mon_wf_pointwise.
      by rewrite Eo. }
  split.
  { split; [done|]. change (monitor (the_client st' c)) with m.
    split; [done|]. rewrite E2. simpl. apply list_elem_of_here. }
  done.
Qed.

Lemma pop_spec st c :
  wm_wf st -> managed st c ->
  let m := monitor (the_client st c) in
  wm_wf (pop cfg c st)
  /\ clients (the_mon (pop cfg c st) m)
     = c :: unlink c (clients (the_mon st m))
  /\ forall m', m' <> m ->
       clients (the_mon (pop cfg c st) m') = clients (the_mon st m').
Proof.
  intros Hwf Hman m.
  destruct (detach_attach_spec st c Hwf Hman)
    as (Hwf1 & Hman1 & _ & _ & _ & Eo & E1).
  fold m in Eo, E1.
  set (s1 := attach c (detach_client c st)) in *.
  assert (Hwf2 : wm_wf (focus (Some c) s1)).
  { apply wm_wf_focus; [done|]. by intros c' [= <-] _. }
  unfold pop. fold s1.
  set (s2 := focus (Some c) s1) in *.
  assert (Hf : tag_frame (arrange cfg (Some (monitor (the_client s2 c))) s2)
               = tag_frame s1)
    by (unfold s2; by rewrite tag_frame_arrange, tag_frame_focus).
  split; [by apply wm_wf_arrange|].
  split.
  - by rewrite (tag_frame_clients _ _ m Hf), E1.
  - intros m' Hne. by rewrite (tag_frame_clients _ _ m' Hf), Eo.
Qed.

Lemma nexttiled_elem st l x : x ∈ nexttiled st l -> x ∈ l.
Proof.
  induction l as [|d r IH]; simpl; [done|].
  destruct (is_tiled st d); [done|]. intros H. by apply list_elem_of_further, IH.
Qed.

Lemma tail_elem (l : list Cid) x : x ∈ tail l -> x ∈ l.
Proof. destruct l; simpl; [done|]. apply list_elem_of_further. Qed.

Lemma wm_wf_zoom st : wm_wf st -> wm_wf (zoom cfg st).
Proof.
  intros Hwf. unfold zoom.
  assert (Hsel : selected_monitor st ∈ monitors st) by (by destruct Hwf as (_ & ? & _)).
  destruct (negb _ || _); [done|].
  destruct (selected_client _) as [sc|] eqn:Esc.
  - destruct (selected_client_managed st sc Hwf Esc) as [Hman _].
    case_decide.
    + destruct (nexttiled st (tail _)) as [|c r] eqn:En; [done|].
      assert (Hc : c ∈ clients (the_mon st (selected_monitor st))).
      { apply (nexttiled_elem st), tail_elem, (nexttiled_elem st).
        rewrite En. apply list_elem_of_here. }
      destruct (wm_wf_managed st _ c Hwf Hsel Hc) as [Hmc _].
      by destruct (pop_spec st c Hwf Hmc).
    + by destruct (pop_spec st sc Hwf Hman).
  - by case_decide.
Qed.

Lemma after_elem (c : Cid) l x : x ∈ after c l -> x ∈ l.
Proof.
  induction l as [|d r IH]; simpl; [done|].
  case_decide; intros H'; apply list_elem_of_further; auto.
Qed.

Lemma find_first_visible_client_elem st l e c :
  find_first_visible_client st l e = Some c -> c ∈ l.
Proof.
  induction l as [|d r IH]; simpl; [done|].
  case_decide as E.
  - intros H'. rewrite <- E in H'. injection H' as <-. apply list_elem_of_here.
  - destruct (ISVISIBLE st d).
    + intros [= <-]. apply list_elem_of_here.
    + intros H'. by apply list_elem_of_further, IH.
Qed.

Lemma find_last_visible_client_elem st l e acc c :
  find_last_visible_client st l e acc = Some c -> c ∈ l \/ acc = Some c.
Proof.
  revert acc. induction l as [|d r IH]; intros acc; simpl; [by right|].
  case_decide as E; [by right|].
  intros H'. destruct (IH _ H') as [Hin | Hacc].
  - left. by apply list_elem_of_further.
  - destruct (ISVISIBLE st d); [|by right].
    injection Hacc as <-. left. apply list_elem_of_here.
Qed.

Lemma wm_wf_focusstack st lf dir : wm_wf st -> wm_wf (focusstack lf dir st).
Proof.
  intros Hwf. unfold focusstack.
  assert (Hsel : selected_monitor st ∈ monitors st) by (by destruct Hwf as (_ & ? & _)).
  destruct (selected_client _) as [sc|] eqn:Esc; [|done].
  destruct (selected_client_managed st sc Hwf Esc) as [Hman Hmsc].
  destruct (_ && _); [done|].
  assert (Hnext : forall x, x ∈ next_clients st sc ->
                            x ∈ clients (the_mon st (selected_monitor st))).
  { intros x Hx. unfold next_clients in Hx. rewrite Hmsc in Hx.
    by apply after_elem in Hx. }
  set (target := if 0 <? dir then _ else _).
  assert (Ht : forall c, target = Some c ->
                         c ∈ clients (the_mon st (selected_monitor st))).
  { intros c. unfold target. destruct (0 <? dir).
    - destruct (find_first_visible_client st (next_clients st sc) None)
        as [c'|] eqn:E1.
      + intros [= <-]. by apply Hnext, (find_first_visible_client_elem st _ None).
      + apply find_first_visible_client_elem.
    - destruct (find_last_visible_client st _ (Some sc) None) as [c'|] eqn:E1.
      + intros [= <-]. by destruct (find_last_visible_client_elem _ _ _ _ _ E1).
      + intros E2.
        destruct (find_last_visible_client_elem _ _ _ _ _ E2) as [?|?]; [|done].
        by apply Hnext. }
  destruct target as [c|]; [|done].
  apply wm_wf_focus; [done|]. intros c' [= <-] _.
  by destruct (wm_wf_managed st _ c Hwf Hsel (Ht c eq_refl)).
Qed.

(** ** Windows coming and going *)

Lemma window_to_client_managed st w c :
  wm_wf st -> window_to_client st w = Some c -> managed st c.
Proof.
  intros Hwf E. apply window_to_client_loop_Some in E as (_ & m & Hm & Hc).
  by destruct (wm_wf_managed st m c Hwf Hm Hc).
Qed.

Lemma unmanage_spec st c :
  wm_wf st -> managed st c ->
  let st' := unmanage cfg c st in
  wm_wf st' /\ ¬ live_client st' c /\ unlisted st' c
  /\ monitors st' = monitors st
  /\ (forall m, m ∈ monitors st ->
        clients (the_mon st' m) = unlink c (clients (the_mon st m)))
  /\ (forall c', c' <> c -> live_client st' c' <-> live_client st c').
Proof.
  intros Hwf Hman st'. unfold st', unmanage.
  set (m := monitor (the_client st c)).
  destruct (detach_pair_spec st c Hwf Hman)
    as (Hwf2 & Hun2 & Hcl2 & Hms2 & Hsel2 & Ho2 & Hc2 & Hs2 & _).
  fold m in Ho2, Hc2, Hs2.
  set (s2 := detachstack c (detach_client c st)) in *.
  pose proof (wm_wf_free s2 c Hwf2 Hun2) as Hwf3.
  set (s3 := set_client_store (delete c (cl s2)) s2) in *.
  pose proof (wm_wf_focus_none s3 Hwf3) as Hwf4.
  pose proof (wm_wf_arrange _ (Some m) Hwf4) as Hwf5.
  assert (Hf : tag_frame (arrange cfg (Some m) (focus None s3)) = tag_frame s3)
    by (by rewrite tag_frame_arrange, tag_frame_focus).
  assert (Hcl : forall m', m' ∈ monitors st ->
                  clients (the_mon s3 m') = unlink c (clients (the_mon st m'))).
  { intros m' Hin. change (the_mon s3 m') with (the_mon s2 m').
    destruct (decide (m' = m)) as [->|Hne]; [done|].
    rewrite Ho2 by done.
    rewrite unlink_notin; [done|]. intros Hc.
    destruct (wm_wf_managed st m' c Hwf Hin Hc) as [_ E]. by apply Hne. }
  split; [done|].
  split.
  { rewrite (tag_frame_live_client _ _ c Hf). unfold live_client. simpl.
    rewrite lookup_delete_eq. by intros [? ?]. }
  split.
  { intros m' Hm'. rewrite (tag_frame_monitors _ _ Hf) in Hm'.
    rewrite (tag_frame_clients _ _ m' Hf). by apply Hun2. }
  split; [by rewrite (tag_frame_monitors _ _ Hf)|].
  split; [intros m' Hin; rewrite (tag_frame_clients _ _ m' Hf); by apply Hcl|].
  intros c' Hne. rewrite (tag_frame_live_client _ _ c' Hf).
  unfold live_client. simpl. rewrite lookup_delete_ne by done. by rewrite Hcl2.
Qed.

(** ** [manage] *)

Lemma manage_stages c w wa wp st :
  manage cfg c w wa wp st
  = let s1 := manage_home cfg c wp (manage_alloc c w wa wp st) in
    let m := monitor (the_client s1 c) in
    let M := the_mon s1 m in
    manage_show cfg c m
      (manage_settle c M wp
         (manage_props cfg c wp (manage_place cfg c M s1))).
Proof. reflexivity. Qed.

Lemma proj_upd_client {A} (p : Client -> A) st c f x :
  (forall C, p (f C) = p C) ->
  p (the_client (upd_client c f st) x) = p (the_client st x).
Proof.
  intros Hf. unfold the_client, upd_client. simpl.
  destruct (decide (c = x)) as [->|Hne];
    [|by rewrite lookup_total_alter_ne].
  rewrite !lookup_total_alt, lookup_alter_eq.
  destruct (cl st !! x); simpl; [apply Hf | done].
Qed.

Lemma stores_into_refl c st : stores_into c st st.
Proof. done. Qed.

Lemma stores_into_trans c s1 s2 s3 :
  stores_into c s1 s2 -> stores_into c s2 s3 -> stores_into c s1 s3.
Proof.
  intros (A1 & A2 & A3 & A4 & A5 & A6) (B1 & B2 & B3 & B4 & B5 & B6).
  split; [congruence|]. split; [congruence|]. split; [congruence|].
  split; [intros c' Hc'; by rewrite B4, A4|].
  split; [by rewrite B5|congruence].
Qed.

Lemma stores_into_upd_client c f st :
  (forall C, window (f C) = window C) -> stores_into c st (upd_client c f st).
Proof.
  intros Hf. repeat (split; [done|]).
  split; [intros c' Hc'; simpl; by rewrite lookup_alter_ne|].
  split; [apply live_client_upd_client | by apply proj_upd_client].
Qed.

Lemma dresses_refl c st : dresses c st st.
Proof. done. Qed.

Lemma dresses_trans c s1 s2 s3 :
  dresses c s1 s2 -> dresses c s2 s3 -> dresses c s1 s3.
Proof.
  intros (A & A1 & A2) (B & B1 & B2).
  split; [by apply (stores_into_trans c s1 s2)|]. split; congruence.
Qed.

Lemma dresses_upd_client c f st :
  (forall C, window (f C) = window C) ->
  (forall C, monitor (f C) = monitor C) ->
  (forall C, tags (f C) = tags C) ->
  dresses c st (upd_client c f st).
Proof.
  intros H1 H2 H3. split; [by apply stores_into_upd_client|].
  split; by apply proj_upd_client.
Qed.

Lemma dresses_setfullscreen_on c st : dresses c st (setfullscreen cfg c true st).
Proof.
  unfold setfullscreen. simpl. destruct (negb _); [|apply dresses_refl].
  eapply dresses_trans; [|by apply dresses_upd_client].
  by apply dresses_upd_client.
Qed.

Lemma dresses_updatesizehints size c st :
  dresses c st (updatesizehints size c st).
Proof.
  unfold updatesizehints.
  repeat match goal with |- context [if ?b then _ else _] => destruct b end;
    by apply dresses_upd_client.
Qed.

Lemma dresses_updatewmhints wmh c st : dresses c st (updatewmhints wmh c st).
Proof.
  unfold updatewmhints. destruct wmh as [h|]; [|apply dresses_refl].
  eapply dresses_trans; [|by apply dresses_upd_client].
  destruct (_ && _); [apply dresses_refl | by apply dresses_upd_client].
Qed.

Lemma dresses_updatewindowtype a b c st :
  dresses c st (updatewindowtype cfg a b c st).
Proof.
  unfold updatewindowtype.
  assert (H : dresses c st (if a then setfullscreen cfg c true st else st))
    by (destruct a; [apply dresses_setfullscreen_on | apply dresses_refl]).
  destruct b; [|done].
  eapply dresses_trans; [exact H|]. by apply dresses_upd_client.
Qed.

Lemma dresses_manage_props c wp st : dresses c st (manage_props cfg c wp st).
Proof.
  unfold manage_props.
  eapply dresses_trans; [apply dresses_updatewindowtype|].
  eapply dresses_trans; [apply dresses_updatesizehints|].
  apply dresses_updatewmhints.
Qed.

Lemma dresses_manage_place c M st : dresses c st (manage_place cfg c M st).
Proof. by apply dresses_upd_client. Qed.

Lemma dresses_manage_settle c M wp st : dresses c st (manage_settle c M wp st).
Proof.
  unfold manage_settle. cbv zeta.
  eapply dresses_trans;
    [|apply dresses_upd_client; intros C; by destruct (isfloating C)].
  by apply dresses_upd_client.
Qed.

Lemma stores_into_manage_alloc c w wa wp st :
  let st' := manage_alloc c w wa wp st in
  monitors st' = monitors st /\ selected_monitor st' = selected_monitor st
  /\ mon st' = mon st
  /\ (forall c', c' <> c -> cl st' !! c' = cl st !! c')
  /\ live_client st' c
  /\ window (the_client st' c) = w
  /\ tags (the_client st' c) = 0.
Proof.
  intros st'. unfold st', manage_alloc, updatetitle.
  repeat (split; [done|]).
  split.
  { intros c' Hc'. simpl. by rewrite lookup_alter_ne, lookup_insert_ne. }
  split.
  { apply live_client_upd_client. unfold live_client. simpl.
    rewrite lookup_insert_eq. eauto. }
  split.
  - rewrite (proj_upd_client window) by done.
    unfold the_client. simpl. by rewrite lookup_total_insert_eq.
  - rewrite (proj_upd_client tags) by done.
    unfold the_client. simpl. by rewrite lookup_total_insert_eq.
Qed.

Lemma stores_into_apply_rule class instance c st r :
  stores_into c st (apply_rule class instance c st r).
Proof.
  unfold apply_rule. destruct (rule_matches _ _ _ _); [|apply stores_into_refl].
  destruct (monitor_with_num _ _ _);
    [eapply stores_into_trans|]; by apply stores_into_upd_client.
Qed.

Lemma stores_into_applyrules rc rn c st :
  stores_into c st (applyrules cfg rc rn c st).
Proof.
  unfold applyrules.
  set (s0 := upd_client c (fun C => cset_tags 0 (cset_isfloating false C)) st).
  assert (H0 : stores_into c st s0) by (by apply stores_into_upd_client).
  set (s1 := fold_left _ _ s0).
  assert (H1 : stores_into c s0 s1).
  { unfold s1. generalize s0. generalize (rules cfg). intros rs.
    induction rs as [|r rs IH]; intros s; simpl; [apply stores_into_refl|].
    eapply stores_into_trans; [apply stores_into_apply_rule | apply IH]. }
  eapply stores_into_trans; [exact H0|].
  eapply stores_into_trans; [exact H1|].
  by apply stores_into_upd_client.
Qed.

Lemma stores_into_manage_home c wp st :
  stores_into c st (manage_home cfg c wp st).
Proof.
  assert (Hr : stores_into c st
                 (applyrules cfg (wp_class wp) (wp_instance wp) c
                    (upd_client c (cset_monitor (selected_monitor st)) st))).
  { eapply stores_into_trans; [|apply stores_into_applyrules].
    by apply stores_into_upd_client. }
  unfold manage_home. destruct (wp_transient_for wp) as [trans|]; [|done].
  destruct (window_to_client st trans) as [t|]; [|done].
  by apply stores_into_upd_client.
Qed.

Lemma applyrules_monitor_elem rc rn c st :
  live_client st c -> monitor (the_client st c) ∈ monitors st ->
  monitor (the_client (applyrules cfg rc rn c st) c) ∈ monitors st.
Proof.
  intros Hl Hm. unfold applyrules.
  rewrite (proj_upd_client monitor) by done.
  set (s0 := upd_client c (fun C => cset_tags 0 (cset_isfloating false C)) st).
  assert (H0 : live_client s0 c /\ monitor (the_client s0 c) ∈ monitors s0
               /\ monitors s0 = monitors st).
  { split; [by apply live_client_upd_client|]. split; [|done].
    unfold s0. by rewrite (proj_upd_client monitor). }
  clearbody s0. revert s0 H0. generalize (rules cfg). intros rs.
  induction rs as [|r rs IH]; intros s (Hls & Hms & Hmm); simpl;
    [by rewrite <- Hmm|].
  apply IH. unfold apply_rule.
  destruct (rule_matches _ _ _ _); [|done].
  set (s' := upd_client c _ s).
  assert (Hls' : live_client s' c) by (by apply live_client_upd_client).
  destruct (monitor_with_num s' (monitors s') (r_monitor r)) as [m|] eqn:E.
  - split; [by apply live_client_upd_client|]. split; [|done].
    rewrite the_client_upd_client_eq by done. simpl.
    by apply monitor_with_num_elem in E.
  - split; [done|]. split; [|done].
    unfold s'. by rewrite (proj_upd_client monitor).
Qed.

Lemma manage_home_monitor_elem c wp st :
  wm_wf st -> live_client st c ->
  monitor (the_client (manage_home cfg c wp st) c) ∈ monitors st.
Proof.
  intros Hwf Hl.
  assert (Hr : monitor (the_client
                 (applyrules cfg (wp_class wp) (wp_instance wp) c
                    (upd_client c (cset_monitor (selected_monitor st)) st)) c)
               ∈ monitors st).
  { apply (applyrules_monitor_elem _ _ _
             (upd_client c (cset_monitor (selected_monitor st)) st)).
    - by apply live_client_upd_client.
    - rewrite the_client_upd_client_eq by done. simpl.
      by destruct Hwf as (_ & ? & _). }
  unfold manage_home. destruct (wp_transient_for wp) as [trans|]; [|done].
  destruct (window_to_client st trans) as [t|] eqn:Et; [|done].
  rewrite the_client_upd_client_eq by done. simpl.
  by destruct (window_to_client_managed st trans t Hwf Et) as (_ & ? & _).
Qed.

Lemma wm_wf_select st m c :
  wm_wf st -> c ∈ clients (the_mon st m) ->
  wm_wf (upd_mon m (mset_selected_client (Some c)) st).
Proof.
  intros Hwf Hc.
  destruct (decide (live_mon st m)) as [Hl|Hl]; [|by rewrite upd_mon_dead].
  pose proof Hwf as (Hnd & Hsel & Hall)%wm_wf_pointwise.
  apply wm_wf_pointwise. split; [done|]. split; [done|].
  intros m' Hm'. pose proof (Hall m' Hm') as Hw%mon_wf_pointwise.
  apply mon_wf_pointwise. rewrite live_mon_upd_mon, the_mon_upd_mon by done.
  case_decide as E; [|done]. subst m'. simpl.
  destruct Hw as (? & ? & ? & ? & ? & _). repeat (split; [done|]).
  by intros x [= <-].
Qed.

(** The part of [manage] before [attach]. *)
Lemma manage_prepares st c w wa wp :
  wm_wf st -> ¬ live_client st c ->
  let s1 := manage_home cfg c wp (manage_alloc c w wa wp st) in
  let m := monitor (the_client s1 c) in
  let s4 := manage_settle c (the_mon s1 m) wp
              (manage_props cfg c wp (manage_place cfg c (the_mon s1 m) s1)) in
  pending s4 c /\ monitor (the_client s4 c) = m
  /\ window (the_client s4 c) = w
  /\ tags (the_client s4 c) = tags (the_client s1 c)
  /\ monitors s4 = monitors st /\ selected_monitor s4 = selected_monitor st
  /\ mon s4 = mon st
  /\ (forall c', c' <> c -> cl s4 !! c' = cl st !! c').
Proof.
  intros Hwf Hfresh s1 m s4.
  pose proof (live_not_unlisted_fresh st c Hwf Hfresh) as Hun.
  destruct (stores_into_manage_alloc c w wa wp st)
    as (A1 & A2 & A3 & A4 & A5 & A6 & _).
  set (s0 := manage_alloc c w wa wp st) in *.
  assert (Hwf0 : wm_wf s0).
  { apply (wm_wf_clients_agree st); [done..| |done].
    intros m' c' Hm' Hc'. assert (c' <> c) by (intros ->; by apply (Hun m')).
    unfold live_client, the_client. rewrite !lookup_total_alt, A4 by done.
    split; [|done]. by destruct (wm_wf_managed st m' c' Hwf Hm' Hc') as [[? _] _]. }
  pose proof (stores_into_manage_home c wp s0) as (B1 & B2 & B3 & B4 & B5 & B6).
  fold s1 in B1, B2, B3, B4, B5, B6.
  assert (Hm : m ∈ monitors st).
  { unfold m, s1. rewrite <- A1. by apply manage_home_monitor_elem. }
  assert (D : dresses c s1 s4).
  { unfold s4. eapply dresses_trans; [apply dresses_manage_place|].
    eapply dresses_trans; [apply dresses_manage_props|].
    apply dresses_manage_settle. }
  destruct D as ((D1 & D2 & D3 & D4 & D5 & D6) & D7 & D8).
  assert (Hother : forall c', c' <> c -> cl s4 !! c' = cl st !! c')
    by (intros c' Hc'; by rewrite D4, B4, A4).
  assert (Hmon : mon s4 = mon st) by congruence.
  assert (Hms : monitors s4 = monitors st) by congruence.
  assert (Hsel : selected_monitor s4 = selected_monitor st) by congruence.
  assert (Hwf4 : wm_wf s4).
  { apply (wm_wf_clients_agree st); [done..| |done].
    intros m' c' Hm' Hc'. assert (c' <> c) by (intros ->; by apply (Hun m')).
    unfold live_client, the_client. rewrite !lookup_total_alt, Hother by done.
    split; [|done]. by destruct (wm_wf_managed st m' c' Hwf Hm' Hc') as [[? _] _]. }
  split.
  { split; [done|]. split.
    - intros m' Hm'. rewrite Hms in Hm'. unfold the_mon. rewrite Hmon.
      by apply Hun.
    - split; [by apply D5, B5|]. by rewrite D7, Hms. }
  split; [done|]. split; [congruence|]. done.
Qed.

Lemma manage_spec st c w wa wp :
  wm_wf st -> ¬ live_client st c ->
  let st' := manage cfg c w wa wp st in
  let m := monitor (the_client st' c) in
  wm_wf st' /\ managed st' c
  /\ window (the_client st' c) = w
  /\ monitors st' = monitors st
  /\ clients (the_mon st' m) = c :: clients (the_mon st m)
  /\ (forall m', m' <> m ->
        clients (the_mon st' m') = clients (the_mon st m'))
  /\ (forall c', c' <> c ->
        (live_client st' c' <-> live_client st c')
        /\ erase_urgent (the_client st' c') = erase_urgent (the_client st c')).
Proof.
  intros Hwf Hfresh st' m'. unfold m', st'. clear m' st'.
  rewrite manage_stages. cbv zeta.
  destruct (manage_prepares st c w wa wp Hwf Hfresh)
    as ((Hwf4 & Hun4 & Hl4 & Hm4) & Em & Ew & _ & Hms & Hsel & Hmon & Hother).
  set (s1 := manage_home cfg c wp (manage_alloc c w wa wp st)) in *.
  set (m := monitor (the_client s1 c)) in *.
  set (s4 := manage_settle c (the_mon s1 m) wp _) in *.
  destruct (attach_pair_spec s4 c Hwf4 Hl4 Hm4 Hun4)
    as (Hwf5 & Hman5 & Hcl5 & Hms5 & Hsel5 & Ho5 & E5).
  rewrite Em in Ho5, E5.
  set (s5 := attachstack c (attach c s4)) in *.
  assert (Hc5 : c ∈ clients (the_mon s5 m))
    by (rewrite E5; apply list_elem_of_here).
  pose proof (wm_wf_select s5 m c Hwf5 Hc5) as Hwf6.
  set (s6 := upd_mon m (mset_selected_client (Some c)) s5) in *.
  assert (Hwf8 : wm_wf (manage_show cfg c m s4))
    by (unfold manage_show; by apply wm_wf_focus_none, wm_wf_arrange).
  assert (Hf : tag_frame (manage_show cfg c m s4) = tag_frame s5).
  { unfold manage_show. rewrite tag_frame_focus, tag_frame_arrange.
    by apply tag_frame_upd_mon. }
  assert (Emon : monitor (the_client (manage_show cfg c m s4) c) = m).
  { rewrite (tag_frame_monitor _ _ c Hf).
    change (the_client s5 c) with (the_client s4 c). done. }
  rewrite Emon.
  assert (Hmon4 : forall x, the_mon s4 x = the_mon st x)
    by (intros; unfold the_mon; by rewrite Hmon).
  split; [done|].
  split; [by apply (managed_tag_frame s5)|].
  split.
  { rewrite (tag_frame_window _ _ c Hf). exact Ew. }
  split; [by rewrite (tag_frame_monitors _ _ Hf), Hms5|].
  split; [by rewrite (tag_frame_clients _ _ m Hf), E5; simpl; rewrite Hmon4|].
  split.
  { intros x Hx. by rewrite (tag_frame_clients _ _ x Hf), Ho5, Hmon4. }
  intros c' Hc'. rewrite (tag_frame_live_client _ _ c' Hf).
  rewrite (tag_frame_client _ _ c' Hf).
  unfold live_client, the_client. rewrite Hcl5, !lookup_total_alt, Hother by done.
  done.
Qed.

(** ** The event handlers keep the chains in order *)

Lemma fresh_client_dead st : ¬ live_client st (fresh (dom (cl st))).
Proof.
  intros [C E]. apply (is_fresh (dom (cl st))). apply elem_of_dom. by exists C.
Qed.

Lemma wm_wf_maprequest st w attrs wp :
  wm_wf st -> wm_wf (maprequest cfg w attrs wp st).
Proof.
  intros Hwf. unfold maprequest. destruct attrs as [[wa []]|]; try done.
  destruct (window_to_client st w); [done|].
  by destruct (manage_spec st _ w wa wp Hwf (fresh_client_dead st)).
Qed.

Lemma wm_wf_destroynotify st w : wm_wf st -> wm_wf (destroynotify cfg w st).
Proof.
  intros Hwf. unfold destroynotify.
  destruct (window_to_client st w) as [c|] eqn:E; [|done].
  by destruct (unmanage_spec st c Hwf (window_to_client_managed st w c Hwf E)).
Qed.

Lemma wm_wf_unmapnotify st w se : wm_wf st -> wm_wf (unmapnotify cfg w se st).
Proof.
  intros Hwf. unfold unmapnotify.
  destruct (window_to_client st w) as [c|] eqn:E; [|done].
  destruct se; [done|].
  by destruct (unmanage_spec st c Hwf (window_to_client_managed st w c Hwf E)).
Qed.

Lemma monitor_request M ev C :
  monitor (request_centre M (request_size ev (request_position M ev C)))
  = monitor C.
Proof.
  assert (H1 : forall C', monitor (request_centre M C') = monitor C').
  { intros C'. unfold request_centre. cbv zeta.
    destruct (_ && _); by destruct (_ && _). }
  assert (H2 : forall C', monitor (request_size ev C') = monitor C').
  { intros C'. unfold request_size. by destruct (CWWidth ev), (CWHeight ev). }
  assert (H3 : forall C', monitor (request_position M ev C') = monitor C').
  { intros C'. unfold request_position. by destruct (CWX ev), (CWY ev). }
  by rewrite H1, H2, H3.
Qed.

Lemma wm_wf_configurerequest st w ev :
  wm_wf st -> wm_wf (configurerequest w ev st).
Proof.
  intros Hwf. unfold configurerequest.
  destruct (window_to_client st w) as [c|]; [|done].
  destruct (CWBorderWidth ev); [by apply wm_wf_upd_client|].
  destruct (_ || _); [|done].
  apply wm_wf_upd_client; [|done]. intros C. apply monitor_request.
Qed.

Lemma wm_wf_seturgent st c u : wm_wf st -> wm_wf (seturgent c u st).
Proof. intros H. by apply wm_wf_upd_client. Qed.

Lemma wm_wf_clientmessage st w mt nf action :
  wm_wf st -> wm_wf (clientmessage cfg w mt nf action st).
Proof.
  intros Hwf. unfold clientmessage.
  destruct (window_to_client st w) as [c|]; [|done].
  destruct mt; [| |done].
  - destruct nf; [by apply wm_wf_setfullscreen | done].
  - destruct (_ && _); [by apply wm_wf_seturgent | done].
Qed.

Lemma monitor_with_bar_elem st ms w m :
  monitor_with_bar st ms w = Some m -> m ∈ ms.
Proof.
  induction ms as [|d r IH]; simpl; [done|].
  destruct (_ =? _).
  - intros [= ->]. apply list_elem_of_here.
  - intros H. by apply list_elem_of_further, IH.
Qed.

Lemma window_to_monitor_elem root ptr st w :
  wm_wf st -> window_to_monitor root ptr st w ∈ monitors st.
Proof.
  intros Hwf. unfold window_to_monitor.
  assert (Hsel : selected_monitor st ∈ monitors st) by (by destruct Hwf as (_ & ? & _)).
  destruct (if w =? root then ptr else None) as [[x y]|];
    [by apply recttomon_elem|].
  destruct (monitor_with_bar st (monitors st) w) as [m|] eqn:E;
    [by apply monitor_with_bar_elem in E|].
  destruct (window_to_client st w) as [c|] eqn:Ec; [|done].
  by destruct (window_to_client_managed st w c Hwf Ec) as (_ & ? & _).
Qed.

Lemma wm_wf_enternotify st root ptr w normal :
  wm_wf st -> wm_wf (enternotify root ptr w normal st).
Proof.
  intros Hwf. unfold enternotify. destruct (_ && _); [done|].
  set (m := match window_to_client st w with Some _ => _ | None => _ end).
  assert (Hm : m ∈ monitors st).
  { unfold m. destruct (window_to_client st w) as [c|] eqn:Ec.
    - by destruct (window_to_client_managed st w c Hwf Ec) as (_ & ? & _).
    - by apply window_to_monitor_elem. }
  assert (Hc : forall c', window_to_client st w = Some c' -> managed st c')
    by (intros c'; by apply window_to_client_managed).
  destruct (negb _).
  - apply wm_wf_focus; [by apply wm_wf_set_selected_monitor|].
    intros c' E _. by apply Hc.
  - destruct (window_to_client st w) as [c|] eqn:Ec; [|done].
    case_bool_decide; [done|]. apply wm_wf_focus; [done|].
    intros c' [= <-] _. by apply Hc.
Qed.

Lemma wm_wf_handle root lf i st :
  wm_wf st -> wm_wf (handle cfg root lf i st).
Proof.
  intros Hwf. destruct i; simpl.
  - by apply wm_wf_view.
  - by apply wm_wf_toggleview.
  - by apply wm_wf_tag.
  - by apply wm_wf_toggletag.
  - by apply wm_wf_tagmon.
  - by apply wm_wf_focusmon.
  - by apply wm_wf_focusstack.
  - by apply wm_wf_zoom.
  - by apply wm_wf_togglefloating.
  - by apply wm_wf_togglebar.
  - by apply wm_wf_setgaps.
  - by apply wm_wf_setmfact.
  - by apply wm_wf_change_masters_count.
  - destruct (selected_client _) as [c|] eqn:E; [|done].
    apply wm_wf_mouse_release; [done|].
    by destruct (selected_client_managed st c Hwf E).
  - by apply wm_wf_maprequest.
  - by apply wm_wf_destroynotify.
  - by apply wm_wf_unmapnotify.
  - by apply wm_wf_configurerequest.
  - by apply wm_wf_clientmessage.
  - by apply wm_wf_enternotify.
Qed.

(** Whatever keys are pressed and whatever the clients send, the
    chains stay in order: the monitor chain holds the selected
    monitor; on every monitor the client list and the focus stack
    hold the same clients, each once; these clients are allocated
    and point back to the monitor; and the selected client of a
    monitor is on its lists.  So no command follows a dangling
    pointer. *)
Theorem chains_stay_in_order root_window lockfullscreen inputs st :
  wm_wf st -> wm_wf (handle_all cfg root_window lockfullscreen inputs st).
Proof.
  revert st. induction inputs as [|i inputs IH]; intros st H; simpl; [done|].
  by apply IH, wm_wf_handle.
Qed.

(** ** Every client keeps a tag, whatever happens *)

Lemma tags_inv_upd_client_same st c f :
  (forall C, tags (f C) = tags C) ->
  tags_inv cfg st -> tags_inv cfg (upd_client c f st).
Proof.
  intros Hf [HM HC]. split; [done|].
  apply map_Forall_alter; [|done]. intros C _ H. simpl. by rewrite Hf.
Qed.

Lemma tags_inv_upd_mon_same st m f :
  (forall M, tagset (f M) = tagset M) ->
  (forall M, selected_tags_set (f M) = selected_tags_set M) ->
  tags_inv cfg st -> tags_inv cfg (upd_mon m f st).
Proof.
  intros H1 H2. apply tags_inv_upd_mon. intros M [[Hlen Hsel] HF].
  split; [split|]; by rewrite ?H1, ?H2.
Qed.

Lemma tags_inv_resize st c x y w h i :
  tags_inv cfg st -> tags_inv cfg (resize cfg c x y w h i st).
Proof.
  apply tags_inv_tag_frame, layout_frame_tag_frame, layout_frame_resize.
Qed.

Lemma tags_inv_set_selected_monitor st m :
  tags_inv cfg st -> tags_inv cfg (set_selected_monitor m st).
Proof. by apply tags_inv_tag_frame. Qed.

Lemma tags_inv_setfullscreen st c f :
  tags_inv cfg st -> tags_inv cfg (setfullscreen cfg c f st).
Proof.
  intros H. unfold setfullscreen. destruct (f && _).
  - unfold resizeclient. by repeat (apply tags_inv_upd_client_same; [done|]).
  - destruct (negb f && _); [|done].
    apply tags_inv_arrange. unfold resizeclient.
    by repeat (apply tags_inv_upd_client_same; [done|]).
Qed.

Lemma tags_inv_pop st c : tags_inv cfg st -> tags_inv cfg (pop cfg c st).
Proof.
  intros H. unfold pop. apply tags_inv_arrange, tags_inv_focus.
  unfold attach, detach_client. by repeat (apply tags_inv_upd_mon_same; [done..|]).
Qed.

Lemma tags_inv_zoom st : tags_inv cfg st -> tags_inv cfg (zoom cfg st).
Proof.
  intros H. unfold zoom. destruct (negb _ || _); [done|].
  case_decide.
  - destruct (selected_client _); [|done].
    destruct (nexttiled st (tail _)); [done | by apply tags_inv_pop].
  - destruct (selected_client _); [by apply tags_inv_pop | done].
Qed.

Lemma tags_inv_focusstack st lf dir :
  tags_inv cfg st -> tags_inv cfg (focusstack lf dir st).
Proof.
  intros H. unfold focusstack. destruct (selected_client _); [|done].
  destruct (_ && _); [done|].
  destruct (if 0 <? dir then _ else _); [by apply tags_inv_focus | done].
Qed.

Lemma tags_inv_togglefloating st :
  tags_inv cfg st -> tags_inv cfg (togglefloating cfg st).
Proof.
  intros H. unfold togglefloating. destruct (selected_client _) as [c|]; [|done].
  destruct (isfullscreen _); [done|]. apply tags_inv_arrange.
  assert (H1 : tags_inv cfg (upd_client c
            (fun C => cset_isfloating (negb (isfloating C) || isfixed C) C) st))
    by (by apply tags_inv_upd_client_same).
  destruct (isfloating _); [by apply tags_inv_resize | done].
Qed.

Lemma tags_inv_togglebar st : tags_inv cfg st -> tags_inv cfg (togglebar cfg st).
Proof.
  intros H. apply tags_inv_arrange. unfold updatebarpos.
  apply tags_inv_upd_mon_same; [intros M; by destruct (showbar M)..|].
  by apply tags_inv_upd_mon_same.
Qed.

Lemma tags_inv_setgaps st i : tags_inv cfg st -> tags_inv cfg (setgaps cfg i st).
Proof. intros H. by apply tags_inv_arrange, tags_inv_upd_mon_same. Qed.

Lemma tags_inv_setmfact st f : tags_inv cfg st -> tags_inv cfg (setmfact cfg f st).
Proof.
  intros H. unfold setmfact. destruct (negb _); [done|].
  destruct (_ || _); [done|]. by apply tags_inv_arrange, tags_inv_upd_mon_same.
Qed.

Lemma tags_inv_change_masters_count st i :
  tags_inv cfg st -> tags_inv cfg (change_masters_count cfg i st).
Proof. intros H. by apply tags_inv_arrange, tags_inv_upd_mon_same. Qed.

Lemma tags_inv_free st c :
  tags_inv cfg st -> tags_inv cfg (set_client_store (delete c (cl st)) st).
Proof.
  intros [HM HC]. split; [done|]. simpl.
  intros c' C'. rewrite lookup_delete_Some. intros [_ E]. by apply (HC c' C').
Qed.

Lemma tags_inv_unmanage st c : tags_inv cfg st -> tags_inv cfg (unmanage cfg c st).
Proof.
  intros H. unfold unmanage.
  by apply tags_inv_arrange, tags_inv_focus, tags_inv_free, tags_inv_detach.
Qed.

Lemma tags_request M ev C :
  tags (request_centre M (request_size ev (request_position M ev C)))
  = tags C.
Proof.
  assert (H1 : forall C', tags (request_centre M C') = tags C').
  { intros C'. unfold request_centre. cbv zeta.
    destruct (_ && _); by destruct (_ && _). }
  assert (H2 : forall C', tags (request_size ev C') = tags C').
  { intros C'. unfold request_size. by destruct (CWWidth ev), (CWHeight ev). }
  assert (H3 : forall C', tags (request_position M ev C') = tags C').
  { intros C'. unfold request_position. by destruct (CWX ev), (CWY ev). }
  by rewrite H1, H2, H3.
Qed.

Lemma tags_inv_configurerequest st w ev :
  tags_inv cfg st -> tags_inv cfg (configurerequest w ev st).
Proof.
  intros H. unfold configurerequest.
  destruct (window_to_client st w) as [c|]; [|done].
  destruct (CWBorderWidth ev); [by apply tags_inv_upd_client_same|].
  destruct (_ || _); [|done].
  apply tags_inv_upd_client_same; [|done]. intros C. apply tags_request.
Qed.

Lemma tags_inv_clientmessage st w mt nf action :
  tags_inv cfg st -> tags_inv cfg (clientmessage cfg w mt nf action st).
Proof.
  intros H. unfold clientmessage.
  destruct (window_to_client st w) as [c|]; [|done].
  destruct mt; [| |done].
  - destruct nf; [by apply tags_inv_setfullscreen | done].
  - destruct (_ && _); [|done]. by apply tags_inv_upd_client_same.
Qed.

Lemma tags_inv_enternotify st root ptr w normal :
  tags_inv cfg st -> tags_inv cfg (enternotify root ptr w normal st).
Proof.
  intros H. unfold enternotify. destruct (_ && _); [done|].
  destruct (negb _); [by apply tags_inv_focus|].
  destruct (window_to_client st w); [|done].
  case_bool_decide; [done | by apply tags_inv_focus].
Qed.

(** [manage]: the tags come from the rules or from the client the
    window is transient for. *)
Lemma tags_inv_dresses st st' c :
  dresses c st st' -> tags_inv cfg st -> tags_inv cfg st'.
Proof.
  intros ((D1 & D2 & D3 & D4 & D5 & D6) & D7 & D8) [[HM HL] HC].
  split; [split|].
  - by rewrite D3.
  - rewrite D1. unfold live_mon. by rewrite D3.
  - intros c' C' E. destruct (decide (c' = c)) as [->|Hne].
    + assert (E' : the_client st' c = C') by (by apply lookup_total_correct).
      simpl. rewrite <- E', D8.
      destruct (proj1 D5) as [C0 E0]; [by exists C'|].
      rewrite (lookup_total_correct _ _ _ E0 : the_client st c = C0).
      by apply (HC c C0).
    + rewrite D4 in E by done. by apply (HC c' C').
Qed.

Lemma tags_inv_manage st c w wa wp :
  wm_wf st -> ¬ live_client st c -> tags_inv cfg st ->
  tags_inv cfg (manage cfg c w wa wp st).
Proof.
  intros Hwf Hfresh Hti. rewrite manage_stages. cbv zeta.
  destruct (stores_into_manage_alloc c w wa wp st)
    as (A1 & A2 & A3 & A4 & A5 & A6 & A7).
  set (s0 := manage_alloc c w wa wp st) in *.
  pose proof (live_not_unlisted_fresh st c Hwf Hfresh) as Hun.
  assert (Hwf0 : wm_wf s0).
  { apply (wm_wf_clients_agree st); [done..| |done].
    intros m' c' Hm' Hc'. assert (c' <> c) by (intros ->; by apply (Hun m')).
    unfold live_client, the_client. rewrite !lookup_total_alt, A4 by done.
    split; [|done]. by destruct (wm_wf_managed st m' c' Hwf Hm' Hc') as [[? _] _]. }
  destruct Hti as [[HM HL] HC].
  assert (Hmok : monitors_ok cfg s0).
  { split; [by rewrite A3|]. rewrite A1. unfold live_mon. by rewrite A3. }
  assert (He0 : tags_inv_except cfg c s0).
  { split; [done|]. intros c' C' E Hne. rewrite A4 in E by done.
    by apply (HC c' C'). }
  set (s1 := manage_home cfg c wp s0).
  assert (H1 : tags_inv cfg s1).
  { assert (Hr : tags_inv cfg
                   (applyrules cfg (wp_class wp) (wp_instance wp) c
                      (upd_client c (cset_monitor (selected_monitor s0)) s0))).
    { apply tags_inv_applyrules. split.
      - split; [done|]. simpl. apply map_Forall_alter; [|by destruct He0].
        intros C _ H Hne. by apply H.
      - intros C E.
        rewrite <- (lookup_total_correct _ _ _ E
                    : the_client (upd_client c (cset_monitor (selected_monitor s0))
                                    s0) c = C).
        rewrite the_client_upd_client_eq by done.
        change (live_mon s0 (selected_monitor s0)).
        apply (wm_wf_live_mon s0); [done|]. by destruct Hwf0 as (_ & ? & _). }
    unfold s1, manage_home.
    destruct (wp_transient_for wp) as [trans|]; [|done].
    destruct (window_to_client s0 trans) as [t|] eqn:Et; [|done].
    destruct (window_to_client_managed s0 trans t Hwf0 Et) as ([T ET] & _ & Htc).
    apply window_to_client_loop_Some in Et as (_ & m' & Hm' & Hc').
    assert (Hne : t <> c).
    { intros ->. rewrite A1 in Hm'. apply (Hun m' Hm').
      unfold the_mon in Hc' |- *. by rewrite A3 in Hc'. }
    split; [done|]. simpl. intros c' C'. rewrite lookup_alter_Some.
    intros [(<- & C0 & E0 & ->) | (Hne' & E)].
    - simpl. rewrite (lookup_total_correct _ _ _ ET : the_client s0 t = T).
      rewrite A4 in ET by done. by apply (HC t T).
    - destruct He0 as [_ He]. by apply (He c' C'). }
  set (m := monitor (the_client s1 c)).
  assert (D : dresses c s1
                (manage_settle c (the_mon s1 m) wp
                   (manage_props cfg c wp
                      (manage_place cfg c (the_mon s1 m) s1)))).
  { eapply dresses_trans; [apply dresses_manage_place|].
    eapply dresses_trans; [apply dresses_manage_props|].
    apply dresses_manage_settle. }
  pose proof (tags_inv_dresses _ _ _ D H1) as H4.
  unfold manage_show. apply tags_inv_focus, tags_inv_arrange.
  unfold attachstack, attach.
  by repeat (apply tags_inv_upd_mon_same; [done..|]).
Qed.

Lemma tags_inv_maprequest st w attrs wp :
  wm_wf st -> tags_inv cfg st -> tags_inv cfg (maprequest cfg w attrs wp st).
Proof.
  intros Hwf H. unfold maprequest. destruct attrs as [[wa []]|]; try done.
  destruct (window_to_client st w); [done|].
  apply tags_inv_manage; [done | apply fresh_client_dead | done].
Qed.

Lemma tags_inv_sendmon_wf st c m :
  wm_wf st -> m ∈ monitors st -> tags_inv cfg st ->
  tags_inv cfg (sendmon cfg c m st).
Proof.
  intros Hwf Hm H. apply tags_inv_sendmon; [|done]. by apply wm_wf_live_mon.
Qed.

Lemma tags_inv_handle root lf i st :
  wm_wf st -> tags_inv cfg st -> tags_inv cfg (handle cfg root lf i st).
Proof.
  intros Hwf H. destruct i; simpl.
  - by apply tags_inv_view.
  - by apply tags_inv_toggleview.
  - by apply tags_inv_tag.
  - by apply tags_inv_toggletag.
  - by apply tags_inv_tagmon.
  - by apply tags_inv_focusmon.
  - by apply tags_inv_focusstack.
  - by apply tags_inv_zoom.
  - by apply tags_inv_togglefloating.
  - by apply tags_inv_togglebar.
  - by apply tags_inv_setgaps.
  - by apply tags_inv_setmfact.
  - by apply tags_inv_change_masters_count.
  - destruct (selected_client _); [by apply tags_inv_mouse_release | done].
  - by apply tags_inv_maprequest.
  - unfold destroynotify. destruct (window_to_client st w); [|done].
    by apply tags_inv_unmanage.
  - unfold unmapnotify. destruct (window_to_client st w); [|done].
    destruct send_event; [done | by apply tags_inv_unmanage].
  - by apply tags_inv_configurerequest.
  - by apply tags_inv_clientmessage.
  - by apply tags_inv_enternotify.
Qed.

(** From a state in order in which every client has a tag and the
    monitors' tag-sets are proper, every client has a tag
    ([tags & TAGMASK != 0], and no bit beyond [TAGMASK]) after any
    sequence of key commands and client events: also a window that
    is managed as a transient takes proper tags from its parent, and
    a window without a matching rule those its monitor shows. *)
Theorem tags_stay_proper root_window lockfullscreen inputs st :
  wm_wf st -> tags_inv cfg st ->
  let st' := handle_all cfg root_window lockfullscreen inputs st in
  forall c C, cl st' !! c = Some C ->
    Z.land (tags C) (TAGMASK cfg) <> 0
    /\ Z.land (tags C) (TAGMASK cfg) = tags C.
Proof.
  intros Hwf H st'.
  assert (H' : wm_wf st' /\ tags_inv cfg st').
  { unfold st'. clear st'. revert st Hwf H.
    induction inputs as [|i inputs IH]; intros st Hwf H; simpl; [done|].
    apply IH; [by apply wm_wf_handle | by apply tags_inv_handle]. }
  destruct H' as [_ [_ HC]]. intros c C E.
  destruct (HC c C E) as [Hn Hm]. split; [by rewrite Hm | done].
Qed.

(** ** What [focus] settles on *)

(** [focus] never selects a hidden client.  On a monitor that is
    allocated, the client it selects is visible and belongs to the
    monitor that is selected afterwards, and it is moved to the top of
    that monitor's focus stack while the others keep their order; a
    visible client that is asked for is the one selected.  It selects
    no client only when the one asked for (if any) is hidden and the
    selected monitor's focus stack holds no visible client. *)
Theorem focus_selects_visible_on_top st c :
  let st' := focus c st in
  let m := selected_monitor st' in
  live_mon st m ->
  match selected_client (the_mon st' m) with
  | Some t =>
      ISVISIBLE st' t = true
      /\ monitor (the_client st' t) = m
      /\ stack (the_mon st' m) = t :: unlink t (stack (the_mon st m))
      /\ (forall c', c = Some c' -> ISVISIBLE st c' = true -> t = c')
  | None =>
      m = selected_monitor st
      /\ (forall c', c = Some c' -> ISVISIBLE st c' = false)
      /\ (forall d, d ∈ stack (the_mon st m) -> ISVISIBLE st d = false)
  end.
Proof.
  intros st' m Hl. unfold m, st' in *. clear m st'.
  pose proof (tag_frame_focus st c) as Hf.
  destruct (focus_target st c) as [t|] eqn:Ht.
  - destruct (focus_some st c t Ht) as (Es & _ & _ & _ & _ & Em).
    rewrite Es in Hl |- *. rewrite (Em Hl). simpl.
    split; [rewrite (tag_frame_ISVISIBLE _ _ t Hf);
            by apply (focus_target_visible st c)|].
    split; [by rewrite (tag_frame_monitor _ _ t Hf)|].
    split; [done|].
    intros c' -> Hv. rewrite (focus_target_given st c' Hv) in Ht. congruence.
  - rewrite (focus_none st c Ht) in Hl |- *. simpl in Hl |- *.
    rewrite the_mon_upd_mon_eq by done. simpl.
    split; [done|]. unfold focus_target in Ht. split.
    + intros c' ->. by destruct (ISVISIBLE st c').
    + intros d Hd.
      apply (find_first_visible_none st
               (stack (the_mon st (selected_monitor st))) d); [|done].
      destruct c as [c'|]; [|done]. by destruct (ISVISIBLE st c').
Qed.

(** ** Windows coming and going *)

Lemma client_with_window_head st l w c :
  window (the_client st c) = w -> client_with_window st (c :: l) w = Some c.
Proof. intros H. simpl. by rewrite H, Z.eqb_refl. Qed.

Lemma client_with_window_ext st st' l w :
  (forall c, c ∈ l -> window (the_client st' c) = window (the_client st c)) ->
  client_with_window st' l w = client_with_window st l w.
Proof.
  induction l as [|d r IH]; intros H; simpl; [done|].
  rewrite (H d) by apply list_elem_of_here. rewrite IH; [done|].
  intros c Hc. by apply H, list_elem_of_further.
Qed.

(** A MapRequest for a window that no client has makes a client for
    it: afterwards [window_to_client] answers with a managed client of
    that window, the chains are in order and the clients that were
    there are still allocated.  A second MapRequest for the window
    changes nothing: no window is managed twice. *)
Theorem maprequest_manages_once st w wa wp :
  wm_wf st -> window_to_client st w = None ->
  let st' := maprequest cfg w (Some (wa, false)) wp st in
  (exists c, window_to_client st' w = Some c
             /\ managed st' c /\ ¬ live_client st c
             /\ window (the_client st' c) = w)
  /\ wm_wf st'
  /\ (forall c', live_client st c' -> live_client st' c')
  /\ maprequest cfg w (Some (wa, false)) wp st' = st'.
Proof.
  intros Hwf Hnone st'. unfold st', maprequest. rewrite Hnone. clear st'.
  set (c := fresh (dom (cl st))).
  pose proof (fresh_client_dead st) as Hfresh. fold c in Hfresh.
  destruct (manage_spec st c w wa wp Hwf Hfresh)
    as (Hwf' & Hman & Hw & Hms & Hcl & Hclo & Hoth).
  set (st' := manage cfg c w wa wp st) in *.
  set (m := monitor (the_client st' c)) in *.
  clearbody st'. clearbody c.
  assert (Hfind : window_to_client st' w = Some c).
  { destruct Hman as (_ & Hm & _). fold m in Hm.
    unfold window_to_client. rewrite Hms. rewrite Hms in Hm.
    pose proof (window_to_client_loop_None st (monitors st) w) as Hno.
    specialize (fun m' c' => Hno m' c' Hnone).
    assert (Hwin : forall m' c', m' ∈ monitors st ->
                     c' ∈ clients (the_mon st m') ->
                     window (the_client st' c') = window (the_client st c')).
    { intros m' c' Hm' Hc'.
      assert (c' <> c).
      { intros ->. apply Hfresh.
        by destruct (wm_wf_managed st m' c Hwf Hm' Hc') as [[? _] _]. }
      destruct (Hoth c' H) as [_ E]. by apply erase_urgent_window. }
    clear Hnone. revert Hm Hno Hwin. generalize (monitors st). intros ms.
    induction ms as [|d r IH]; intros Hm Hno Hwin; [by apply elem_of_nil in Hm|].
    simpl. destruct (decide (d = m)) as [->|Hne].
    - by rewrite Hcl, client_with_window_head.
    - rewrite Hclo by done.
      rewrite (client_with_window_ext st st').
      + destruct (client_with_window st (clients (the_mon st d)) w) as [x|] eqn:E.
        * apply client_with_window_Some in E as [Hx Hxw].
          exfalso. by apply (Hno d x (list_elem_of_here _ _)).
        * apply IH.
          -- apply elem_of_cons in Hm as [->|Hm]; done.
          -- intros m' c' Hm'. by apply Hno, list_elem_of_further.
          -- intros m' c' Hm'. by apply Hwin, list_elem_of_further.
      + intros x Hx. by apply (Hwin d), Hx; apply list_elem_of_here. }
  split; [by exists c|]. split; [done|].
  split.
  { intros c' Hl. assert (c' <> c) by (intros ->; done).
    by apply (Hoth c' H). }
  by rewrite Hfind.
Qed.

(** Unmanaging a client takes it off the lists of its monitor, keeping
    the order of the others, and frees it; afterwards no monitor of
    the chain refers to it, whether on its client list, on its focus
    stack or as its selected client, and the chains are in order. *)
Theorem unmanage_leaves_no_reference st c :
  wm_wf st -> managed st c ->
  let st' := unmanage cfg c st in
  ¬ live_client st' c
  /\ unreferenced st' c
  /\ wm_wf st'
  /\ (forall m, m ∈ monitors st ->
        clients (the_mon st' m) = unlink c (clients (the_mon st m)))
  /\ (forall c', c' <> c -> live_client st' c' <-> live_client st c').
Proof.
  intros Hwf Hman st'.
  destruct (unmanage_spec st c Hwf Hman) as (Hwf' & Hdead & Hun & Hms & Hcl & Hlive).
  fold st' in Hwf', Hdead, Hun, Hms, Hcl, Hlive.
  split; [done|]. split; [|done].
  unfold unreferenced. rewrite Forall_forall. intros m Hm.
  pose proof Hwf' as (_ & _ & Hall)%wm_wf_pointwise.
  pose proof (Hall m Hm) as (_ & _ & _ & H4 & _ & H6)%mon_wf_pointwise.
  split; [by apply Hun|]. split; [rewrite H4; by apply Hun|].
  intros E. by apply (Hun m Hm), H6.
Qed.

(** ** Moving clients *)

(** [zoom] on a layout that arranges, with a selected client that is
    tiled: when the selected client is not the first tiled client of
    the list it becomes the first client of the list, else the next
    tiled client does; the other clients keep their order. *)
Theorem zoom_promotes st sc :
  wm_wf st ->
  has_arrange st (selected_monitor st) = true ->
  selected_client (the_mon st (selected_monitor st)) = Some sc ->
  isfloating (the_client st sc) = false ->
  let l := clients (the_mon st (selected_monitor st)) in
  let promoted :=
    if decide (head (nexttiled st l) = Some sc)
    then head (nexttiled st (tail (nexttiled st l)))
    else Some sc in
  clients (the_mon (zoom cfg st) (selected_monitor st))
  = match promoted with
    | Some c => c :: unlink c l
    | None => l
    end.
Proof.
  intros Hwf Ha Esc Hfl. cbv zeta. unfold zoom. cbv zeta.
  rewrite Esc, Ha, Hfl. cbn [negb orb].
  assert (Hsel : selected_monitor st ∈ monitors st) by (by destruct Hwf as (_ & ? & _)).
  set (l := clients (the_mon st (selected_monitor st))).
  destruct (selected_client_managed st sc Hwf Esc) as [Hman Hmsc].
  destruct (decide (Some sc = head (nexttiled st l))) as [E|E].
  - rewrite (decide_True (P := head (nexttiled st l) = Some sc)) by done.
    destruct (nexttiled st (tail (nexttiled st l))) as [|c r] eqn:En;
      [reflexivity|].
    cbn [head].
    assert (Hc : c ∈ l).
    { apply (nexttiled_elem st), tail_elem, (nexttiled_elem st).
      rewrite En. apply list_elem_of_here. }
    destruct (wm_wf_managed st _ c Hwf Hsel Hc) as [Hmc Emc].
    destruct (pop_spec st c Hwf Hmc) as (_ & Hp & _).
    rewrite Emc in Hp. exact Hp.
  - rewrite (decide_False (P := head (nexttiled st l) = Some sc)) by congruence.
    destruct (pop_spec st sc Hwf Hman) as (_ & Hp & _).
    rewrite Hmsc in Hp. exact Hp.
Qed.

(** [sendmon] to another monitor of the chain: the client leaves the
    client list of its monitor, where the others keep their order,
    and becomes the first client of the target monitor; it points to
    the target monitor and takes the tags this monitor shows; the
    chains stay in order. *)
Theorem sendmon_moves_client st c m :
  wm_wf st -> managed st c -> m ∈ monitors st ->
  m <> monitor (the_client st c) ->
  let st' := sendmon cfg c m st in
  monitor (the_client st' c) = m
  /\ tags (the_client st' c) = current_tags st m
  /\ clients (the_mon st' m) = c :: clients (the_mon st m)
  /\ clients (the_mon st' (monitor (the_client st c)))
     = unlink c (clients (the_mon st (monitor (the_client st c))))
  /\ managed st' c /\ wm_wf st'.
Proof.
  intros Hwf Hman Hm Hne st'.
  destruct (sendmon_spec st c m Hwf Hman Hm Hne) as (? & ? & ? & ? & ? & ?).
  done.
Qed.

(** ** Reading fields through the layout frame *)

Lemma layout_frame_client_field {A} (p : Client -> A) st st' c :
  (forall C, p (erase_geom C) = p C) ->
  layout_frame st' = layout_frame st ->
  p (the_client st' c) = p (the_client st c).
Proof.
  intros Hp H. rewrite <- (Hp (the_client st' c)), <- (Hp (the_client st c)).
  by rewrite (layout_frame_client _ _ c H).
Qed.

Lemma layout_frame_mon_field {A} (p : Monitor -> A) st st' m :
  (forall M, p (erase_symbol M) = p M) ->
  layout_frame st' = layout_frame st ->
  p (the_mon st' m) = p (the_mon st m).
Proof.
  intros Hp H. rewrite <- (Hp (the_mon st' m)), <- (Hp (the_mon st m)).
  by rewrite (layout_frame_mon _ _ m H).
Qed.

Lemma arrange_client_field {A} (p : Client -> A) st m c :
  (forall C, p (erase_geom C) = p C) ->
  p (the_client (arrange cfg m st) c) = p (the_client st c).
Proof. intros Hp. apply layout_frame_client_field; [done | apply layout_frame_arrange]. Qed.

Lemma arrange_mon_field {A} (p : Monitor -> A) st m m' :
  (forall M, p (erase_symbol M) = p M) ->
  p (the_mon (arrange cfg m st) m') = p (the_mon st m').
Proof. intros Hp. apply layout_frame_mon_field; [done | apply layout_frame_arrange]. Qed.

Lemma focus_none_selected_monitor st :
  wm_wf st -> selected_monitor (focus None st) = selected_monitor st.
Proof.
  intros Hwf. destruct (focus_target st None) as [t|] eqn:Ht.
  - destruct (focus_some st None t Ht) as (-> & _).
    unfold focus_target in Ht. apply find_first_visible_elem in Ht.
    assert (Hsel : selected_monitor st ∈ monitors st)
      by (by destruct Hwf as (_ & ? & _)).
    apply (wm_wf_stack st _ t Hwf Hsel) in Ht.
    by destruct (wm_wf_managed st _ t Hwf Hsel Ht).
  - by rewrite (focus_none st None Ht).
Qed.

(** ** Toggling views *)

Lemma toggleview_step st i :
  wm_wf st -> tags_inv cfg st ->
  let sel := selected_monitor st in
  let u := Z.lxor (current_tags st sel) (tag_bit cfg i) in
  selected_monitor (toggleview cfg i st) = sel
  /\ current_tags (toggleview cfg i st) sel
     = (if u =? 0 then current_tags st sel else u).
Proof.
  intros Hwf Hti sel u. unfold toggleview. fold sel. fold u.
  destruct (Z.eqb_spec u 0) as [E|E]; [done|]. cbv zeta.
  assert (Hls : live_mon st sel)
    by (apply wm_wf_live_mon; [done | by destruct Hwf as (_ & ? & _)]).
  assert (Hwf1 : wm_wf (set_tags sel u st)) by (by apply wm_wf_upd_mon).
  split.
  - rewrite selected_monitor_arrange. by rewrite focus_none_selected_monitor.
  - rewrite (tag_frame_current_tags (focus None (set_tags sel u st)))
      by apply tag_frame_arrange.
    rewrite (tag_frame_current_tags (set_tags sel u st)) by apply tag_frame_focus.
    apply current_tags_set_tags; [done|].
    destruct Hti as [[HM _] _]. destruct Hls as [M EM].
    unfold the_mon. rewrite (lookup_total_correct _ _ _ EM).
    by destruct (HM sel M EM).
Qed.

(** [toggleview] is an involution on the visible tag-set: toggling
    the same tag twice shows what was shown before (toggling the only
    visible tag is refused both times). *)
Theorem toggleview_twice_restores st i :
  wm_wf st -> tags_inv cfg st ->
  let sel := selected_monitor st in
  current_tags (toggleview cfg i (toggleview cfg i st)) sel
  = current_tags st sel.
Proof.
  intros Hwf Hti sel.
  destruct (toggleview_step st i Hwf Hti) as [Es Ec]. fold sel in Es, Ec.
  assert (Hwf1 : wm_wf (toggleview cfg i st)) by (by apply wm_wf_toggleview).
  assert (Hti1 : tags_inv cfg (toggleview cfg i st)) by (by apply tags_inv_toggleview).
  destruct (toggleview_step _ i Hwf1 Hti1) as [_ Ec2]. rewrite Es in Ec2.
  rewrite Ec2, Ec. clear Ec2.
  assert (Hls : live_mon st sel)
    by (apply wm_wf_live_mon; [done | by destruct Hwf as (_ & ? & _)]).
  destruct (current_tags_ok st sel (proj1 Hti) Hls) as [Hn _].
  set (cur := current_tags st sel) in *. set (b := tag_bit cfg i).
  destruct (Z.eqb_spec (Z.lxor cur b) 0) as [E|E].
  - rewrite E. reflexivity.
  - assert (E2 : Z.lxor (Z.lxor cur b) b = cur)
      by (by rewrite Z.lxor_assoc, Z.lxor_nilpotent, Z.lxor_0_r).
    rewrite E2. by destruct (Z.eqb_spec cur 0).
Qed.

(** ** Tagging the selected client *)

(** [tag(i)] with [i < LENGTH(tags)] gives the selected client
    exactly the tag [1 << i]; when the monitor does not show that
    tag, the client goes out of view and is no longer selected. *)
Theorem tag_moves_selected_client st i c :
  wm_wf st -> 0 <= i < ntags cfg ->
  selected_client (the_mon st (selected_monitor st)) = Some c ->
  let sel := selected_monitor st in
  let st' := tag cfg i st in
  tags (the_client st' c) = Z.shiftl 1 i
  /\ monitor (the_client st' c) = sel
  /\ (Z.land (Z.shiftl 1 i) (current_tags st sel) = 0 ->
      ISVISIBLE st' c = false
      /\ selected_client (the_mon st' sel) <> Some c).
Proof.
  intros Hwf Hi Esc sel st'. unfold st', tag. cbv zeta. rewrite Esc.
  rewrite tag_bit_index by done.
  destruct (Z.eqb_spec (Z.shiftl 1 i) 0) as [Z0|_];
    [by apply shiftl_1_nonzero in Z0; [|lia]|].
  destruct (selected_client_managed st c Hwf Esc) as [(Hlc & Hm & Hc) Emc].
  fold sel in Emc.
  set (s1 := upd_client c (cset_tags (Z.shiftl 1 i)) st).
  assert (Hwf1 : wm_wf s1) by (by apply wm_wf_upd_client).
  assert (Ec1 : the_client s1 c = cset_tags (Z.shiftl 1 i) (the_client st c))
    by (by apply the_client_upd_client_eq).
  assert (Hs2 : selected_monitor (focus None s1) = sel)
    by (by rewrite focus_none_selected_monitor).
  rewrite Hs2.
  set (s2 := focus None s1) in *.
  assert (Hf : tag_frame (arrange cfg (Some sel) s2) = tag_frame s1)
    by (unfold s2; by rewrite tag_frame_arrange, tag_frame_focus).
  split; [by rewrite (tag_frame_tags _ _ c Hf), Ec1|].
  split; [by rewrite (tag_frame_monitor _ _ c Hf), Ec1|].
  intros Hhid.
  assert (Hv1 : ISVISIBLE s1 c = false).
  { unfold ISVISIBLE. rewrite Ec1. simpl. rewrite Emc.
    change (current_tags s1 sel) with (current_tags st sel).
    by rewrite Hhid. }
  split; [by rewrite (tag_frame_ISVISIBLE _ _ c Hf)|].
  rewrite (arrange_mon_field selected_client) by done.
  assert (Hls : live_mon s1 sel)
    by (apply wm_wf_live_mon; [done | by destruct Hwf1 as (_ & ? & _)]).
  unfold s2. destruct (focus_target s1 None) as [t|] eqn:Ht.
  - pose proof (focus_target_visible s1 None t Ht) as Hvt.
    destruct (focus_some s1 None t Ht) as (Es & _ & _ & _ & _ & Em).
    fold s2 in Es. rewrite Hs2 in Es. rewrite <- Es in Em.
    rewrite (Em Hls). simpl. intros [= ->]. congruence.
  - rewrite (focus_none s1 None Ht).
    change (selected_monitor s1) with sel.
    by rewrite the_mon_upd_mon_eq.
Qed.

(** ** Floating *)

(** [togglefloating] flips the floating flag of the selected client,
    unless the client is fullscreen, which it leaves alone; a client
    of fixed size always comes out floating, and for any other client
    toggling twice gives the flag back. *)
Theorem togglefloating_flips st c :
  wm_wf st ->
  selected_client (the_mon st (selected_monitor st)) = Some c ->
  let C := the_client st c in
  (isfullscreen C = true -> togglefloating cfg st = st)
  /\ (isfullscreen C = false ->
      isfloating (the_client (togglefloating cfg st) c)
      = negb (isfloating C) || isfixed C
      /\ (isfixed C = false ->
          isfloating (the_client (togglefloating cfg (togglefloating cfg st)) c)
          = isfloating C)).
Proof.
  intros Hwf Esc C.
  destruct (selected_client_managed st c Hwf Esc) as [(Hlc & _) _].
  assert (Hstep : forall s, live_client s c ->
            selected_client (the_mon s (selected_monitor s)) = Some c ->
            isfullscreen (the_client s c) = false ->
            layout_frame (togglefloating cfg s)
            = layout_frame
                (upd_client c
                   (fun C => cset_isfloating (negb (isfloating C) || isfixed C) C)
                   s)).
  { intros s Hl Es Hf. unfold togglefloating. rewrite Es, Hf.
    cbv zeta. rewrite layout_frame_arrange.
    destruct (isfloating _); [apply layout_frame_resize | done]. }
  split.
  { intros Hfs. unfold togglefloating. rewrite Esc. fold C. by rewrite Hfs. }
  intros Hfs.
  pose proof (Hstep st Hlc Esc Hfs) as H1.
  set (F := fun C : Client =>
              cset_isfloating (negb (isfloating C) || isfixed C) C) in *.
  assert (E1 : forall {A} (p : Client -> A),
            (forall C, p (erase_geom C) = p C) ->
            p (the_client (togglefloating cfg st) c) = p (F C)).
  { intros A p Hp. rewrite (layout_frame_client_field p _ _ c Hp H1).
    by rewrite the_client_upd_client_eq. }
  split; [by rewrite (E1 _ isfloating)|].
  intros Hfx.
  set (s1 := togglefloating cfg st) in *.
  assert (Hl1 : live_client s1 c).
  { apply (layout_frame_live_client _ _ c H1). by apply live_client_upd_client. }
  assert (Es1 : selected_client (the_mon s1 (selected_monitor s1)) = Some c).
  { destruct (layout_frame_globals _ _ H1) as (_ & -> & _).
    rewrite (layout_frame_mon_field selected_client _ _ _ (fun _ => eq_refl) H1).
    exact Esc. }
  assert (Hf1 : isfullscreen (the_client s1 c) = false)
    by (by rewrite (E1 _ isfullscreen)).
  pose proof (Hstep s1 Hl1 Es1 Hf1) as H2. fold F in H2.
  rewrite (layout_frame_client_field isfloating _ _ c (fun _ => eq_refl) H2).
  rewrite the_client_upd_client_eq by done. unfold F at 1.
  change (isfloating (cset_isfloating ?b _)) with b.
  rewrite (E1 _ isfloating), (E1 _ isfixed) by done.
  unfold F. simpl. fold C. rewrite Hfx. by destruct (isfloating C).
Qed.

(** ** Gaps and the bar *)

(** [setgaps] keeps the gap non-negative: with an argument of 0 the
    gap is reset to 0, otherwise it becomes [gappx + i], or 0 when
    this sum is negative (in the range of [int]). *)
Theorem setgaps_never_negative st i :
  live_mon st (selected_monitor st) ->
  let M := the_mon st (selected_monitor st) in
  fits_int (gappx M + i) ->
  let g := gappx (the_mon (setgaps cfg i st) (selected_monitor st)) in
  g = (if i =? 0 then 0 else Z.max (gappx M + i) 0) /\ 0 <= g.
Proof.
  intros Hl M Hfit g. unfold g, setgaps.
  rewrite (arrange_mon_field gappx) by done.
  rewrite the_mon_upd_mon_eq by done. fold M. simpl.
  rewrite (int_id _ Hfit).
  destruct (Z.eqb_spec i 0); simpl; [lia|].
  destruct (Z.ltb_spec (gappx M + i) 0); lia.
Qed.



(** ** What the events of a client do to it *)

Lemma isfullscreen_setfullscreen st c b :
  live_client st c ->
  isfullscreen (the_client (setfullscreen cfg c b st) c) = b.
Proof.
  intros Hl. unfold setfullscreen.
  destruct b, (isfullscreen (the_client st c)) eqn:Efs; cbn [andb negb]; try done.
  - cbv zeta.
    rewrite (layout_frame_client_field isfullscreen _ _ c (fun _ => eq_refl)
               (layout_frame_resizeclient _ _ _ _ _ _)).
    by rewrite the_client_upd_client_eq.
  - cbv zeta. rewrite (arrange_client_field isfullscreen) by done.
    rewrite (layout_frame_client_field isfullscreen _ _ c (fun _ => eq_refl)
               (layout_frame_resizeclient _ _ _ _ _ _)).
    by rewrite the_client_upd_client_eq.
Qed.

(** A [_NET_WM_STATE] message that names the fullscreen atom leaves
    the client fullscreen exactly when its action is 1 (add), or 2
    (toggle) on a client that is not fullscreen: every other action
    value takes fullscreen away.  A [_NET_ACTIVE_WINDOW] message
    never moves the focus: it marks the client urgent unless it is
    the selected client of the selected monitor. *)
Theorem clientmessage_fullscreen_and_urgency st w c action :
  wm_wf st -> window_to_client st w = Some c ->
  let C := the_client st c in
  isfullscreen (the_client (clientmessage cfg w NetWMState true action st) c)
  = (action =? 1) || ((action =? 2) && negb (isfullscreen C))
  /\ forall names_fullscreen,
       let st' := clientmessage cfg w NetActiveWindow names_fullscreen action st in
       selected_monitor st' = selected_monitor st
       /\ mon st' = mon st
       /\ isurgent (the_client st' c)
          = isurgent C
            || negb (bool_decide
                       (selected_client (the_mon st (selected_monitor st))
                        = Some c)).
Proof.
  intros Hwf Ew C.
  destruct (window_to_client_managed st w c Hwf Ew) as (Hl & _).
  unfold clientmessage. rewrite Ew. split.
  - by apply isfullscreen_setfullscreen.
  - intros _. cbv zeta.
    destruct (bool_decide _); cbn [negb andb orb];
      [by rewrite orb_false_r|].
    fold C. destruct (isurgent C) eqn:Eu; cbn [negb andb orb].
    + by repeat split.
    + unfold seturgent. by rewrite the_client_upd_client_eq.
Qed.

Lemma request_size_extent ev C :
  c_w (request_size ev C) = (if CWWidth ev then cr_width ev else c_w C)
  /\ c_h (request_size ev C) = (if CWHeight ev then cr_height ev else c_h C).
Proof. unfold request_size. by destruct (CWWidth ev), (CWHeight ev). Qed.

Lemma request_position_extent M ev C :
  c_w (request_position M ev C) = c_w C /\ c_h (request_position M ev C) = c_h C.
Proof. unfold request_position. by destruct (CWX ev), (CWY ev). Qed.

Lemma request_centre_extent M C :
  c_w (request_centre M C) = c_w C /\ c_h (request_centre M C) = c_h C.
Proof.
  unfold request_centre. cbv zeta.
  by destruct (_ && _); destruct (_ && _).
Qed.

(** A configure request of a managed window touches the record of
    its client only.  With a border width in it, nothing but the
    border width is stored, and the requested geometry is dropped.
    Without one, a tiled client under a layout with an arrange
    function keeps its geometry, whereas a floating client (or any
    client under the floating layout) takes the requested width and
    height as they are, with no lower bound and no size hints. *)
Theorem configurerequest_by_floating st w ev c :
  wm_wf st -> window_to_client st w = Some c ->
  let C := the_client st c in
  let st' := configurerequest w ev st in
  let C' := the_client st' c in
  mon st' = mon st
  /\ (forall c', c' <> c -> the_client st' c' = the_client st c')
  /\ (CWBorderWidth ev = true ->
      C' = cset_border_width (cr_border_width ev) C)
  /\ (CWBorderWidth ev = false ->
      if isfloating C || negb (has_arrange st (selected_monitor st))
      then c_w C' = (if CWWidth ev then cr_width ev else c_w C)
           /\ c_h C' = (if CWHeight ev then cr_height ev else c_h C)
      else st' = st).
Proof.
  intros Hwf Ew C st' C'.
  destruct (window_to_client_managed st w c Hwf Ew) as (Hl & _).
  unfold C', st', configurerequest. rewrite Ew. fold C.
  destruct (CWBorderWidth ev).
  - split; [done|]. split; [by intros; apply the_client_upd_client_ne|].
    split; [|done]. intros _. by rewrite the_client_upd_client_eq.
  - destruct (isfloating C || negb (has_arrange st (selected_monitor st))).
    + cbv zeta. split; [done|].
      split; [by intros; apply the_client_upd_client_ne|].
      split; [done|]. intros _.
      rewrite the_client_upd_client_eq by done. fold C.
      destruct (request_centre_extent (the_mon st (monitor C))
                  (request_size ev (request_position (the_mon st (monitor C)) ev C)))
        as [-> ->].
      destruct (request_size_extent ev
                  (request_position (the_mon st (monitor C)) ev C)) as [-> ->].
      by destruct (request_position_extent (the_mon st (monitor C)) ev C)
        as [-> ->].
    + done.
Qed.

(** The focus follows the pointer: when the pointer enters the
    window of a visible client in the normal way, the client's monitor
    becomes the selected monitor and the client its selected
    client. *)
Theorem enternotify_focuses_entered st root_window ptr w c :
  wm_wf st -> window_to_client st w = Some c -> ISVISIBLE st c = true ->
  let st' := enternotify root_window ptr w true st in
  selected_monitor st' = monitor (the_client st c)
  /\ selected_client (the_mon st' (selected_monitor st')) = Some c.
Proof.
  intros Hwf Ew Hv st'. unfold st', enternotify. cbn [negb andb]. rewrite Ew.
  cbv zeta.
  destruct (window_to_client_managed st w c Hwf Ew) as (Hl & Hm & Hc).
  assert (Hlm : live_mon st (monitor (the_client st c)))
    by (by apply wm_wf_live_mon).
  case_bool_decide as Em; cbn [negb].
  - rewrite Em. case_bool_decide as Es; [done|].
    pose proof (focus_target_given st c Hv) as Ht.
    destruct (focus_some st (Some c) c Ht) as (E1 & _ & _ & _ & _ & E2).
    rewrite E1, (E2 Hlm). done.
  - set (s1 := set_selected_monitor (monitor (the_client st c)) st).
    assert (Hv1 : ISVISIBLE s1 c = true) by exact Hv.
    pose proof (focus_target_given s1 c Hv1) as Ht.
    destruct (focus_some s1 (Some c) c Ht) as (E1 & _ & _ & _ & _ & E2).
    rewrite E1, (E2 Hlm). done.
Qed.

(** ** [updategeom] with as many screens as monitors, or more *)







(** ** What laying out leaves alone *)

Lemma arrange_all_hidden c l : forall st,
  ISVISIBLE st c = false ->
  the_client
    (fold_left (fun st m => arrangemon cfg m (showhide cfg (stack (the_mon st m)) st))
               l st) c
  = the_client st c.
Proof.
  induction l as [|m l IH]; intros st Hc; simpl; [done|].
  change (arrangemon cfg m (showhide cfg (stack (the_mon st m)) st))
    with (arrange cfg (Some m) st).
  rewrite IH.
  - by apply arrange_hidden.
  - by rewrite (layout_frame_ISVISIBLE st) by apply layout_frame_arrange.
Qed.

(** [arrange], for one monitor or for all, changes nothing but
    rectangles of clients and layout symbols of monitors: chains,
    tags, flags and the selection stay as they are.  A client that is
    not visible keeps its rectangle as well. *)
Theorem arrange_only_moves_visible st m :
  layout_frame (arrange cfg m st) = layout_frame st
  /\ forall c, ISVISIBLE st c = false ->
       the_client (arrange cfg m st) c = the_client st c.
Proof.
  split; [apply layout_frame_arrange|].
  intros c Hc. destruct m as [m|].
  - by apply arrange_hidden.
  - by apply arrange_all_hidden.
Qed.

(** ** Walking the client list forward and back *)

Lemma after_split (c : Cid) p s : c ∉ p -> after c (p ++ c :: s) = s.
Proof.
  induction p as [|d p IH]; cbn [find_first_visible_client find_last_visible_client app after].
  - intros _. by rewrite decide_True.
  - intros [? ?]%not_elem_of_cons. rewrite decide_False by done. by apply IH.
Qed.

Lemma first_visible_split st s :
  (find_first_visible_client st s None = None
   /\ forall x, x ∈ s -> ISVISIBLE st x = false)
  \/ exists s1 c s2,
       s = s1 ++ c :: s2 /\ (forall x, x ∈ s1 -> ISVISIBLE st x = false)
       /\ ISVISIBLE st c = true
       /\ find_first_visible_client st s None = Some c.
Proof.
  induction s as [|d s IH]; cbn [find_first_visible_client find_last_visible_client app after].
  - left. split; [done|]. by intros x ?%elem_of_nil.
  - rewrite decide_False by done. destruct (ISVISIBLE st d) eqn:Ed.
    + right. exists [], d, s. split; [done|]. split; [|done].
      by intros x ?%elem_of_nil.
    + destruct IH as [[E H] | (s1 & c & s2 & -> & H1 & H2 & H3)].
      * left. split; [done|]. intros x [-> | Hx]%elem_of_cons; auto.
      * right. exists (d :: s1), c, s2. split; [done|]. split; [|done].
        intros x [-> | Hx]%elem_of_cons; auto.
Qed.

Lemma find_first_visible_client_stop st (sc : Cid) p s :
  sc ∉ p ->
  find_first_visible_client st (p ++ sc :: s) (Some sc)
  = match find_first_visible_client st p None with
    | Some c => Some c
    | None => Some sc
    end.
Proof.
  induction p as [|d p IH]; cbn [find_first_visible_client find_last_visible_client app after].
  - intros _. by rewrite decide_True.
  - intros [Hne ?]%not_elem_of_cons.
    rewrite decide_False by congruence. rewrite decide_False by done.
    destruct (ISVISIBLE st d); [done|]. by apply IH.
Qed.

Lemma find_last_visible_client_stop st (c : Cid) q r : forall acc,
  c ∉ q ->
  find_last_visible_client st (q ++ c :: r) (Some c) acc
  = find_last_visible_client st q None acc.
Proof.
  induction q as [|d q IH]; intros acc; cbn [find_first_visible_client find_last_visible_client app after].
  - intros _. by rewrite decide_True.
  - intros [Hne ?]%not_elem_of_cons.
    rewrite decide_False by congruence. rewrite decide_False by done.
    by apply IH.
Qed.

Lemma find_last_visible_client_app st p q : forall acc,
  find_last_visible_client st (p ++ q) None acc
  = find_last_visible_client st q None (find_last_visible_client st p None acc).
Proof.
  induction p as [|d p IH]; intros acc; cbn [find_first_visible_client find_last_visible_client app after]; [done|].
  rewrite decide_False by done. apply IH.
Qed.

Lemma find_last_visible_client_hidden st p : forall acc,
  (forall x, x ∈ p -> ISVISIBLE st x = false) ->
  find_last_visible_client st p None acc = acc.
Proof.
  induction p as [|d p IH]; intros acc H; cbn [find_first_visible_client find_last_visible_client app after]; [done|].
  rewrite decide_False by done.
  rewrite (H d) by apply list_elem_of_here.
  apply IH. intros x Hx. by apply H, list_elem_of_further.
Qed.

Lemma find_first_visible_client_ext st st' l e :
  (forall c, ISVISIBLE st' c = ISVISIBLE st c) ->
  find_first_visible_client st' l e = find_first_visible_client st l e.
Proof. intros H. induction l as [|d l IH]; cbn [find_first_visible_client find_last_visible_client app after]; [done|]. by rewrite H, IH. Qed.

Lemma find_last_visible_client_ext st st' l e : forall acc,
  (forall c, ISVISIBLE st' c = ISVISIBLE st c) ->
  find_last_visible_client st' l e acc = find_last_visible_client st l e acc.
Proof.
  induction l as [|d l IH]; intros acc H; cbn [find_first_visible_client find_last_visible_client app after]; [done|].
  by rewrite H, IH.
Qed.

(** The client [focusstack] goes to from [sc] in forward direction,
    and where it goes back to from there. *)
Lemma next_then_previous st l sc :
  NoDup l -> sc ∈ l -> ISVISIBLE st sc = true ->
  exists c1,
    match find_first_visible_client st (after sc l) None with
    | Some c => Some c
    | None => find_first_visible_client st l (Some sc)
    end = Some c1
    /\ c1 ∈ l /\ ISVISIBLE st c1 = true
    /\ match find_last_visible_client st l (Some c1) None with
       | Some c => Some c
       | None => find_last_visible_client st (after c1 l) None None
       end = (if decide (c1 = sc) then None else Some sc).
Proof.
  intros Hnd Hin Hv.
  apply list_elem_of_split in Hin as (p & s & ->).
  assert (Hp : sc ∉ p).
  { apply NoDup_app in Hnd as (_ & H & _). intros Hx.
    apply (H sc Hx), list_elem_of_here. }
  assert (Hs : sc ∉ s).
  { apply NoDup_app in Hnd as (_ & _ & H). by apply NoDup_cons in H as [? _]. }
  rewrite after_split by done.
  destruct (first_visible_split st s)
    as [[Es Hhs] | (s1 & c & s2 & -> & Hh1 & Hvc & Es)]; rewrite Es.
  - rewrite find_first_visible_client_stop by done.
    destruct (first_visible_split st p)
      as [[Ep Hhp] | (p1 & c & p2 & -> & Hh1 & Hvc & Ep)]; rewrite Ep.
    + exists sc. split; [done|].
      split; [apply elem_of_app; right; apply list_elem_of_here|].
      split; [done|]. rewrite decide_True by done.
      rewrite find_last_visible_client_stop by done.
      rewrite find_last_visible_client_hidden by done.
      rewrite after_split by done.
      by rewrite find_last_visible_client_hidden.
    + assert (Hne : c <> sc).
      { intros ->. apply Hp, elem_of_app. right. apply list_elem_of_here. }
      assert (Hc1 : c ∉ p1).
      { apply NoDup_app in Hnd as (H & _ & _).
        apply NoDup_app in H as (_ & H & _). intros Hx.
        apply (H c Hx), list_elem_of_here. }
      exists c. split; [done|].
      split; [apply elem_of_app; left; apply elem_of_app; right;
              apply list_elem_of_here|].
      split; [done|]. rewrite decide_False by done.
      rewrite <- app_assoc. cbn [find_first_visible_client find_last_visible_client app after].
      rewrite find_last_visible_client_stop by done.
      rewrite find_last_visible_client_hidden by done.
      rewrite after_split by done.
      rewrite find_last_visible_client_app. cbn [find_first_visible_client find_last_visible_client app after].
      rewrite decide_False by done. rewrite Hv.
      by rewrite find_last_visible_client_hidden.
  - assert (Hne : c <> sc).
    { intros ->. apply Hs, elem_of_app. right. apply list_elem_of_here. }
    assert (Hc : c ∉ p ++ sc :: s1).
    { replace (p ++ sc :: s1 ++ c :: s2) with ((p ++ sc :: s1) ++ c :: s2) in Hnd
        by (by rewrite <- app_assoc).
      apply NoDup_app in Hnd as (_ & H & _). intros Hx.
      apply (H c Hx), list_elem_of_here. }
    exists c. split; [done|].
    split.
    { apply elem_of_app. right. apply list_elem_of_further.
      apply elem_of_app. right. apply list_elem_of_here. }
    split; [done|]. rewrite decide_False by done.
    replace (p ++ sc :: s1 ++ c :: s2) with ((p ++ sc :: s1) ++ c :: s2)
      by (by rewrite <- app_assoc).
    rewrite find_last_visible_client_stop by done.
    rewrite find_last_visible_client_app. cbn [find_first_visible_client find_last_visible_client app after].
    rewrite decide_False by done. rewrite Hv.
    by rewrite find_last_visible_client_hidden.
Qed.

(** [focusstack] forward and then backward comes back to the client
    it started from: when the selected client is visible (and, under
    [lockfullscreen], no client of the monitor is fullscreen), after
    [focusstack(+1)] followed by [focusstack(-1)] the selected monitor
    and its selected client are the ones from before. *)
Theorem focusstack_forth_and_back st lockfullscreen dir back sc :
  wm_wf st ->
  selected_client (the_mon st (selected_monitor st)) = Some sc ->
  ISVISIBLE st sc = true ->
  (lockfullscreen = true ->
   Forall (fun c => isfullscreen (the_client st c) = false)
          (clients (the_mon st (selected_monitor st)))) ->
  0 < dir -> back <= 0 ->
  let st' := focusstack lockfullscreen back (focusstack lockfullscreen dir st) in
  selected_monitor st' = selected_monitor st
  /\ selected_client (the_mon st' (selected_monitor st)) = Some sc.
Proof.
  intros Hwf Esc Hv Hlock Hdir Hback.
  set (sel := selected_monitor st) in *.
  assert (Hsel : sel ∈ monitors st) by (by destruct Hwf as (_ & ? & _)).
  assert (Hls : live_mon st sel) by (by apply wm_wf_live_mon).
  destruct (selected_client_managed st sc Hwf Esc) as [(Hlsc & _ & Hsc) Hmsc].
  fold sel in Hmsc. rewrite Hmsc in Hsc.
  set (l := clients (the_mon st sel)) in *.
  assert (Hnd : NoDup l).
  { apply wm_wf_pointwise in Hwf as (_ & _ & H).
    by destruct (H sel Hsel) as (_ & ? & _). }
  assert (Hfs : forall s c, isfullscreen (the_client s c) = false \/ lockfullscreen = false ->
                  isfullscreen (the_client s c) && lockfullscreen = false).
  { intros s c [-> | ->]; [done | by rewrite andb_false_r]. }
  assert (Hfs0 : forall c, c ∈ l ->
            isfullscreen (the_client st c) = false \/ lockfullscreen = false).
  { intros c Hc. destruct lockfullscreen; [left | by right].
    by apply (proj1 (Forall_forall _ _) (Hlock eq_refl)). }
  destruct (next_then_previous st l sc Hnd Hsc Hv) as (c1 & En & Hc1 & Hv1 & Ep).
  (* the step forward *)
  assert (E1 : focusstack lockfullscreen dir st = focus (Some c1) st).
  { unfold focusstack. fold sel. rewrite Esc.
    rewrite (Hfs st sc (Hfs0 sc Hsc)).
    destruct (Z.ltb_spec 0 dir); [|lia].
    unfold next_clients. rewrite Hmsc. fold l. by rewrite En. }
  rewrite E1. clear E1.
  destruct (wm_wf_managed st sel c1 Hwf Hsel Hc1) as [(Hlc1 & _) Hmc1].
  pose proof (focus_target_given st c1 Hv1) as Ht.
  destruct (focus_some st (Some c1) c1 Ht) as (F1 & F2 & _ & F4 & F5 & F6).
  rewrite Hmc1 in F1, F6. specialize (F6 Hls).
  set (s1 := focus (Some c1) st) in *.
  assert (Hframe : tag_frame s1 = tag_frame st) by apply tag_frame_focus.
  assert (Hvis : forall c, ISVISIBLE s1 c = ISVISIBLE st c)
    by (intros c; by apply tag_frame_ISVISIBLE).
  assert (Hl1 : clients (the_mon s1 sel) = l) by (by rewrite F6).
  assert (Hs1 : selected_client (the_mon s1 sel) = Some c1) by (by rewrite F6).
  assert (Hm1 : monitor (the_client s1 c1) = sel)
    by (by rewrite (tag_frame_monitor _ _ c1 Hframe)).
  assert (Hf1 : isfullscreen (the_client s1 c1) = isfullscreen (the_client st c1)).
  { pose proof (tag_frame_client _ _ c1 Hframe) as E.
    exact (f_equal isfullscreen E). }
  (* the step back *)
  unfold focusstack at 1. rewrite F1, Hs1.
  rewrite (Hfs s1 c1) by (rewrite Hf1; by apply Hfs0).
  destruct (Z.ltb_spec 0 back); [lia|].
  unfold next_clients. rewrite Hm1, Hl1.
  rewrite !(find_last_visible_client_ext st s1) by done.
  rewrite Ep. case_decide as Ec.
  - subst c1. by split.
  - assert (Hv1' : ISVISIBLE s1 sc = true) by (by rewrite Hvis).
    pose proof (focus_target_given s1 sc Hv1') as Ht'.
    destruct (focus_some s1 (Some sc) sc Ht') as (G1 & _ & _ & _ & _ & G6).
    assert (Hmsc1 : monitor (the_client s1 sc) = sel)
      by (by rewrite (tag_frame_monitor _ _ sc Hframe)).
    rewrite Hmsc1 in G1, G6.
    assert (Hls1 : live_mon s1 sel) by (by apply (tag_frame_live_mon st)).
    split; [done|]. by rewrite (G6 Hls1).
Qed.

(** ** Wrapping around the ends of the monitor chain *)

Lemma dirtomon_single st dir m :
  single_monitor st = true -> selected_monitor st ∈ monitors st ->
  dirtomon st dir = Some m -> m = selected_monitor st.
Proof.
  unfold single_monitor, dirtomon, find_previous_monitor.
  destruct (monitors st) as [|d [|e r]]; cbn [next_of head find_previous_monitor_in].
  - by intros _ ?%elem_of_nil.
  - intros _ ->%list_elem_of_singleton.
    rewrite !decide_True by done.
    destruct (0 <? dir); by intros [= <-].
  - done.
Qed.

Lemma focusmon_selects st dir m :
  wm_wf st -> dirtomon st dir = Some m ->
  selected_monitor (focusmon dir st) = m.
Proof.
  intros Hwf Hd.
  assert (Hsel : selected_monitor st ∈ monitors st) by (by destruct Hwf as (_ & ? & _)).
  unfold focusmon. destruct (single_monitor st) eqn:Es.
  - symmetry. by apply (dirtomon_single st dir).
  - rewrite Hd. case_decide as E; [done|].
    rewrite focus_none_selected_monitor; [done|].
    apply wm_wf_set_selected_monitor; [|done]. by apply (dirtomon_elem st dir).
Qed.

Lemma tagmon_sends st dir m c :
  wm_wf st -> dirtomon st dir = Some m ->
  selected_client (the_mon st (selected_monitor st)) = Some c ->
  monitor (the_client (tagmon cfg dir st) c) = m
  /\ c ∈ clients (the_mon (tagmon cfg dir st) m).
Proof.
  intros Hwf Hd Esc.
  assert (Hsel : selected_monitor st ∈ monitors st) by (by destruct Hwf as (_ & ? & _)).
  destruct (selected_client_managed st c Hwf Esc) as [Hman Hmc].
  pose proof Hman as (_ & _ & Hc).
  unfold tagmon. rewrite Esc. destruct (single_monitor st) eqn:Es.
  - rewrite (dirtomon_single st dir m Es Hsel Hd). by rewrite <- Hmc.
  - rewrite Hd. destruct (decide (m = monitor (the_client st c))) as [->|Hne].
    + unfold sendmon. by rewrite decide_True.
    + assert (Hm : m ∈ monitors st) by (by apply (dirtomon_elem st dir)).
      destruct (sendmon_spec st c m Hwf Hman Hm Hne) as (_ & _ & E1 & _ & E3 & _).
      split; [done|]. rewrite E3. apply list_elem_of_here.
Qed.

(** C10: [dirtomon] wraps around the ends of the monitor chain.  On a
    non-empty chain holding the selected monitor, a positive
    direction from the last monitor gives the first one, a
    non-positive direction from the first gives the last, and the
    result is never null but a monitor of the chain.  [focusmon] and
    [tagmon] go where [dirtomon] says, hence around the ends as well:
    with the chains in order, after [focusmon] the selected monitor
    is [dirtomon]'s monitor, and after [tagmon] the client that was
    selected points to that monitor and is on its client list. *)
Theorem dirtomon_wraps st :
  monitors st <> [] ->
  NoDup (monitors st) ->
  selected_monitor st ∈ monitors st ->
  (forall dir, 0 < dir -> last (monitors st) = Some (selected_monitor st) ->
               dirtomon st dir = head (monitors st))
  /\ (forall dir, dir <= 0 -> head (monitors st) = Some (selected_monitor st) ->
                  dirtomon st dir = last (monitors st))
  /\ (forall dir, exists m, dirtomon st dir = Some m /\ m ∈ monitors st)
  /\ (wm_wf st ->
      forall dir m, dirtomon st dir = Some m ->
        selected_monitor (focusmon dir st) = m
        /\ forall c,
             selected_client (the_mon st (selected_monitor st)) = Some c ->
             monitor (the_client (tagmon cfg dir st) c) = m
             /\ c ∈ clients (the_mon (tagmon cfg dir st) m)).
Proof.
  intros Hne Hnd Hsel. split; [|split; [|split]].
  - intros dir Hdir Hlast. unfold dirtomon.
    destruct (Z.ltb_spec 0 dir); [|lia].
    by rewrite next_of_last.
  - intros dir Hdir Hhead. unfold dirtomon.
    destruct (Z.ltb_spec 0 dir); [lia|].
    rewrite decide_True by done. apply find_previous_monitor_null.
  - intros dir. unfold dirtomon.
    destruct (0 <? dir).
    + destruct (next_of _ _) as [m|] eqn:E.
      * exists m. split; [done | by apply next_of_elem in E].
      * destruct (monitors st) as [|d r]; [done|].
        exists d. split; [done | apply list_elem_of_here].
    + case_decide as E.
      * unfold find_previous_monitor. rewrite find_previous_monitor_null.
        destruct (last_is_Some _ Hne) as [m Hm].
        exists m. split; [done | by apply last_elem].
      * by apply find_previous_monitor_some.
  - intros Hwf dir m Hd. split; [by apply focusmon_selects|].
    intros c Esc. by apply tagmon_sends.
Qed.

End Facts.

(** * The properties on concrete states *)

Local Open Scope string_scope.

Ltac by_computation :=
  apply (bool_decide_eq_true_1 _); vm_compute; reflexivity.

(** ** [view] *)

(** C1, witness: [view(2)] twice on the monitor with two clients,
    which shows tag 1. *)
Lemma view_twice_shows_requested_witness :
  current_tags (view Ex.cfg 2 (view Ex.cfg 2 Ex.two_clients))
               (selected_monitor Ex.two_clients)
  = Z.shiftl 1 2
  /\ view Ex.cfg 2 (view Ex.cfg 2 Ex.two_clients) = view Ex.cfg 2 Ex.two_clients.
Proof.
  apply (view_twice_shows_requested Ex.cfg Ex.two_clients 2).
  - cbn. lia.
  - by_computation.
  - by_computation.
  - by_computation.
Defined.

(** C1, counterexample: the monitor shows tag-set 1; after [view(2)]
    twice it shows 4 and not what it showed before. *)
Lemma view_twice_changes_tagset :
  current_tags (view Ex.cfg 2 (view Ex.cfg 2 Ex.two_clients))
               (selected_monitor Ex.two_clients)
  <> current_tags Ex.two_clients (selected_monitor Ex.two_clients).
Proof. vm_compute. discriminate. Qed.

(** ** [updategeom] *)

(** C2, witness: three monitors with clients, one screen left. *)
Lemma updategeom_fewer_screens_witness :
  let st := Ex.three_monitors_busy in
  let info := [Ex.screen 0 0 1920 1080] in
  let gone := [3%nat; 2%nat] in
  let moved := [15%nat; 14%nat; 13%nat; 12%nat] in
  exists st' dirty,
    updategeom Ex.cfg (Some info) None st = Some (st', dirty)
    /\ monitors st' = [1%nat]
    /\ Forall (fun m => mon st' !! m = None) gone
    /\ clients (the_mon st' 1%nat) = [12%nat; 13%nat; 14%nat; 15%nat; 11%nat]
    /\ stack (the_mon st' 1%nat) = [12%nat; 13%nat; 14%nat; 15%nat; 11%nat]
    /\ Forall (fun c => monitor (the_client st' c) = 1%nat) moved.
Proof.
  apply (updategeom_fewer_screens Ex.cfg Ex.three_monitors_busy 1%nat
           [2%nat; 3%nat] [Ex.screen 0 0 1920 1080] None).
  - by_computation.
  - reflexivity.
  - cbn. lia.
Defined.

(** C2, counterexample: the second monitor's focus stack is 12, 11;
    when the monitor goes, its clients arrive on the first monitor's
    focus stack as 11, 12. *)
Lemma migration_reverses_stack_order :
  exists st' dirty,
    updategeom Ex.cfg (Some [Ex.screen 0 0 1920 1080]) None Ex.second_monitor_busy
    = Some (st', dirty)
    /\ stack (the_mon Ex.second_monitor_busy 2%nat) = [12%nat; 11%nat]
    /\ stack (the_mon st' 1%nat) = [11%nat; 12%nat]
    /\ stack (the_mon st' 1%nat) <> stack (the_mon Ex.second_monitor_busy 2%nat).
Proof.
  eexists _, _. split; [vm_compute; reflexivity|].
  vm_compute. repeat split. discriminate.
Qed.

(** ** [setmfact] *)

(** C3, witness: from 0.55, an argument of 0.05 is accepted and an
    argument of 0.5 is rejected. *)
Lemma setmfact_accepts_or_keeps_witness :
  let st := Ex.two_clients in
  mfact (the_mon (setmfact Ex.cfg (float_of_ratio 5 100) st) 1%nat)
  = setmfact_candidate (float_of_ratio 5 100) (the_mon st 1%nat)
  /\ mfact (the_mon (setmfact Ex.cfg (float_of_ratio 5 10) st) 1%nat)
     = mfact (the_mon st 1%nat)
  /\ mfact_in_range
       (mfact (the_mon (setmfact Ex.cfg (float_of_ratio 5 100) st) 1%nat))
     = true.
Proof.
  assert (Hl : live_mon Ex.two_clients (selected_monitor Ex.two_clients))
    by by_computation.
  pose proof (setmfact_accepts_or_keeps Ex.cfg Ex.two_clients
                (float_of_ratio 5 100) Hl) as A.
  pose proof (setmfact_accepts_or_keeps Ex.cfg Ex.two_clients
                (float_of_ratio 5 10) Hl) as B.
  cbv zeta in A, B. destruct A as (A1 & _ & A3). destruct B as (_ & B2 & _).
  split; [apply A1; vm_compute; reflexivity|].
  split; [apply B2; right; vm_compute; reflexivity|].
  apply A3; vm_compute; reflexivity.
Defined.

(** C3, counterexample: from 0.55, an argument of 0.5 gives the
    candidate 1.05; the spec's clamping would make it 0.95, the code
    keeps 0.55. *)
Lemma setmfact_does_not_clamp :
  mfact (the_mon (setmfact Ex.cfg (float_of_ratio 5 10) Ex.two_clients) 1%nat)
  <> spec_setmfact_value (float_of_ratio 5 10)
                         (mfact (the_mon Ex.two_clients 1%nat)).
Proof. vm_compute. discriminate. Qed.

(** ** [applysizehints] *)

(** C5, witness: a floating client with a min size of 50x40 and no
    max size, asked to be 10x10; and a floating client without size
    hints, for which the hint block runs, asked to be 1x1. *)
Lemma applysizehints_at_least_bh_witness :
  (let r := (applysizehints Ex.cfg Ex.hinted_min 23%nat 100 100 10 10 false).1 in
   bh Ex.hinted_min <= r.1.2 /\ bh Ex.hinted_min <= r.2)
  /\ (let r := (applysizehints Ex.cfg Ex.tiny_floating 11%nat 100 100 1 1 false).1 in
      hints_apply Ex.cfg Ex.tiny_floating 11%nat = true
      /\ bh Ex.tiny_floating <= r.1.2 /\ bh Ex.tiny_floating <= r.2).
Proof.
  pose proof (applysizehints_at_least_bh Ex.cfg Ex.hinted_min 23%nat
                100 100 10 10 false) as H.
  pose proof (applysizehints_at_least_bh Ex.cfg Ex.tiny_floating 11%nat
                100 100 1 1 false) as H'.
  cbv zeta in H, H'. destruct H as [Hw Hh]. destruct H' as [Hw' Hh'].
  split; [|split; [reflexivity|]];
    (split; [first [apply Hw | apply Hw'] | first [apply Hh | apply Hh']]);
    right; by_computation.
Defined.

(** C5, counterexample: a floating client with a max size of 5x5 gets
    5x5, under a bar height of 20. *)
Lemma applysizehints_below_bh :
  let r := (applysizehints Ex.cfg Ex.hinted 21%nat 100 100 100 100 false).1 in
  r.1.2 < bh Ex.hinted /\ r.2 < bh Ex.hinted.
Proof. vm_compute. split; reflexivity. Qed.

(** C6, witness: a client without size hints, asked to go to a place
    outside the work area with width 0. *)
Lemma applysizehints_idempotent_without_hints_witness :
  let r := (applysizehints Ex.cfg Ex.two_clients 11%nat 5000 5000 0 700 false).1 in
  (applysizehints Ex.cfg Ex.two_clients 11%nat r.1.1.1 r.1.1.2 r.1.2 r.2 false).1
  = r.
Proof.
  apply (applysizehints_idempotent_without_hints Ex.cfg Ex.two_clients 11%nat
           5000 5000 0 700 false).
  - right. by_computation.
  - by_computation.
  - by_computation.
  - by_computation.
  - by_computation.
  - by_computation.
Defined.

(** C6, counterexample: width increment 10 and max width 35.  A
    request of width 47 is cut to 40 by the increment and to 35 by the
    maximum; applying the hints to 35 gives 30. *)
Lemma applysizehints_not_idempotent :
  let r := (applysizehints Ex.cfg Ex.hinted 22%nat 100 100 47 100 false).1 in
  (applysizehints Ex.cfg Ex.hinted 22%nat r.1.1.1 r.1.1.2 r.1.2 r.2 false).1 <> r.
Proof. vm_compute. discriminate. Qed.

(** ** [change_masters_count] *)

(** C7, the code at the failing input: with one master and the
    argument -2 the sum wraps around in [unsigned int] and the count
    becomes 4294967295, where clamping [1 + (-2)] at 1 gives 1. *)
Theorem change_masters_count_wraps :
  masters_count (the_mon Ex.two_clients (selected_monitor Ex.two_clients)) = 1
  /\ masters_count
       (the_mon (change_masters_count Ex.cfg (-2) Ex.two_clients)
                (selected_monitor Ex.two_clients))
     = 4294967295
  /\ Z.max (1 + -2) 1 = 1.
Proof. vm_compute. repeat split. Qed.

(** ** Tags *)

(** C8, witness: [manage] has allocated client 13; its class matches
    the rule for "Gimp". *)
Lemma tags_never_empty_witness :
  let st1 := applyrules Ex.cfg (Some "Gimp") (Some "gimp") 13%nat Ex.managing in
  Z.land (tags (the_client st1 13%nat)) (TAGMASK Ex.cfg) <> 0
  /\ forall ops c' C',
       cl (run Ex.cfg ops st1) !! c' = Some C' ->
       Z.land (tags C') (TAGMASK Ex.cfg) <> 0.
Proof.
  apply (tags_never_empty Ex.cfg Ex.managing 13%nat (Some "Gimp") (Some "gimp")).
  - by_computation.
  - by_computation.
  - by_computation.
Defined.

(** ** Fullscreen *)

(** C9, witness: client 12 of a laid-out monitor, out of view on the
    second tag; the round trip gives its rectangle back. *)
Lemma setfullscreen_round_trip_restores_witness :
  let st := Ex.one_hidden in
  let c := 12%nat in
  let C0 := the_client st c in
  let M := the_mon st (monitor C0) in
  let st1 := setfullscreen Ex.cfg c true st in
  let C1 := the_client st1 c in
  let st2 := setfullscreen Ex.cfg c false st1 in
  let C2 := the_client st2 c in
  (c_x C1, c_y C1, c_w C1, c_h C1) = (mx M, my M, mw M, mh M)
  /\ border_width C1 = 0 /\ isfloating C1 = true /\ isfullscreen C1 = true
  /\ border_width C2 = border_width C0
  /\ isfloating C2 = isfloating C0
  /\ isfullscreen C2 = false
  /\ (c_x C2, c_y C2, c_w C2, c_h C2) = (c_x C0, c_y C0, c_w C0, c_h C0).
Proof.
  assert (Hl : live_client Ex.one_hidden 12%nat) by by_computation.
  pose proof (setfullscreen_round_trip_restores Ex.cfg Ex.one_hidden 12%nat
                Hl eq_refl) as H.
  cbv zeta in H |- *.
  destruct H as (H1 & H2 & H3 & H4 & H5 & H6 & H7 & _ & H9).
  repeat (split; [assumption|]). apply H9. reflexivity.
Defined.

(** C9, counterexample: a visible floating client of 1x1 pixel, under
    a bar height of 20.  After the round trip [arrange] has run
    [applysizehints] on it and it is 20x20. *)
Lemma fullscreen_round_trip_resizes :
  let st := Ex.tiny_floating in
  let C0 := the_client st 11%nat in
  let C2 := the_client
              (setfullscreen Ex.cfg 11%nat false
                 (setfullscreen Ex.cfg 11%nat true st)) 11%nat in
  isfullscreen C0 = false
  /\ (c_w C0, c_h C0) = (1, 1)
  /\ (c_w C2, c_h C2) = (20, 20)
  /\ (c_x C2, c_y C2, c_w C2, c_h C2) <> (c_x C0, c_y C0, c_w C0, c_h C0).
Proof. vm_compute. repeat split. discriminate. Qed.

(** ** [dirtomon] *)

(** C10, witness: three monitors.  With the last one selected and
    its client 15 focused, forward gives the first monitor:
    [focusmon] selects it and [tagmon] sends client 15 there.  With
    the first one selected, backward gives the last. *)
Lemma dirtomon_wraps_witness :
  (dirtomon Ex.last_busy 1 = Some 1%nat
   /\ selected_monitor (focusmon 1 Ex.last_busy) = 1%nat
   /\ monitor (the_client (tagmon Ex.cfg 1 Ex.last_busy) 15%nat) = 1%nat
   /\ 15%nat ∈ clients (the_mon (tagmon Ex.cfg 1 Ex.last_busy) 1%nat))
  /\ (dirtomon Ex.three_monitors (-1) = Some 3%nat
      /\ selected_monitor (focusmon (-1) Ex.three_monitors) = 3%nat)
  /\ exists m, dirtomon Ex.three_monitors 0 = Some m
               /\ m ∈ monitors Ex.three_monitors.
Proof.
  destruct (dirtomon_wraps Ex.cfg Ex.last_busy) as (A & _ & _ & D);
    [discriminate | by_computation | by_computation |].
  destruct (dirtomon_wraps Ex.cfg Ex.three_monitors) as (_ & B & C & D');
    [discriminate | by_computation | by_computation |].
  assert (W : wm_wf Ex.last_busy) by by_computation.
  assert (W' : wm_wf Ex.three_monitors) by by_computation.
  assert (E : dirtomon Ex.last_busy 1 = Some 1%nat)
    by (apply A; [lia | reflexivity]).
  assert (E' : dirtomon Ex.three_monitors (-1) = Some 3%nat)
    by (apply B; [lia | reflexivity]).
  destruct (D W 1 1%nat E) as [F T]. destruct (T 15%nat eq_refl) as [T1 T2].
  destruct (D' W' (-1) 3%nat E') as [F' _].
  split; [by repeat split|]. split; [by split|]. apply C.
Defined.

(** ** The monitor chain, there and back *)

(** From the last of three monitors, forward wraps to the first, and
    backward from there comes back to the last. *)
Lemma dirtomon_there_and_back_witness :
  dirtomon (set_selected_monitor 1%nat Ex.last_selected) (-1) = Some 3%nat.
Proof.
  refine (proj1 (dirtomon_there_and_back Ex.last_selected 1%nat _ _) 1 (-1) _ _ _).
  - by_computation.
  - by_computation.
  - lia.
  - lia.
  - reflexivity.
Defined.

(** ** The invariants along a run *)

(** A run on the monitor with windows 101 and 102: a third window is
    mapped, tagged away and back into view, promoted, and the first
    window is destroyed. *)
Lemma chains_stay_in_order_witness :
  wm_wf
    (handle_all Ex.cfg 0 true
       [MapRequest 103 (Some (Ex.plain_attributes, false)) Ex.plain_properties;
        KeyTag 1; KeyToggleView 1; KeyFocusStack 1; KeyZoom;
        DestroyNotify 101; KeyToggleFloating]
       Ex.two_windows).
Proof.
  apply (chains_stay_in_order Ex.cfg 0 true).
  by_computation.
Defined.

(** The same kind of run, with a toggle of fullscreen; client 12 at
    its end. *)
Lemma tags_stay_proper_witness :
  let st' :=
    handle_all Ex.cfg 0 true
      [MapRequest 103 (Some (Ex.plain_attributes, false)) Ex.plain_properties;
       KeyTag 1; KeyToggleView 1; KeyToggleTag 1; KeyToggleTag 0;
       ClientMessage 102 NetWMState true 2]
      Ex.two_windows in
  let C := the_client st' 12%nat in
  Z.land (tags C) (TAGMASK Ex.cfg) <> 0
  /\ Z.land (tags C) (TAGMASK Ex.cfg) = tags C.
Proof.
  intros st' C.
  assert (H1 : wm_wf Ex.two_windows) by by_computation.
  assert (H2 : tags_inv Ex.cfg Ex.two_windows) by by_computation.
  assert (H3 : cl st' !! 12%nat = Some C) by (vm_compute; reflexivity).
  exact (tags_stay_proper Ex.cfg 0 true
           [MapRequest 103 (Some (Ex.plain_attributes, false)) Ex.plain_properties;
            KeyTag 1; KeyToggleView 1; KeyToggleTag 1; KeyToggleTag 0;
            ClientMessage 102 NetWMState true 2]
           Ex.two_windows H1 H2 12%nat C H3).
Defined.

(** ** Focus *)

(** Asking for client 11 of the monitor with two clients. *)
Lemma focus_selects_visible_on_top_witness :
  let st := Ex.two_clients in
  let st' := focus (Some 11%nat) st in
  let m := selected_monitor st' in
  match selected_client (the_mon st' m) with
  | Some t =>
      ISVISIBLE st' t = true
      /\ monitor (the_client st' t) = m
      /\ stack (the_mon st' m) = t :: unlink t (stack (the_mon st m))
      /\ (forall c', Some 11%nat = Some c' -> ISVISIBLE st c' = true -> t = c')
  | None =>
      m = selected_monitor st
      /\ (forall c', Some 11%nat = Some c' -> ISVISIBLE st c' = false)
      /\ (forall d, d ∈ stack (the_mon st m) -> ISVISIBLE st d = false)
  end.
Proof.
  apply (focus_selects_visible_on_top Ex.two_clients (Some 11%nat)).
  by_computation.
Defined.

Lemma focusstack_forth_and_back_witness :
  let st' := focusstack true (-1) (focusstack true 1 Ex.two_clients) in
  selected_monitor st' = selected_monitor Ex.two_clients
  /\ selected_client (the_mon st' (selected_monitor Ex.two_clients))
     = Some 12%nat.
Proof.
  apply (focusstack_forth_and_back Ex.two_clients true 1 (-1) 12%nat).
  - by_computation.
  - reflexivity.
  - reflexivity.
  - by_computation.
  - lia.
  - lia.
Defined.

Lemma enternotify_focuses_entered_witness :
  let st' := enternotify 0 None 101 true Ex.two_windows in
  selected_monitor st' = monitor (the_client Ex.two_windows 11%nat)
  /\ selected_client (the_mon st' (selected_monitor st')) = Some 11%nat.
Proof.
  apply (enternotify_focuses_entered Ex.two_windows 0 None 101 11%nat).
  - by_computation.
  - reflexivity.
  - reflexivity.
Defined.

(** ** Managing and unmanaging *)

(** Window 103 appears on the monitor with windows 101 and 102. *)
Lemma maprequest_manages_once_witness :
  let st := Ex.two_windows in
  let st' :=
    maprequest Ex.cfg 103 (Some (Ex.plain_attributes, false))
               Ex.plain_properties st in
  (exists c, window_to_client st' 103 = Some c
             /\ managed st' c /\ ¬ live_client st c
             /\ window (the_client st' c) = 103)
  /\ wm_wf st'
  /\ (forall c', live_client st c' -> live_client st' c')
  /\ maprequest Ex.cfg 103 (Some (Ex.plain_attributes, false))
                Ex.plain_properties st' = st'.
Proof.
  apply (maprequest_manages_once Ex.cfg Ex.two_windows 103
           Ex.plain_attributes Ex.plain_properties).
  - by_computation.
  - reflexivity.
Defined.

Lemma unmanage_leaves_no_reference_witness :
  let st := Ex.two_clients in
  let st' := unmanage Ex.cfg 12%nat st in
  ¬ live_client st' 12%nat
  /\ unreferenced st' 12%nat
  /\ wm_wf st'
  /\ (forall m, m ∈ monitors st ->
        clients (the_mon st' m) = unlink 12%nat (clients (the_mon st m)))
  /\ (forall c', c' <> 12%nat -> live_client st' c' <-> live_client st c').
Proof.
  apply (unmanage_leaves_no_reference Ex.cfg Ex.two_clients 12%nat).
  - by_computation.
  - by_computation.
Defined.

(** ** Moving clients *)

(** The selected client, 12, is the first tiled client: [zoom]
    promotes the next one, 11. *)
Lemma zoom_promotes_witness :
  clients (the_mon (zoom Ex.cfg Ex.two_clients) (selected_monitor Ex.two_clients))
  = [11%nat; 12%nat].
Proof.
  apply (zoom_promotes Ex.cfg Ex.two_clients 12%nat).
  - by_computation.
  - reflexivity.
  - reflexivity.
  - reflexivity.
Defined.

(** Client 11 of the second monitor is sent to the first. *)
Lemma sendmon_moves_client_witness :
  let st := Ex.second_monitor_busy in
  let st' := sendmon Ex.cfg 11%nat 1%nat st in
  monitor (the_client st' 11%nat) = 1%nat
  /\ tags (the_client st' 11%nat) = current_tags st 1%nat
  /\ clients (the_mon st' 1%nat) = 11%nat :: clients (the_mon st 1%nat)
  /\ clients (the_mon st' (monitor (the_client st 11%nat)))
     = unlink 11%nat (clients (the_mon st (monitor (the_client st 11%nat))))
  /\ managed st' 11%nat /\ wm_wf st'.
Proof.
  apply (sendmon_moves_client Ex.cfg Ex.second_monitor_busy 11%nat 1%nat).
  - by_computation.
  - by_computation.
  - by_computation.
  - by_computation.
Defined.

(** ** Tags and views *)

Lemma toggleview_twice_restores_witness :
  current_tags (toggleview Ex.cfg 1 (toggleview Ex.cfg 1 Ex.two_clients))
               (selected_monitor Ex.two_clients)
  = current_tags Ex.two_clients (selected_monitor Ex.two_clients).
Proof.
  apply (toggleview_twice_restores Ex.cfg Ex.two_clients 1).
  - by_computation.
  - by_computation.
Defined.

(** The monitor shows tag 1 only; the selected client, 12, is moved
    to the second tag. *)
Lemma tag_moves_selected_client_witness :
  let st := Ex.two_clients in
  let sel := selected_monitor st in
  let st' := tag Ex.cfg 1 st in
  tags (the_client st' 12%nat) = Z.shiftl 1 1
  /\ monitor (the_client st' 12%nat) = sel
  /\ (Z.land (Z.shiftl 1 1) (current_tags st sel) = 0 ->
      ISVISIBLE st' 12%nat = false
      /\ selected_client (the_mon st' sel) <> Some 12%nat).
Proof.
  apply (tag_moves_selected_client Ex.cfg Ex.two_clients 1 12%nat).
  - by_computation.
  - cbn. lia.
  - reflexivity.
Defined.

(** ** Floating, gaps and the bar *)

Lemma togglefloating_flips_witness :
  let st := Ex.two_clients in
  let C := the_client st 12%nat in
  (isfullscreen C = true -> togglefloating Ex.cfg st = st)
  /\ (isfullscreen C = false ->
      isfloating (the_client (togglefloating Ex.cfg st) 12%nat)
      = negb (isfloating C) || isfixed C
      /\ (isfixed C = false ->
          isfloating
            (the_client (togglefloating Ex.cfg (togglefloating Ex.cfg st)) 12%nat)
          = isfloating C)).
Proof.
  apply (togglefloating_flips Ex.cfg Ex.two_clients 12%nat).
  - by_computation.
  - reflexivity.
Defined.

(** No gap yet, and five pixels less are asked for. *)
Lemma setgaps_never_negative_witness :
  let st := Ex.two_clients in
  let g := gappx (the_mon (setgaps Ex.cfg (-5) st) (selected_monitor st)) in
  g = 0 /\ 0 <= g.
Proof.
  apply (setgaps_never_negative Ex.cfg Ex.two_clients (-5)).
  - by_computation.
  - by_computation.
Defined.


(** ** Messages and requests of a client *)

(** Window 101 belongs to client 11, which is not the selected one. *)
Lemma clientmessage_fullscreen_and_urgency_witness :
  let st := Ex.two_windows in
  let C := the_client st 11%nat in
  isfullscreen (the_client (clientmessage Ex.cfg 101 NetWMState true 2 st) 11%nat)
  = Z.eqb 2 1 || (Z.eqb 2 2 && negb (isfullscreen C))
  /\ forall names_fullscreen,
       let st' := clientmessage Ex.cfg 101 NetActiveWindow names_fullscreen 2 st in
       selected_monitor st' = selected_monitor st
       /\ mon st' = mon st
       /\ isurgent (the_client st' 11%nat)
          = isurgent C
            || negb (bool_decide
                       (selected_client (the_mon st (selected_monitor st))
                        = Some 11%nat)).
Proof.
  apply (clientmessage_fullscreen_and_urgency Ex.cfg Ex.two_windows 101 11%nat 2).
  - by_computation.
  - reflexivity.
Defined.

(** The tiled client of window 102 asks for a size of 1x1. *)
Lemma configurerequest_by_floating_witness :
  let ev := {| CWX := false; CWY := false; CWWidth := true; CWHeight := true;
               CWBorderWidth := false; cr_x := 0; cr_y := 0; cr_width := 1;
               cr_height := 1; cr_border_width := 0 |} in
  let st := Ex.two_windows in
  let C := the_client st 12%nat in
  let st' := configurerequest 102 ev st in
  let C' := the_client st' 12%nat in
  mon st' = mon st
  /\ (forall c', c' <> 12%nat -> the_client st' c' = the_client st c')
  /\ (CWBorderWidth ev = true ->
      C' = cset_border_width (cr_border_width ev) C)
  /\ (CWBorderWidth ev = false ->
      if isfloating C || negb (has_arrange st (selected_monitor st))
      then c_w C' = (if CWWidth ev then cr_width ev else c_w C)
           /\ c_h C' = (if CWHeight ev then cr_height ev else c_h C)
      else st' = st).
Proof.
  intros ev.
  apply (configurerequest_by_floating Ex.two_windows 102 ev 12%nat).
  - by_computation.
  - reflexivity.
Defined.

(** ** Screens *)

